(** * mkgo: a shallow embedding of the module scaffolding tool

    The development follows the Go program [mkgo] in its two variants: the
    basic one (source file only) and the extended one (source, LICENSE and
    README.md).  Functions of the Go standard library that the program calls
    ([path/filepath], [strings], [os]) are modelled for Unix from their
    documented behaviour; the program's own functions keep their names. *)

From Stdlib Require Import String Ascii List Bool Arith Lia.
Import ListNotations.
Open Scope list_scope.
Open Scope string_scope.

(** ** Strings *)

Definition Separator : ascii := "/"%char.
Definition ListSeparator : ascii := ":"%char.

(** [len(s) > 0] *)
Definition nonEmpty (s : string) : bool :=
  match s with
  | EmptyString => false
  | String _ _ => true
  end.

(** [strings.Split(s, sep)] for a separator of one character: the pieces
    between the separators, in order; never the empty list. *)
Fixpoint strings_Split (sep : ascii) (s : string) : list string :=
  match s with
  | EmptyString => [EmptyString]
  | String c s' =>
      if Ascii.eqb c sep then EmptyString :: strings_Split sep s'
      else match strings_Split sep s' with
           | h :: t => String c h :: t
           | [] => [String c EmptyString]
           end
  end.

(** [strings.Join(elems, sep)] *)
Fixpoint strings_Join (elems : list string) (sep : string) : string :=
  match elems with
  | [] => EmptyString
  | e :: rest =>
      match rest with
      | [] => e
      | _ :: _ => e ++ sep ++ strings_Join rest sep
      end
  end.

(** ** path/filepath on Unix *)

(** [filepath.Split]: the directory part ends with the last separator (or is
    empty when there is none), the file part is what follows it. *)
Fixpoint filepath_Split (path : string) : string * string :=
  match path with
  | EmptyString => (EmptyString, EmptyString)
  | String c rest =>
      let (d, f) := filepath_Split rest in
      match d with
      | EmptyString =>
          if Ascii.eqb c Separator then (String c EmptyString, f)
          else (EmptyString, String c f)
      | String _ _ => (String c d, f)
      end
  end.

(** One element of a path met by [filepath.Clean], the elements kept so far
    being [st], last one first.  Empty elements and [.] are dropped; [..]
    removes the element before it when that is a real one, is kept in a
    relative path when there is nothing to remove, and is dropped at the root
    of a rooted path. *)
Definition cleanStep (rooted : bool) (st : list string) (e : string) : list string :=
  if String.eqb e EmptyString then st
  else if String.eqb e "." then st
  else if String.eqb e ".." then
    match st with
    | top :: st' => if String.eqb top ".." then e :: st else st'
    | [] => if rooted then [] else [e]
    end
  else e :: st.

Definition isRooted (path : string) : bool :=
  match path with
  | String c _ => Ascii.eqb c Separator
  | EmptyString => false
  end.

(** [filepath.Clean]: the shortest equivalent path by lexical processing.  The
    result ends in a separator only when it is the root, and the empty result
    is written [.]. *)
Definition filepath_Clean (path : string) : string :=
  match path with
  | EmptyString => "."
  | String _ _ =>
      let rooted := isRooted path in
      let st := fold_left (cleanStep rooted) (strings_Split Separator path) [] in
      let body := strings_Join (rev st) "/" in
      if rooted then "/" ++ body
      else if nonEmpty body then body else "."
  end.

(** [filepath.Join]: the elements from the first non-empty one on, joined by
    the separator and cleaned; the empty string when every element is empty. *)
Fixpoint filepath_Join (elem : list string) : string :=
  match elem with
  | [] => EmptyString
  | e :: rest =>
      if nonEmpty e then filepath_Clean (strings_Join elem "/")
      else filepath_Join rest
  end.

(** [filepath.SplitList]: the entries of a path list such as [GOPATH]; the
    empty string has no entry. *)
Definition filepath_SplitList (path : string) : list string :=
  match path with
  | EmptyString => []
  | String _ _ => strings_Split ListSeparator path
  end.

(** ** The path resolver *)

(** The second loop of [splitPath] swaps the elements [i] and [n-i-1] for
    every [i < n/2]. *)
Fixpoint swapLoop (count i : nat) (part : list string) : list string :=
  match count with
  | 0 => part
  | S count' =>
      let n := length part in
      let a := nth i part EmptyString in
      let b := nth (n - i - 1) part EmptyString in
      let part1 := (firstn i part ++ b :: skipn (S i) part)%list in
      let part2 := (firstn (n - i - 1) part1 ++ a :: skipn (S (n - i - 1)) part1)%list in
      swapLoop count' (S i) part2
  end.

Definition reverseInPlace (part : list string) : list string :=
  swapLoop (Nat.div2 (length part)) 0 part.

(** The first loop of [splitPath].  It runs while the path is not empty and
    has no bound of its own, hence the fuel: [None] means that [fuel]
    iterations did not end it. *)
Fixpoint splitLoop (fuel : nat) (path : string) (part : list string)
  : option (list string) :=
  match path with
  | EmptyString => Some part
  | String _ _ =>
      match fuel with
      | 0 => None
      | S fuel' =>
          let (d, f) := filepath_Split path in
          let part' := if nonEmpty f then (part ++ [f])%list else part in
          if nonEmpty d then splitLoop fuel' (filepath_Clean d) part'
          else Some part'
      end
  end.

Definition splitPath (fuel : nat) (path : string) : option (list string) :=
  option_map reverseInPlace (splitLoop fuel path []).

(** [packagePath], with the value of the environment variable [GOPATH] as a
    parameter.  [full] and [name] start as empty strings. *)
Definition packagePath (fuel : nat) (GOPATH path : string)
  : option (string * string) :=
  let gopath := filepath_SplitList GOPATH in
  match splitPath fuel path with
  | None => None
  | Some part =>
      let full :=
        match gopath with
        | g0 :: _ => filepath_Join [g0; "src"; filepath_Join part]
        | [] => EmptyString
        end in
      let name :=
        match part with
        | [] => EmptyString
        | _ :: _ => last part EmptyString
        end in
      Some (full, name)
  end.


(** ** The operating system and the run of a command

    The program talks to the file system, to external commands and to the
    standard output.  A platform gives the answers of the operating system
    as functions of a state [W] of the world; every call and every line
    printed is recorded, in order, in the trace of the run. *)

(** A Go [error] value: whether [os.IsNotExist] holds of it, and its text. *)
Record error : Type := mkError { notExist : bool; Error : string }.

(** [os.FileInfo], of which the program reads [IsDir()] only. *)
Record FileInfo : Type := mkFileInfo { IsDir : bool }.

(** What [os.Stat] returns: a file info and a nil error, or a nil file info
    and an error. *)
Definition StatResult : Type := (option FileInfo * option error)%type.

Definition statFound (isDir : bool) : StatResult := (Some (mkFileInfo isDir), None).
Definition statFailed (err : error) : StatResult := (None, Some err).

Definition wellFormedStat (r : StatResult) : Prop :=
  (exists fi, r = (Some fi, None)) \/ (exists err, r = (None, Some err)).

(** [os.IsNotExist(err)]; false of the nil error. *)
Definition os_IsNotExist (err : option error) : bool :=
  match err with
  | Some e => notExist e
  | None => false
  end.

Definition isNil {A : Type} (x : option A) : bool :=
  match x with
  | None => true
  | Some _ => false
  end.

Class Platform (W : Type) : Type := {
  (** [os.MkdirAll(path, perm)] *)
  os_MkdirAll : string -> nat -> W -> option error * W;
  (** [os.Stat(path)] *)
  os_Stat : string -> W -> StatResult;
  (** [ioutil.WriteFile(path, data, perm)] *)
  ioutil_WriteFile : string -> string -> nat -> W -> option error * W;
  (** [exec.Command(cmd, arg...)] run in [dir] with [CombinedOutput()] *)
  exec_CombinedOutput : string -> string -> list string -> W -> (string * option error) * W;
  (** what [version.PrintChangeLog()] prints for a change log *)
  version_render : list (string * string * string * list string) -> string;
  (** what [version.String()] returns for a change log *)
  version_String : list (string * string * string * list string) -> string;
  (** the verb [%q] of [fmt] *)
  fmt_quote : string -> string
}.

Inductive Event : Type :=
| Printed (text : string)
| MadeDir (path : string) (perm : nat) (err : option error)
| Statted (path : string) (res : StatResult)
| Wrote (path data : string) (perm : nat) (err : option error)
| Ran (dir cmd : string) (arg : list string) (output : string) (err : option error).

(** How a run stops before the end of [main]: [os.Exit(code)], the run-time
    panic of a method call on a nil interface value, or a loop that the fuel
    did not see end. *)
Inductive Stop : Type :=
| Exited (code : nat)
| NilDereference
| OutOfFuel.

Record State (W : Type) : Type := mkState { world : W; trace : list Event }.
Arguments mkState {W} _ _.
Arguments world {W} _.
Arguments trace {W} _.

(** Computations of the program: they read and change the state and either
    return a value or stop the run. *)
Definition Run (W A : Type) : Type := State W -> (A + Stop) * State W.

Definition ret {W A : Type} (a : A) : Run W A := fun s => (inl a, s).

Definition bind {W A B : Type} (m : Run W A) (k : A -> Run W B) : Run W B :=
  fun s =>
    match m s with
    | (inl a, s') => k a s'
    | (inr stop, s') => (inr stop, s')
    end.

Definition halt {W A : Type} (stop : Stop) : Run W A := fun s => (inr stop, s).

Definition emit {W : Type} (e : Event) : Run W unit :=
  fun s => (inl tt, mkState (world s) (trace s ++ [e])%list).

Declare Scope run_scope.
Delimit Scope run_scope with run.
Notation "x <- m ;; k" := (bind m (fun x => k))
  (at level 61, m at next level, right associativity) : run_scope.
Notation "m ;; k" := (bind m (fun _ => k))
  (at level 61, right associativity) : run_scope.
Notation "' pat <- m ;; k" := (bind m (fun x => match x with pat => k end))
  (at level 61, pat pattern, m at next level, right associativity) : run_scope.

Definition nl : string := String "010"%char EmptyString.
Definition tab : string := String "009"%char EmptyString.
Definition dq : string := String "034"%char EmptyString.

(** [os.ModePerm] and the mode [0664] of the files written. *)
Definition os_ModePerm : nat := 511.
Definition mode0664 : nat := 436.

Section Program.
Context {W : Type} {platform : Platform W}.
Local Open Scope run_scope.

Definition os_Exit {A : Type} (code : nat) : Run W A := halt (Exited code).

Definition fmt_Print (text : string) : Run W unit := emit (Printed text).

Definition MkdirAll (path : string) (perm : nat) : Run W (option error) :=
  fun s =>
    let (err, w') := os_MkdirAll path perm (world s) in
    (inl err, mkState w' (trace s ++ [MadeDir path perm err])%list).

Definition Stat (path : string) : Run W StatResult :=
  fun s =>
    let res := os_Stat path (world s) in
    (inl res, mkState (world s) (trace s ++ [Statted path res])%list).

Definition WriteFile (path data : string) (perm : nat) : Run W (option error) :=
  fun s =>
    let (err, w') := ioutil_WriteFile path data perm (world s) in
    (inl err, mkState w' (trace s ++ [Wrote path data perm err])%list).

(** [execCmd] runs the command [cmd] with the arguments [arg] from the
    directory [dir] and returns the combined output with the error. *)
Definition execCmd (dir cmd : string) (arg : list string) : Run W (string * option error) :=
  fun s =>
    let '(o, err, w') := exec_CombinedOutput dir cmd arg (world s) in
    (inl (o, err), mkState w' (trace s ++ [Ran dir cmd arg o err])%list).

(** [stat.IsDir()], a method call on an interface value: it panics when the
    value is nil. *)
Definition callIsDir (stat : option FileInfo) : Run W bool :=
  match stat with
  | Some fi => ret (IsDir fi)
  | None => halt NilDereference
  end.

(** The body of [fileExists] on what [os.Stat] returned.  [&&] evaluates its
    right operand only when the left one is true. *)
Definition fileExistsOn (res : StatResult) : Run W (bool * bool) :=
  let (stat, err) := res in
  let exists_ := isNil err || negb (os_IsNotExist err) in
  isDir <- (if exists_ then callIsDir stat else ret false) ;;
  ret (exists_, isDir).

Definition fileExists (path : string) : Run W (bool * bool) :=
  res <- Stat path ;;
  fileExistsOn res.

End Program.

(** ** The template engine *)

(** [p] is a prefix of [s]. *)
Fixpoint hasPrefix (p s : string) : bool :=
  match p with
  | EmptyString => true
  | String a p' =>
      match s with
      | EmptyString => false
      | String b s' => Ascii.eqb a b && hasPrefix p' s'
      end
  end.

(** [strings.ReplaceAll(s, old, new)] for a non-empty [old]: the occurrences
    of [old] that do not overlap, taken from the left, are replaced by [new].
    [skip] counts the characters of an occurrence that are still to be
    passed over. *)
Fixpoint replaceFrom (old new : string) (skip : nat) (s : string) : string :=
  match s with
  | EmptyString => EmptyString
  | String c s' =>
      match skip with
      | S k => replaceFrom old new k s'
      | 0 =>
          if hasPrefix old s
          then new ++ replaceFrom old new (String.length old - 1) s'
          else String c (replaceFrom old new 0 s')
      end
  end.

(** With an empty [old], Go puts [new] before every character and at the
    end (strings of ASCII characters). *)
Fixpoint intersperse (new s : string) : string :=
  match s with
  | EmptyString => new
  | String c s' => new ++ String c (intersperse new s')
  end.

Definition strings_ReplaceAll (s old new : string) : string :=
  match old with
  | EmptyString => intersperse new s
  | String _ _ => replaceFrom old new 0 s
  end.

(** [Template]: a file whose elements are the lines of the file. *)
Definition Template : Type := list string.

(** [String] returns the elements of the template joined by newline. *)
Definition Template_String (tmpl : Template) : string := strings_Join tmpl nl.

(** ** The basic variant ([mkgo.go]) *)

Module Basic.

(** [insert] replaces the placeholder tokens in every element of the
    template; the Go method rewrites the elements in place and returns the
    receiver. *)
Definition insert (tmpl : Template) (name date version : string) : Template :=
  map (fun s =>
         strings_ReplaceAll
           (strings_ReplaceAll
              (strings_ReplaceAll s "__NAME__" name)
              "__DATE__" date)
           "__VERSION__" version)
      tmpl.

Definition dateFormat : string := "2006 Jan 02".
Definition semVersion : string := "0.1.0".

(** The template of the source file. *)
Definition template : Template :=
  [ "package main";
    EmptyString;
    "import (";
    tab ++ dq ++ "flag" ++ dq;
    tab ++ dq ++ "fmt" ++ dq;
    EmptyString;
    tab ++ dq ++ "github.com/ardnew/version" ++ dq;
    ")";
    EmptyString;
    "func init() {";
    tab ++ "version.ChangeLog = []version.Change{{";
    tab ++ tab ++ "Package: " ++ dq ++ "__NAME__" ++ dq ++ ",";
    tab ++ tab ++ "Version: " ++ dq ++ "__VERSION__" ++ dq ++ ",";
    tab ++ tab ++ "Date:    " ++ dq ++ "__DATE__" ++ dq ++ ",";
    tab ++ tab ++ "Description: []string{";
    tab ++ tab ++ tab ++ dq ++ "initial implementation" ++ dq ++ ",";
    tab ++ tab ++ "},";
    tab ++ "}}";
    "}";
    EmptyString;
    "func main() {";
    EmptyString;
    tab ++ "var (";
    tab ++ tab ++ "argChangeLog bool";
    tab ++ tab ++ "argVersion   bool";
    tab ++ ")";
    EmptyString;
    tab ++ "flag.BoolVar(&argChangeLog, " ++ dq ++ "changelog" ++ dq ++ ", false, " ++ dq ++ "display change history" ++ dq ++ ")";
    tab ++ "flag.BoolVar(&argVersion, " ++ dq ++ "version" ++ dq ++ ", false, " ++ dq ++ "display version information" ++ dq ++ ")";
    tab ++ "flag.Parse()";
    EmptyString;
    tab ++ "if argChangeLog {";
    tab ++ tab ++ "version.PrintChangeLog()";
    tab ++ "} else if argVersion {";
    tab ++ tab ++ "fmt.Printf(" ++ dq ++ "__NAME__ version %s\n" ++ dq ++ ", version.String())";
    tab ++ "} else {";
    tab ++ tab ++ "// main";
    tab ++ "}";
    "}" ].

(** [version.ChangeLog] as [init] sets it: package, version, date and
    description of every change. *)
Definition ChangeLog : list (string * string * string * list string) :=
  [ ("mkgo", "0.1.0", "2020 Oct 10", ["initial implementation"]) ].

(** The command line after [flag.Parse()], with the environment variable
    that the program reads. *)
Record Invocation : Type := mkInvocation {
  argChangeLog : bool;
  argVersion : bool;
  argMkDate : string;
  argMkVersion : string;
  argOverwrite : bool;
  flag_Args : list string;
  GOPATH : string
}.

(** [flag.Arg(i)]: the empty string when there is no such argument. *)
Definition flag_Arg (inv : Invocation) (i : nat) : string :=
  nth i (flag_Args inv) EmptyString.

Section Main.
Context {W : Type} {platform : Platform W}.
Local Open Scope run_scope.

(** The generation steps once the destination directory exists. *)
Definition generate (inv : Invocation) (path name : string) : Run W unit :=
  let sourcePath := filepath_Join [path; name ++ ".go"] in
  '(exists_, isDir) <- fileExists sourcePath ;;
  if negb exists_ || argOverwrite inv then
    (if isDir : bool then
       fmt_Print ("error: output file is a directory: " ++ sourcePath ++ nl) ;;
       os_Exit 3
     else ret tt) ;;
    err <- WriteFile sourcePath
             (Template_String (insert template name (argMkDate inv) (argMkVersion inv)))
             mode0664 ;;
    match err with
    | Some e => fmt_Print ("error: " ++ Error e ++ nl) ;; os_Exit 4
    | None => ret tt
    end ;;
    '(out, err) <- execCmd path "goimports" ["-w"; name ++ ".go"] ;;
    match err with
    | Some _ => fmt_Print out ;; os_Exit 5
    | None => ret tt
    end ;;
    '(out, err) <- execCmd path "go" ["mod"; "init"] ;;
    match err with
    | Some _ => fmt_Print out ;; os_Exit 6
    | None => ret tt
    end ;;
    fmt_Print ("mkgo: successfully created " ++ fmt_quote (flag_Arg inv 0)
               ++ ": " ++ path ++ nl)
  else
    fmt_Print ("error: file exists (use -f to overwrite): " ++ sourcePath ++ nl) ;;
    os_Exit 7.

(** The steps from the check of the arguments to the creation of the
    destination directory; they return the destination and the short name. *)
Definition prepare (fuel : nat) (inv : Invocation) : Run W (string * string) :=
  (if Nat.eqb (length (flag_Args inv)) 0 then
     fmt_Print ("error: no package path specified (use -h for help)" ++ nl) ;;
     os_Exit 1
   else ret tt) ;;
  '(path, name) <-
    match packagePath fuel (GOPATH inv) (flag_Arg inv 0) with
    | Some r => ret r
    | None => halt OutOfFuel
    end ;;
  err <- MkdirAll path os_ModePerm ;;
  match err with
  | Some e => fmt_Print ("error: " ++ Error e ++ nl) ;; os_Exit 2
  | None => ret tt
  end ;;
  ret (path, name).

Definition main (fuel : nat) (inv : Invocation) : Run W unit :=
  if argChangeLog inv then
    fmt_Print (version_render ChangeLog)
  else if argVersion inv then
    fmt_Print ("mkgo version " ++ version_String ChangeLog ++ nl)
  else
    '(path, name) <- prepare fuel inv ;;
    generate inv path name.

End Main.

End Basic.

(** ** The extended variant (source file, LICENSE and README.md) *)

Module Extended.

(** [insert] replaces the placeholder tokens in every element of the
    template; the Go method rewrites the elements in place and returns the
    receiver. *)
Definition insert (tmpl : Template) (path name date version user : string) : Template :=
  map (fun s =>
         strings_ReplaceAll
           (strings_ReplaceAll
              (strings_ReplaceAll
                 (strings_ReplaceAll
                    (strings_ReplaceAll s "__IMPORT__" path)
                    "__NAME__" name)
                 "__DATE__" date)
              "__VERSION__" version)
           "__USER__" user)
      tmpl.

Definition dateFormat : string := "2006 Jan 02".
Definition semVersion : string := "0.1.0".

(** The template of the source file. *)
Definition template : Template :=
  [ "package main";
    EmptyString;
    "import (";
    tab ++ dq ++ "flag" ++ dq;
    tab ++ dq ++ "fmt" ++ dq;
    EmptyString;
    tab ++ dq ++ "github.com/ardnew/version" ++ dq;
    ")";
    EmptyString;
    "func init() {";
    tab ++ "version.ChangeLog = []version.Change{{";
    tab ++ tab ++ "Package: " ++ dq ++ "__NAME__" ++ dq ++ ",";
    tab ++ tab ++ "Version: " ++ dq ++ "__VERSION__" ++ dq ++ ",";
    tab ++ tab ++ "Date:    " ++ dq ++ "__DATE__" ++ dq ++ ",";
    tab ++ tab ++ "Description: []string{";
    tab ++ tab ++ tab ++ dq ++ "initial implementation" ++ dq ++ ",";
    tab ++ tab ++ "},";
    tab ++ "}}";
    "}";
    EmptyString;
    "func main() {";
    EmptyString;
    tab ++ "var (";
    tab ++ tab ++ "argVersion bool";
    tab ++ tab ++ "argChanges bool";
    tab ++ ")";
    EmptyString;
    tab ++ "flag.BoolVar(&argVersion, " ++ dq ++ "v" ++ dq ++ ", false, " ++ dq ++ "Display version information" ++ dq ++ ")";
    tab ++ "flag.BoolVar(&argChanges, " ++ dq ++ "V" ++ dq ++ ", false, " ++ dq ++ "Display change history" ++ dq ++ ")";
    tab ++ "flag.Parse()";
    EmptyString;
    tab ++ "if argChanges {";
    tab ++ tab ++ "version.PrintChangeLog()";
    tab ++ "} else if argVersion {";
    tab ++ tab ++ "fmt.Printf(" ++ dq ++ "__NAME__ version %s\n" ++ dq ++ ", version.String())";
    tab ++ "} else {";
    tab ++ tab ++ "// main";
    tab ++ "}";
    "}" ].

(** The only license template, of key [MIT]. *)
Definition licenseMIT : Template :=
  [ "MIT License";
    EmptyString;
    "Copyright (c) 2020 __USER__";
    EmptyString;
    "Permission is hereby granted, free of charge, to any person obtaining a copy";
    "of this software and associated documentation files (the " ++ dq ++ "Software" ++ dq ++ "), to deal";
    "in the Software without restriction, including without limitation the rights";
    "to use, copy, modify, merge, publish, distribute, sublicense, and/or sell";
    "copies of the Software, and to permit persons to whom the Software is";
    "furnished to do so, subject to the following conditions:";
    EmptyString;
    "The above copyright notice and this permission notice shall be included in all";
    "copies or substantial portions of the Software.";
    EmptyString;
    "THE SOFTWARE IS PROVIDED " ++ dq ++ "AS IS" ++ dq ++ ", WITHOUT WARRANTY OF ANY KIND, EXPRESS OR";
    "IMPLIED, INCLUDING BUT NOT LIMITED TO THE WARRANTIES OF MERCHANTABILITY,";
    "FITNESS FOR A PARTICULAR PURPOSE AND NONINFRINGEMENT. IN NO EVENT SHALL THE";
    "AUTHORS OR COPYRIGHT HOLDERS BE LIABLE FOR ANY CLAIM, DAMAGES OR OTHER";
    "LIABILITY, WHETHER IN AN ACTION OF CONTRACT, TORT OR OTHERWISE, ARISING FROM,";
    "OUT OF OR IN CONNECTION WITH THE SOFTWARE OR THE USE OR OTHER DEALINGS IN THE";
    "SOFTWARE." ++ tab ++ tab ++ tab ].

(** The template of [README.md]. *)
Definition readme : Template :=
  [ "[docimg]:https://godoc.org/__IMPORT__?status.svg";
    "[docurl]:https://godoc.org/__IMPORT__";
    "[repimg]:https://goreportcard.com/badge/__IMPORT__";
    "[repurl]:https://goreportcard.com/report/__IMPORT__";
    EmptyString;
    "# __NAME__";
    "#### __NAME__";
    EmptyString;
    "[![GoDoc][docimg]][docurl] [![Go Report Card][repimg]][repurl]";
    EmptyString;
    "## Usage";
    EmptyString;
    "How to use:";
    EmptyString;
    "```sh";
    "__NAME__ ...";
    "```";
    EmptyString;
    "Use the `-h` flag for usage summary:";
    EmptyString;
    "```";
    "Usage of __NAME__:";
    "  -changelog";
    tab ++ tab ++ "display change history";
    "  -version";
    tab ++ tab ++ "display version information";
    "```";
    EmptyString;
    "## Installation";
    EmptyString;
    "Use the builtin Go package manager:";
    EmptyString;
    "```sh";
    "go get -v __IMPORT__";
    "```" ].

(** The map [licenseTemplate], of one key. *)
Definition licenseTemplate : list (string * Template) := [ ("MIT", licenseMIT) ].

(** [v, ok := m[key]] *)
Fixpoint mapLookup (m : list (string * Template)) (key : string) : option Template :=
  match m with
  | [] => None
  | (k, v) :: rest => if String.eqb k key then Some v else mapLookup rest key
  end.

(** [version.ChangeLog] as [init] sets it: package, version, date and
    description of every change. *)
Definition ChangeLog : list (string * string * string * list string) :=
  [ ("mkgo", "0.1.0", "2020 Oct 10", ["initial implementation"]);
    ("mkgo", "0.2.0", "2020 Oct 10", ["add support for README and LICENSE generation"]);
    ("mkgo", "0.2.1", "2021 Mar 8", ["use shorter, abbreviated flags in generated source"]) ].

(** The command line after [flag.Parse()], with the environment variable
    that the program reads ([USER] is only the default of [argUser]). *)
Record Invocation : Type := mkInvocation {
  argChanges : bool;
  argVersion : bool;
  argMkDate : string;
  argMkVersion : string;
  argReadme : bool;
  argLicense : string;
  argUser : string;
  argOverwrite : bool;
  flag_Args : list string;
  GOPATH : string
}.

(** [flag.Arg(i)]: the empty string when there is no such argument. *)
Definition flag_Arg (inv : Invocation) (i : nat) : string :=
  nth i (flag_Args inv) EmptyString.

Section Main.
Context {W : Type} {platform : Platform W}.
Local Open Scope run_scope.

(** The steps from the check of the arguments to the creation of the
    destination directory; they return the destination and the short name. *)
Definition prepare (fuel : nat) (inv : Invocation) : Run W (string * string) :=
  (if Nat.eqb (length (flag_Args inv)) 0 then
     fmt_Print ("error: no package path specified (use -h for help)" ++ nl) ;;
     os_Exit 1
   else ret tt) ;;
  '(path, name) <-
    match packagePath fuel (GOPATH inv) (flag_Arg inv 0) with
    | Some r => ret r
    | None => halt OutOfFuel
    end ;;
  err <- MkdirAll path os_ModePerm ;;
  match err with
  | Some e => fmt_Print ("error: " ++ Error e ++ nl) ;; os_Exit 2
  | None => ret tt
  end ;;
  ret (path, name).

(** The source file and the two external tools. *)
Definition sourceStep (inv : Invocation) (path name : string) : Run W unit :=
  let sourcePath := filepath_Join [path; name ++ ".go"] in
  '(exists_, isDir) <- fileExists sourcePath ;;
  if negb exists_ || argOverwrite inv then
    (if isDir : bool then
       fmt_Print ("error: output file is a directory: " ++ sourcePath ++ nl) ;;
       os_Exit 3
     else ret tt) ;;
    err <- WriteFile sourcePath
             (Template_String
                (insert template (flag_Arg inv 0) name (argMkDate inv)
                   (argMkVersion inv) (argUser inv)))
             mode0664 ;;
    match err with
    | Some e => fmt_Print ("error: " ++ Error e ++ nl) ;; os_Exit 4
    | None => ret tt
    end ;;
    '(out, err) <- execCmd path "goimports" ["-w"; name ++ ".go"] ;;
    match err with
    | Some _ => fmt_Print out ;; os_Exit 5
    | None => ret tt
    end ;;
    '(out, err) <- execCmd path "go" ["mod"; "init"] ;;
    match err with
    | Some _ => fmt_Print out ;; os_Exit 6
    | None => ret tt
    end
  else
    fmt_Print ("error: file exists (use -f to overwrite): " ++ sourcePath ++ nl) ;;
    os_Exit 7.

(** The license file. *)
Definition licenseStep (inv : Invocation) (path name : string) : Run W unit :=
  let licensePath := filepath_Join [path; "LICENSE"] in
  match mapLookup licenseTemplate (argLicense inv) with
  | None =>
      fmt_Print ("error: unsupported license (use -h to view options): "
                 ++ argLicense inv ++ nl) ;;
      os_Exit 8
  | Some license =>
      '(exists_, isDir) <- fileExists licensePath ;;
      if negb exists_ || argOverwrite inv then
        (if isDir : bool then
           fmt_Print ("error: output file is a directory: " ++ licensePath ++ nl) ;;
           os_Exit 9
         else ret tt) ;;
        err <- WriteFile licensePath
                 (Template_String
                    (insert license (flag_Arg inv 0) name (argMkDate inv)
                       (argMkVersion inv) (argUser inv)))
                 mode0664 ;;
        match err with
        | Some e => fmt_Print ("error: " ++ Error e ++ nl) ;; os_Exit 10
        | None => ret tt
        end
      else
        fmt_Print ("error: file exists (use -f to overwrite): " ++ licensePath ++ nl) ;;
        os_Exit 11
  end.

(** The readme file. *)
Definition readmeStep (inv : Invocation) (path name : string) : Run W unit :=
  let readmePath := filepath_Join [path; "README.md"] in
  '(exists_, isDir) <- fileExists readmePath ;;
  if negb exists_ || argOverwrite inv then
    (if isDir : bool then
       fmt_Print ("error: output file is a directory: " ++ readmePath ++ nl) ;;
       os_Exit 9
     else ret tt) ;;
    err <- WriteFile readmePath
             (Template_String
                (insert readme (flag_Arg inv 0) name (argMkDate inv)
                   (argMkVersion inv) (argUser inv)))
             mode0664 ;;
    match err with
    | Some e => fmt_Print ("error: " ++ Error e ++ nl) ;; os_Exit 10
    | None => ret tt
    end
  else
    fmt_Print ("error: file exists (use -f to overwrite): " ++ readmePath ++ nl) ;;
    os_Exit 11.

Definition main (fuel : nat) (inv : Invocation) : Run W unit :=
  if argChanges inv then
    fmt_Print (version_render ChangeLog)
  else if argVersion inv then
    fmt_Print ("mkgo version " ++ version_String ChangeLog ++ nl)
  else
    '(path, name) <- prepare fuel inv ;;
    sourceStep inv path name ;;
    licenseStep inv path name ;;
    readmeStep inv path name ;;
    fmt_Print ("mkgo: successfully created " ++ fmt_quote (flag_Arg inv 0)
               ++ ": " ++ path ++ nl).

End Main.

End Extended.

(** ** The result of a run *)

(** The exit of the process: a [main] that returns exits with code 0. *)
Definition outcome {W : Type} (r : (unit + Stop) * State W) : Stop :=
  match fst r with
  | inl _ => Exited 0
  | inr stop => stop
  end.

Definition start {W : Type} (w : W) : State W := mkState w [].

(** ** A small platform

    A disk is a list of paths with what is found there, the newest entry
    first, and the names of the commands that fail.  It serves to run the
    program on concrete inputs. *)

Inductive Node : Type :=
| Directory
| RegularFile (content : string).

Record Disk : Type := mkDisk {
  nodes : list (string * Node);
  failing : list string
}.

Fixpoint lookupNode (l : list (string * Node)) (path : string) : option Node :=
  match l with
  | [] => None
  | (p, n) :: rest => if String.eqb p path then Some n else lookupNode rest path
  end.

Definition diskStat (path : string) (d : Disk) : StatResult :=
  match lookupNode (nodes d) path with
  | Some Directory => statFound true
  | Some (RegularFile _) => statFound false
  | None => statFailed (mkError true ("stat " ++ path ++ ": no such file or directory"))
  end.

Definition diskMkdirAll (path : string) (perm : nat) (d : Disk) : option error * Disk :=
  match lookupNode (nodes d) path with
  | Some Directory => (None, d)
  | Some (RegularFile _) =>
      (Some (mkError false ("mkdir " ++ path ++ ": not a directory")), d)
  | None => (None, mkDisk ((path, Directory) :: nodes d) (failing d))
  end.

Definition diskWriteFile (path data : string) (perm : nat) (d : Disk)
  : option error * Disk :=
  match lookupNode (nodes d) path with
  | Some Directory => (Some (mkError false ("open " ++ path ++ ": is a directory")), d)
  | _ => (None, mkDisk ((path, RegularFile data) :: nodes d) (failing d))
  end.

Definition diskExec (dir cmd : string) (arg : list string) (d : Disk)
  : (string * option error) * Disk :=
  if existsb (String.eqb cmd) (failing d)
  then ((cmd ++ ": failed" ++ nl, Some (mkError false "exit status 1")), d)
  else ((EmptyString, None), d).

#[export] Instance diskPlatform : Platform Disk := {
  os_MkdirAll := diskMkdirAll;
  os_Stat := diskStat;
  ioutil_WriteFile := diskWriteFile;
  exec_CombinedOutput := diskExec;
  version_render := fun log =>
    strings_Join (map (fun c => match c with (_, v, d, _) => v ++ " " ++ d end) log) nl ++ nl;
  version_String := fun log =>
    match last log (EmptyString, EmptyString, EmptyString, []) with
    | (_, v, _, _) => v
    end;
  fmt_quote := fun s => dq ++ s ++ dq
}.

Definition emptyDisk : Disk := mkDisk [] [].

(** The invocations of the end-to-end scenarios. *)
Definition scenarioBasic (changelog force : bool) : Basic.Invocation :=
  Basic.mkInvocation changelog false "2020 Oct 10" "0.1.0" force
    ["example.com/acme/tool"] "/home/u/go".

Definition scenarioExtended (changelog readme : bool) (license : string) (force : bool)
  : Extended.Invocation :=
  Extended.mkInvocation changelog false "2020 Oct 10" "0.1.0" readme license "u" force
    ["example.com/acme/tool"] "/home/u/go".

Definition toolDir : string := "/home/u/go/src/example.com/acme/tool".

(** A disk on which the destination directory holds [tool.go] already. *)
Definition diskWithSource : Disk :=
  mkDisk [ (toolDir ++ "/tool.go", RegularFile "package old"); (toolDir, Directory) ] [].

(** A disk on which [tool.go], [LICENSE] or [README.md] is a directory. *)
Definition diskWithDirectoryAt (file : string) : Disk :=
  mkDisk [ (toolDir ++ "/" ++ file, Directory); (toolDir, Directory) ] [].

(** A disk on which the given commands fail. *)
Definition diskFailing (cmds : list string) : Disk := mkDisk [] cmds.

(** ** Templates as literal text and placeholders

    The engine works on plain text.  To state what rendering does, a line is
    also seen as a literal text followed by fields, each a placeholder (or the
    value put in its place) with the literal text after it. *)

Inductive Token : Type := IMPORT | NAME | DATE | VERSION | USER.

Definition allTokens : list Token := [IMPORT; NAME; DATE; VERSION; USER].

(** The sentinel strings of the program. *)
Definition sentinel (t : Token) : string :=
  match t with
  | IMPORT => "__IMPORT__"
  | NAME => "__NAME__"
  | DATE => "__DATE__"
  | VERSION => "__VERSION__"
  | USER => "__USER__"
  end.

Definition Token_eqb (a b : Token) : bool :=
  match a, b with
  | IMPORT, IMPORT | NAME, NAME | DATE, DATE | VERSION, VERSION | USER, USER => true
  | _, _ => false
  end.

(** [sub] occurs somewhere in [s]. *)
Fixpoint contains (sub s : string) : bool :=
  match s with
  | EmptyString => hasPrefix sub s
  | String _ s' => hasPrefix sub s || contains sub s'
  end.

(** No sentinel occurs in [s]. *)
Definition noSentinel (s : string) : bool :=
  forallb (fun t => negb (contains (sentinel t) s)) allTokens.

(** A delimiter is a character that no sentinel is made of: any character
    other than the underscore and the capital letters. *)
Definition isDelimiter (c : ascii) : bool :=
  let n := nat_of_ascii c in
  negb (Nat.eqb n 95 || (Nat.leb 65 n && Nat.leb n 90)).

Definition startsDelim (s : string) : bool :=
  match s with
  | EmptyString => false
  | String c _ => isDelimiter c
  end.

Fixpoint endsDelim (s : string) : bool :=
  match s with
  | EmptyString => false
  | String c s' =>
      match s' with
      | EmptyString => isDelimiter c
      | String _ _ => endsDelim s'
      end
  end.

Fixpoint noDelim (s : string) : bool :=
  match s with
  | EmptyString => true
  | String c s' => negb (isDelimiter c) && noDelim s'
  end.

Inductive Field : Type :=
| Hole (t : Token)
| Filled (v : string).

Record Line : Type := mkLine { lead : string; fields : list (Field * string) }.

Definition fieldText (f : Field) : string :=
  match f with
  | Hole t => sentinel t
  | Filled v => v
  end.

Fixpoint fieldsText (fs : list (Field * string)) : string :=
  match fs with
  | [] => EmptyString
  | (f, l) :: rest => fieldText f ++ l ++ fieldsText rest
  end.

(** The text of a line, placeholders written as their sentinels. *)
Definition lineText (L : Line) : string := lead L ++ fieldsText (fields L).

(** A substitution context: the value of every token that is supplied. *)
Definition Context : Type := Token -> option string.

(** Rendering in the words of the specification: every placeholder whose token
    has a value is replaced by that value; the others stay. *)
Definition renderField (ctx : Context) (f : Field) : Field :=
  match f with
  | Hole t =>
      match ctx t with
      | Some v => Filled v
      | None => Hole t
      end
  | Filled v => Filled v
  end.

Definition renderLine (ctx : Context) (L : Line) : Line :=
  mkLine (lead L) (map (fun fl => (renderField ctx (fst fl), snd fl)) (fields L)).

Definition render (ctx : Context) (lines : list Line) : Template :=
  map (fun L => lineText (renderLine ctx L)) lines.

(** The contexts of the two variants of [insert]. *)
Definition basicContext (name date version : string) : Context :=
  fun t =>
    match t with
    | NAME => Some name
    | DATE => Some date
    | VERSION => Some version
    | IMPORT | USER => None
    end.

Definition extendedContext (path name date version user : string) : Context :=
  fun t =>
    match t with
    | IMPORT => Some path
    | NAME => Some name
    | DATE => Some date
    | VERSION => Some version
    | USER => Some user
    end.

(** The context of one token. *)
Definition single (t : Token) (v : string) : Context :=
  fun t' => if Token_eqb t t' then Some v else None.

(** A line is delimited when its literal texts hold no sentinel, the values
    already put in hold none either, and every field is separated from the
    next one, and from the text before it, by literal text that has a
    delimiter where it touches the field. *)
Definition okField (f : Field) : bool :=
  match f with
  | Hole _ => true
  | Filled v => noSentinel v
  end.

Fixpoint delimitedFields (fs : list (Field * string)) : bool :=
  match fs with
  | [] => true
  | (f, l) :: rest =>
      okField f && noSentinel l &&
      match rest with
      | [] => negb (nonEmpty l) || startsDelim l
      | _ :: _ => startsDelim l && endsDelim l && delimitedFields rest
      end
  end.

Definition delimited (L : Line) : bool :=
  noSentinel (lead L) &&
  match fields L with
  | [] => true
  | _ :: _ => negb (nonEmpty (lead L)) || endsDelim (lead L)
  end &&
  delimitedFields (fields L).

(** No placeholder of token [t] is left in a line. *)
Definition holeFree (t : Token) (L : Line) : bool :=
  forallb (fun fl => match fst fl with
                     | Hole t' => negb (Token_eqb t t')
                     | Filled _ => true
                     end) (fields L).

(** Reading a line of text: the sentinels found from the left become the
    placeholders.  [skip] counts the characters of a sentinel still to be
    passed over. *)
Fixpoint parseFrom (skip : nat) (s : string) : string * list (Field * string) :=
  match s with
  | EmptyString => (EmptyString, [])
  | String c s' =>
      match skip with
      | S k => parseFrom k s'
      | 0 =>
          match find (fun t => hasPrefix (sentinel t) s) allTokens with
          | Some t =>
              let (l, fs) := parseFrom (String.length (sentinel t) - 1) s' in
              (EmptyString, (Hole t, l) :: fs)
          | None =>
              let (l, fs) := parseFrom 0 s' in
              (String c l, fs)
          end
      end
  end.

Definition parseLine (s : string) : Line :=
  let (l, fs) := parseFrom 0 s in mkLine l fs.
(** ** Predicates used in the statements *)

Fixpoint slashFree (s : string) : bool :=
  match s with
  | EmptyString => true
  | String c s' => negb (Ascii.eqb c Separator) && slashFree s'
  end.

Definition keptElem (e : string) : Prop :=
  e <> EmptyString /\ e <> "." /\ slashFree e = true.


(** The length of the elements of a path, each one counted with the separator
    that ends it. *)
Fixpoint weight (l : list string) : nat :=
  match l with
  | [] => 0
  | e :: t => S (String.length e) + weight t
  end.

(** The elements of a relative path after cleaning. *)
Definition cleanElems (path : string) : list string :=
  fold_left (cleanStep false) (strings_Split Separator path) [].

(** A component of a module identifier: not empty and without separator. *)
Definition component (c : string) : Prop :=
  c <> EmptyString /\ slashFree c = true.

(** No external tool is run in a trace. *)
Definition noToolRun (tr : list Event) : Prop :=
  forall dir cmd arg out err, ~ In (Ran dir cmd arg out err) tr.

(** The shape of a run of the basic variant in which a tool is run: the
    directory is made, the source path checked and the source file written
    without error before the formatting tool runs; the run ends with code 5
    after printing the output when that tool fails, and the module tool runs
    next when it succeeds. *)
Definition toolRunShape {W : Type} (path name : string) (r : (unit + Stop) * State W)
  : Prop :=
  exists res data out1 err1,
    let src := filepath_Join [path; name ++ ".go"] in
    let before :=
      [ MadeDir path os_ModePerm None; Statted src res; Wrote src data mode0664 None;
        Ran path "goimports" ["-w"; name ++ ".go"] out1 err1 ] in
    (err1 <> None /\
     trace (snd r) = (before ++ [Printed out1])%list /\
     outcome r = Exited 5)
    \/
    (err1 = None /\
     exists out2 err2 text,
       trace (snd r)
       = (before ++ [Ran path "go" ["mod"; "init"] out2 err2; Printed text])%list /\
       (err2 <> None -> text = out2 /\ outcome r = Exited 6)).

(** What the check of an output path does when the path is a directory. *)
Definition conflictCode (force : bool) (isDirCode existsCode : nat) : nat :=
  if force then isDirCode else existsCode.

Definition conflictText (force : bool) (path : string) : string :=
  if force then "error: output file is a directory: " ++ path ++ nl
  else "error: file exists (use -f to overwrite): " ++ path ++ nl.

(** Every way [m] stops the run is a failure. *)
Definition stopsFail {W A : Type} (m : Run W A) : Prop :=
  forall s stop s', m s = (inr stop, s') -> stop <> Exited 0.

(** [m] always stops the run, and with a failure. *)
Definition alwaysFails {W A : Type} (m : Run W A) : Prop :=
  forall s, exists stop s', m s = (inr stop, s') /\ stop <> Exited 0.

(** No occurrence of [old] starts inside [s] when [s] is followed by [R]. *)
Definition noStartInside (old s R : string) : Prop :=
  forall s1 s2, s = s1 ++ s2 -> s2 <> EmptyString -> hasPrefix old (s2 ++ R) = false.

(** The fields of a line after rendering. *)
Definition fillFields (ctx : Context) (fs : list (Field * string)) : list (Field * string) :=
  map (fun fl => (renderField ctx (fst fl), snd fl)) fs.


(** [m] runs no external tool: it only adds events to the trace, and none of
    them is the run of a tool. *)
Definition quiet {W A : Type} (m : Run W A) : Prop :=
  forall s, exists evs,
    trace (snd (m s)) = (trace s ++ evs)%list /\ noToolRun evs.

(** The shape of a run of the extended variant in which a tool is run: as in
    the basic variant, and the steps after the module tool run no tool. *)
Definition toolRunShapeExtended {W : Type} (path name : string)
           (r : (unit + Stop) * State W) : Prop :=
  exists res data out1 err1,
    let src := filepath_Join [path; name ++ ".go"] in
    let before :=
      [ MadeDir path os_ModePerm None; Statted src res; Wrote src data mode0664 None;
        Ran path "goimports" ["-w"; name ++ ".go"] out1 err1 ] in
    (err1 <> None /\
     trace (snd r) = (before ++ [Printed out1])%list /\
     outcome r = Exited 5)
    \/
    (err1 = None /\
     exists out2 err2 rest,
       trace (snd r) = (before ++ Ran path "go" ["mod"; "init"] out2 err2 :: rest)%list /\
       noToolRun rest /\
       (err2 <> None -> rest = [Printed out2] /\ outcome r = Exited 6)).

(** ** Further predicates *)

(** A plain component: a component that is neither [.] nor [..]. *)
Definition plain (c : string) : Prop :=
  component c /\ c <> "." /\ c <> "..".

(** [s] holds no occurrence of the character [sep]. *)
Fixpoint sepFree (sep : ascii) (s : string) : bool :=
  match s with
  | EmptyString => true
  | String c s' => negb (Ascii.eqb c sep) && sepFree sep s'
  end.

(** The operation of the operating system behind an event: the call made,
    or the command run; a print is none. *)
Definition opName (e : Event) : list string :=
  match e with
  | Printed _ => []
  | MadeDir _ _ _ => ["mkdir"]
  | Statted _ _ => ["stat"]
  | Wrote _ _ _ _ => ["write"]
  | Ran _ cmd _ _ _ => [cmd]
  end.

Definition operations (tr : list Event) : list string := flat_map opName tr.

(** [m] performs the operations [ops] in this order: all of them when it
    returns, the first ones of them when it stops the run, and it never stops
    the run with exit code 0. *)
Definition ordered {W A : Type} (ops : list string) (m : Run W A) : Prop :=
  forall s, exists evs,
    trace (snd (m s)) = (trace s ++ evs)%list /\
    match fst (m s) with
    | inl _ => operations evs = ops
    | inr stop => stop <> Exited 0 /\ exists k, operations evs = firstn k ops
    end.

(** Every event that [m] adds to the trace satisfies [P]. *)
Definition confined {W A : Type} (P : Event -> Prop) (m : Run W A) : Prop :=
  forall s, exists evs,
    trace (snd (m s)) = (trace s ++ evs)%list /\ Forall P evs.

(** The events of a run that stays within the destination directory [path]
    of the module [name]: the directory made is [path], with [os.ModePerm];
    the paths checked and written are [name.go], [LICENSE] and [README.md]
    in [path], the files written with mode [0664]; the tools run in [path]. *)
Definition inDestination (path name : string) (e : Event) : Prop :=
  let files := [ filepath_Join [path; name ++ ".go"]; filepath_Join [path; "LICENSE"];
                 filepath_Join [path; "README.md"] ] in
  match e with
  | Printed _ => True
  | MadeDir p perm _ => p = path /\ perm = os_ModePerm
  | Statted p _ => In p files
  | Wrote p _ perm _ => In p files /\ perm = mode0664
  | Ran dir _ _ _ _ => dir = path
  end.

(** The operations of a whole generation in the basic variant. *)
Definition basicOperations : list string :=
  ["mkdir"; "stat"; "write"; "goimports"; "go"].

(** The last call to the operating system in a trace, prints left aside. *)
Fixpoint lastCall (tr : list Event) : option Event :=
  match tr with
  | [] => None
  | e :: rest =>
      match lastCall rest with
      | Some x => Some x
      | None =>
          match e with
          | Printed _ => None
          | _ => Some e
          end
      end
  end.

(** What the way a run stopped says of its last call, [force] being the
    force flag. *)
Definition cause (force : bool) (stop : Stop) (tr : list Event) : Prop :=
  match stop with
  | Exited 1 | OutOfFuel => lastCall tr = None
  | Exited 2 => exists p perm e, lastCall tr = Some (MadeDir p perm (Some e))
  | Exited 3 | Exited 9 =>
      force = true /\
      exists p err, lastCall tr = Some (Statted p (Some (mkFileInfo true), err))
  | Exited 7 | Exited 11 =>
      force = false /\
      exists p res, lastCall tr = Some (Statted p res) /\ os_IsNotExist (snd res) = false
  | Exited 4 | Exited 10 =>
      exists p data perm e, lastCall tr = Some (Wrote p data perm (Some e))
  | Exited 5 =>
      exists dir arg out e, lastCall tr = Some (Ran dir "goimports" arg out (Some e))
  | Exited 6 =>
      exists dir arg out e, lastCall tr = Some (Ran dir "go" arg out (Some e))
  | Exited 8 =>
      exists dir arg out, lastCall tr = Some (Ran dir "go" arg out None)
  | NilDereference =>
      exists p err, lastCall tr = Some (Statted p (None, err)) /\ os_IsNotExist err = false
  | Exited _ => False
  end.

(** [m] never stops the run with [bad]: whatever the state, it returns or
    stops the run in another way. *)
Definition avoids {W A : Type} (bad : Stop) (m : Run W A) : Prop :=
  forall s, fst (m s) <> inr bad.

(** What the basic variant may write: the source file, with the text of the
    template rendered with the short name, the date and the version. *)
Definition basicWrites (inv : Basic.Invocation) (path name : string) (e : Event) : Prop :=
  match e with
  | Wrote p data _ _ =>
      p = filepath_Join [path; name ++ ".go"] /\
      data = Template_String
               (Basic.insert Basic.template name (Basic.argMkDate inv)
                  (Basic.argMkVersion inv))
  | _ => True
  end.

(** The text that the extended variant makes of a template. *)
Definition extendedText (inv : Extended.Invocation) (name : string) (tmpl : Template)
  : string :=
  Template_String
    (Extended.insert tmpl (Extended.flag_Arg inv 0) name (Extended.argMkDate inv)
       (Extended.argMkVersion inv) (Extended.argUser inv)).

(** What the extended variant may write: the source file, the license file
    and the readme file, each with the text of its own template; the template
    of the license is the one that the map of licenses holds for the
    identifier given. *)
Definition extendedWrites (inv : Extended.Invocation) (path name : string) (e : Event)
  : Prop :=
  match e with
  | Wrote p data _ _ =>
      (p = filepath_Join [path; name ++ ".go"] /\
       data = extendedText inv name Extended.template) \/
      (p = filepath_Join [path; "LICENSE"] /\
       exists license,
         Extended.mapLookup Extended.licenseTemplate (Extended.argLicense inv)
         = Some license /\
         data = extendedText inv name license) \/
      (p = filepath_Join [path; "README.md"] /\
       data = extendedText inv name Extended.readme)
  | _ => True
  end.

(** Every write in [tr] comes right after a check of the same path that
    answered with a not-exist error; [prev] is the event before [tr]. *)
Fixpoint unforced (prev : option Event) (tr : list Event) : Prop :=
  match tr with
  | [] => True
  | e :: rest =>
      match e with
      | Wrote p _ _ _ =>
          match prev with
          | Some (Statted q res) => q = p /\ os_IsNotExist (snd res) = true
          | _ => False
          end
      | _ => True
      end /\ unforced (Some e) rest
  end.

(** [m] writes only where it has just found nothing. *)
Definition careful {W A : Type} (m : Run W A) : Prop :=
  forall s, exists evs,
    trace (snd (m s)) = (trace s ++ evs)%list /\ forall prev, unforced prev evs.

(** The call to the operating system behind an event, with what it is made
    on: the directory made, the path checked or written, the command run
    with its working directory; a print is none. *)
Definition callOf (e : Event) : list (string * string) :=
  match e with
  | Printed _ => []
  | MadeDir p _ _ => [("mkdir", p)]
  | Statted p _ => [("stat", p)]
  | Wrote p _ _ _ => [("write", p)]
  | Ran dir cmd _ _ _ => [(cmd, dir)]
  end.

Definition calls (tr : list Event) : list (string * string) := flat_map callOf tr.

(** The calls of a whole generation in the extended variant, for the
    destination [path] and the short name [name]. *)
Definition extendedCalls (path name : string) : list (string * string) :=
  [ ("mkdir", path);
    ("stat", filepath_Join [path; name ++ ".go"]);
    ("write", filepath_Join [path; name ++ ".go"]);
    ("goimports", path);
    ("go", path);
    ("stat", filepath_Join [path; "LICENSE"]);
    ("write", filepath_Join [path; "LICENSE"]);
    ("stat", filepath_Join [path; "README.md"]);
    ("write", filepath_Join [path; "README.md"]) ].

(** [m] makes the calls [cs] in this order: all of them when it returns, the
    first ones of them when it stops the run, and it never stops the run with
    exit code 0. *)
Definition sequenced {W A : Type} (cs : list (string * string)) (m : Run W A) : Prop :=
  forall s, exists evs,
    trace (snd (m s)) = (trace s ++ evs)%list /\
    match fst (m s) with
    | inl _ => calls evs = cs
    | inr stop => stop <> Exited 0 /\ exists k, calls evs = firstn k cs
    end.

(** What the way a run of the extended variant stopped says of its last
    call, for the destination [path] and the short name [name]: which call
    it was, on which of the three files, and what it answered. *)
Definition extendedCause (inv : Extended.Invocation) (path name : string)
           (stop : Stop) (tr : list Event) : Prop :=
  let src := filepath_Join [path; name ++ ".go"] in
  let others := [filepath_Join [path; "LICENSE"]; filepath_Join [path; "README.md"]] in
  let force := Extended.argOverwrite inv in
  match stop with
  | Exited 1 => Extended.flag_Args inv = [] /\ lastCall tr = None
  | Exited 2 => exists e, lastCall tr = Some (MadeDir path os_ModePerm (Some e))
  | Exited 3 =>
      force = true /\
      exists err, lastCall tr = Some (Statted src (Some (mkFileInfo true), err))
  | Exited 4 => exists data e, lastCall tr = Some (Wrote src data mode0664 (Some e))
  | Exited 5 =>
      exists out e,
        lastCall tr = Some (Ran path "goimports" ["-w"; name ++ ".go"] out (Some e))
  | Exited 6 =>
      exists out e, lastCall tr = Some (Ran path "go" ["mod"; "init"] out (Some e))
  | Exited 7 =>
      force = false /\
      exists res, lastCall tr = Some (Statted src res) /\ os_IsNotExist (snd res) = false
  | Exited 8 =>
      Extended.mapLookup Extended.licenseTemplate (Extended.argLicense inv) = None /\
      exists out, lastCall tr = Some (Ran path "go" ["mod"; "init"] out None)
  | Exited 9 =>
      force = true /\
      exists p err,
        lastCall tr = Some (Statted p (Some (mkFileInfo true), err)) /\ In p others
  | Exited 10 =>
      exists p data e, lastCall tr = Some (Wrote p data mode0664 (Some e)) /\ In p others
  | Exited 11 =>
      force = false /\
      exists p res,
        lastCall tr = Some (Statted p res) /\ os_IsNotExist (snd res) = false /\
        In p others
  | NilDereference =>
      exists p err,
        lastCall tr = Some (Statted p (None, err)) /\ os_IsNotExist err = false /\
        In p (src :: others)
  | Exited _ | OutOfFuel => False
  end.
(** * Properties *)

(** ** The library functions on the examples of their documentation *)

Example filepath_Clean_examples :
  map filepath_Clean
    [ EmptyString; "abc"; "abc/def"; "."; ".."; "../.."; "../../abc"; "/abc"; "/";
      "abc/"; "a/b/c/"; "./"; "../"; "../../"; "/abc/";
      "abc//def//ghi"; "//abc"; "///abc"; "//abc//"; "abc//";
      "abc/./def"; "/./abc/def"; "abc/.";
      "abc/def/ghi/../jkl"; "abc/def/../ghi/../jkl"; "abc/def/.."; "abc/def/../..";
      "/abc/def/../.."; "abc/def/../../.."; "/abc/def/../../..";
      "abc/def/../../../ghi/jkl/../../../mno"; "/../abc";
      "abc/./../def"; "abc//./../def"; "abc/../../././../def" ]
  = [ "."; "abc"; "abc/def"; "."; ".."; "../.."; "../../abc"; "/abc"; "/";
      "abc"; "a/b/c"; "."; ".."; "../.."; "/abc";
      "abc/def/ghi"; "/abc"; "/abc"; "/abc"; "abc";
      "abc/def"; "/abc/def"; "abc";
      "abc/def/jkl"; "abc/jkl"; "abc"; ".";
      "/"; ".."; "/";
      "../../mno"; "/abc";
      "def"; "def"; "../../def" ].
Proof. reflexivity. Qed.

Example filepath_Split_examples :
  map filepath_Split [ "static/myfile.css"; "myfile.css"; EmptyString; "/"; "a/b/"; "/a" ]
  = [ ("static/", "myfile.css"); (EmptyString, "myfile.css"); (EmptyString, EmptyString);
      ("/", EmptyString); ("a/b/", EmptyString); ("/", "a") ].
Proof. reflexivity. Qed.

Example filepath_Join_examples :
  map filepath_Join
    [ ["a"; "b"; "c"]; ["a"; "b/c"]; ["a/b"; "c"]; ["a/b"; "/c"]; ["a/b"; "../../../xyz"];
      [EmptyString; "a"]; [EmptyString; EmptyString]; ["/"; "a"]; ["a"; EmptyString] ]
  = [ "a/b/c"; "a/b/c"; "a/b/c"; "a/b/c"; "../xyz"; "a"; EmptyString; "/a"; "a" ].
Proof. reflexivity. Qed.

Example filepath_SplitList_examples :
  map filepath_SplitList [ EmptyString; "/a"; "/a:/b"; ":/b" ]
  = [ []; ["/a"]; ["/a"; "/b"]; [EmptyString; "/b"] ].
Proof. reflexivity. Qed.

Example strings_ReplaceAll_examples :
  strings_ReplaceAll "oink oink oink" "k" "ky" = "oinky oinky oinky" /\
  strings_ReplaceAll "oink oink oink" "oink" "moo" = "moo moo moo" /\
  strings_ReplaceAll "aaa" "aa" "b" = "ba" /\
  strings_ReplaceAll "abc" EmptyString "-" = "-a-b-c-".
Proof. repeat split. Qed.

Example splitPath_examples :
  splitPath 22 "example.com/acme/tool" = Some ["example.com"; "acme"; "tool"] /\
  splitPath 22 "a//b/" = Some ["a"; "b"] /\
  splitPath 22 "a/../b" = Some ["."; "b"] /\
  splitPath 22 EmptyString = Some [].
Proof. repeat split. Qed.

(** ** Strings and lists of path elements *)

Lemma nonEmpty_false (s : string) : nonEmpty s = false <-> s = EmptyString.
Proof. destruct s; simpl; split; congruence. Qed.

Lemma nonEmpty_true (s : string) : nonEmpty s = true <-> s <> EmptyString.
Proof. destruct s; simpl; split; congruence. Qed.

Lemma append_empty_r (s : string) : s ++ EmptyString = s.
Proof. induction s; simpl; congruence. Qed.

Lemma append_assoc (a b c : string) : (a ++ b) ++ c = a ++ (b ++ c).
Proof. induction a; simpl; congruence. Qed.

Lemma length_append (a b : string) :
  String.length (a ++ b) = String.length a + String.length b.
Proof. induction a; simpl; congruence. Qed.

Lemma strings_Split_not_nil (sep : ascii) (s : string) : strings_Split sep s <> [].
Proof.
  destruct s as [|c s]; simpl; [discriminate|].
  destruct (Ascii.eqb c sep); [discriminate|].
  destruct (strings_Split sep s); discriminate.
Qed.

Lemma strings_Split_slashFree (s : string) :
  slashFree s = true -> strings_Split Separator s = [s].
Proof.
  induction s as [|c s IH]; simpl; [reflexivity|].
  intros H. apply andb_prop in H. destruct H as [Hc Hs].
  apply negb_true_iff in Hc. rewrite Hc, (IH Hs). reflexivity.
Qed.

Lemma strings_Split_app (sep : ascii) (a b : string) :
  strings_Split sep (a ++ String sep b) = (strings_Split sep a ++ strings_Split sep b)%list.
Proof.
  induction a as [|c a IH]; simpl.
  - rewrite Ascii.eqb_refl. reflexivity.
  - destruct (Ascii.eqb c sep); [rewrite IH; reflexivity|].
    rewrite IH.
    destruct (strings_Split sep a) as [|h t] eqn:E; [|reflexivity].
    exfalso. exact (strings_Split_not_nil _ _ E).
Qed.

Lemma strings_Split_elems_slashFree (s : string) :
  Forall (fun e => slashFree e = true) (strings_Split Separator s).
Proof.
  induction s as [|c s IH]; simpl.
  - constructor; [reflexivity|constructor].
  - destruct (Ascii.eqb c Separator) eqn:Ec.
    + constructor; [reflexivity|exact IH].
    + destruct (strings_Split Separator s) as [|h t].
      * constructor; [simpl; rewrite Ec; reflexivity|constructor].
      * inversion IH; subst.
        constructor; [simpl; rewrite Ec; simpl; assumption|assumption].
Qed.

Lemma strings_Join_cons (e : string) (rest : list string) :
  rest <> [] -> strings_Join (e :: rest) "/" = e ++ "/" ++ strings_Join rest "/".
Proof. destruct rest; [congruence|reflexivity]. Qed.

Lemma strings_Split_Join (l : list string) :
  l <> [] -> Forall (fun e => slashFree e = true) l ->
  strings_Split Separator (strings_Join l "/") = l.
Proof.
  induction l as [|e rest IH]; [congruence|].
  intros _ H. inversion H as [|? ? He Hrest]; subst.
  destruct rest as [|e' rest'].
  - simpl. apply strings_Split_slashFree. exact He.
  - rewrite strings_Join_cons by discriminate.
    change (e ++ "/" ++ strings_Join (e' :: rest') "/")
      with (e ++ String Separator (strings_Join (e' :: rest') "/")).
    rewrite strings_Split_app, (strings_Split_slashFree e He), IH; auto.
    discriminate.
Qed.

(** [filepath_Split] in terms of the elements of the path. *)
Lemma filepath_Split_spec (path : string) :
  let (d, f) := filepath_Split path in
  path = d ++ f /\ slashFree f = true /\
  (d = EmptyString \/ exists x, d = x ++ "/").
Proof.
  induction path as [|c rest IH]; simpl.
  - repeat split. left; reflexivity.
  - destruct (filepath_Split rest) as [d f]. destruct IH as (E & Hf & Hd).
    destruct d as [|c' d'].
    + destruct (Ascii.eqb c Separator) eqn:Ec.
      * apply Ascii.eqb_eq in Ec. subst c. simpl in E. subst rest.
        repeat split; auto. right. exists EmptyString. reflexivity.
      * simpl in E. subst rest. repeat split.
        -- simpl. rewrite Ec. simpl. exact Hf.
        -- left; reflexivity.
    + subst rest. repeat split; auto.
      right. destruct Hd as [Hd|[x Hx]]; [discriminate|].
      exists (String c x). simpl. rewrite Hx. reflexivity.
Qed.

Lemma strings_Split_dir (x : string) :
  strings_Split Separator (x ++ "/") = (strings_Split Separator x ++ [EmptyString])%list.
Proof. exact (strings_Split_app Separator x EmptyString). Qed.

Lemma strings_Split_dir_file (x f : string) :
  slashFree f = true ->
  strings_Split Separator (x ++ "/" ++ f) = (strings_Split Separator x ++ [f])%list.
Proof.
  intros Hf. change (x ++ "/" ++ f) with (x ++ String Separator f).
  rewrite strings_Split_app, (strings_Split_slashFree f Hf). reflexivity.
Qed.

(** ** The elements kept by [filepath_Clean] *)

Lemma cleanStep_kept (r : bool) (st : list string) (e : string) :
  slashFree e = true -> Forall keptElem st -> Forall keptElem (cleanStep r st e).
Proof.
  intros He Hst. unfold cleanStep.
  destruct (String.eqb_spec e EmptyString) as [|Hn]; [assumption|].
  destruct (String.eqb_spec e ".") as [|Hd]; [assumption|].
  assert (Hk : keptElem e) by (repeat split; assumption).
  destruct (String.eqb_spec e "..") as [Hdd|Hdd].
  - destruct st as [|top st'].
    + destruct r; constructor; auto.
    + destruct (String.eqb top "..").
      * constructor; assumption.
      * inversion Hst; assumption.
  - constructor; assumption.
Qed.

Lemma cleanFold_kept (r : bool) (es st : list string) :
  Forall (fun e => slashFree e = true) es -> Forall keptElem st ->
  Forall keptElem (fold_left (cleanStep r) es st).
Proof.
  revert st. induction es as [|e es IH]; intros st Hes Hst; simpl; [assumption|].
  inversion Hes; subst. apply IH; [assumption|]. apply cleanStep_kept; assumption.
Qed.

Lemma cleanStep_push (r : bool) (st : list string) (e : string) :
  e <> EmptyString -> e <> "." -> e <> ".." -> cleanStep r st e = e :: st.
Proof.
  intros Hn Hd Hdd. unfold cleanStep.
  destruct (String.eqb_spec e EmptyString); [contradiction|].
  destruct (String.eqb_spec e "."); [contradiction|].
  destruct (String.eqb_spec e ".."); [contradiction|reflexivity].
Qed.

Lemma cleanStep_dotdot (r : bool) (st : list string) :
  cleanStep r st ".." =
  match st with
  | top :: st' => if String.eqb top ".." then ".." :: st else st'
  | [] => if r then [] else [".."]
  end.
Proof. reflexivity. Qed.

(** Cleaning a relative path first and continuing from any stack gives what
    the elements themselves give from that stack. *)
Lemma cleanStep_absorb (r : bool) (st N : list string) (e : string) :
  Forall keptElem N ->
  fold_left (cleanStep r) (rev (cleanStep false N e)) st
  = cleanStep r (fold_left (cleanStep r) (rev N) st) e.
Proof.
  intros HN.
  destruct (String.eqb_spec e EmptyString) as [->|Hn]; [reflexivity|].
  destruct (String.eqb_spec e ".") as [->|Hd]; [reflexivity|].
  destruct (String.eqb_spec e "..") as [->|Hdd].
  - rewrite (cleanStep_dotdot false N).
    destruct N as [|top N'].
    + reflexivity.
    + destruct (String.eqb_spec top "..") as [->|Ht].
      * change (rev (".." :: ".." :: N')) with (rev (".." :: N') ++ [".."])%list.
        rewrite fold_left_app. reflexivity.
      * simpl rev. rewrite fold_left_app. simpl fold_left.
        inversion HN as [|? ? (Hn1 & Hd1 & _) ?]; subst.
        rewrite (cleanStep_push r _ top) by assumption.
        rewrite cleanStep_dotdot.
        destruct (String.eqb_spec top ".."); [contradiction|reflexivity].
  - rewrite (cleanStep_push false N e) by assumption.
    simpl rev. rewrite fold_left_app. reflexivity.
Qed.

Lemma cleanFold_absorb_gen (r : bool) (es st N : list string) :
  Forall (fun e => slashFree e = true) es -> Forall keptElem N ->
  fold_left (cleanStep r) (rev (fold_left (cleanStep false) es N)) st
  = fold_left (cleanStep r) es (fold_left (cleanStep r) (rev N) st).
Proof.
  revert N. induction es as [|e es IH]; intros N Hes HN; simpl; [reflexivity|].
  inversion Hes; subst.
  rewrite IH by (try apply cleanStep_kept; assumption).
  rewrite cleanStep_absorb by assumption. reflexivity.
Qed.

Lemma cleanFold_absorb (r : bool) (es st : list string) :
  Forall (fun e => slashFree e = true) es ->
  fold_left (cleanStep r) (rev (fold_left (cleanStep false) es [])) st
  = fold_left (cleanStep r) es st.
Proof. intros Hes. apply (cleanFold_absorb_gen r es st []); auto. Qed.

(** ** Lengths *)

Lemma weight_app (l1 l2 : list string) : weight (l1 ++ l2) = weight l1 + weight l2.
Proof. induction l1 as [|e l1 IH]; simpl; [reflexivity|]. rewrite IH. lia. Qed.

Lemma weight_rev (l : list string) : weight (rev l) = weight l.
Proof.
  induction l as [|e l IH]; simpl; [reflexivity|].
  rewrite weight_app, IH. simpl. lia.
Qed.

Lemma weight_strings_Join (l : list string) :
  l <> [] -> S (String.length (strings_Join l "/")) = weight l.
Proof.
  induction l as [|e rest IH]; [congruence|]. intros _.
  destruct rest as [|e' rest'].
  - simpl. lia.
  - rewrite strings_Join_cons by discriminate.
    rewrite !length_append. change (String.length "/") with 1.
    change (weight (e :: e' :: rest')) with (S (String.length e) + weight (e' :: rest')).
    rewrite <- IH by discriminate. lia.
Qed.

Lemma weight_strings_Split (s : string) :
  weight (strings_Split Separator s) = S (String.length s).
Proof.
  induction s as [|c s IH]; simpl; [reflexivity|].
  destruct (Ascii.eqb c Separator).
  - simpl. rewrite IH. reflexivity.
  - destruct (strings_Split Separator s) as [|h t]; simpl in *; lia.
Qed.

Lemma weight_cleanStep (r : bool) (st : list string) (e : string) :
  weight (cleanStep r st e) <= weight st + S (String.length e).
Proof.
  unfold cleanStep.
  destruct (String.eqb e EmptyString); [lia|].
  destruct (String.eqb e "."); [lia|].
  destruct (String.eqb e "..").
  - destruct st as [|top st'].
    + destruct r; simpl; lia.
    + destruct (String.eqb top ".."); simpl; lia.
  - simpl. lia.
Qed.

Lemma weight_cleanFold (r : bool) (es st : list string) :
  weight (fold_left (cleanStep r) es st) <= weight st + weight es.
Proof.
  revert st. induction es as [|e es IH]; intros st; simpl; [lia|].
  specialize (IH (cleanStep r st e)). pose proof (weight_cleanStep r st e). lia.
Qed.

(** ** [filepath_Clean] on relative paths *)

Lemma isRooted_append (a b : string) :
  a <> EmptyString -> isRooted (a ++ b) = isRooted a.
Proof. destruct a; [congruence|reflexivity]. Qed.

Lemma strings_Join_head (e : string) (t : list string) :
  exists s, strings_Join (e :: t) "/" = e ++ s.
Proof.
  destruct t.
  - exists EmptyString. simpl. symmetry. apply append_empty_r.
  - eexists. rewrite strings_Join_cons by discriminate. reflexivity.
Qed.

Lemma keptElem_not_rooted (e : string) (s : string) :
  keptElem e -> isRooted (e ++ s) = false /\ nonEmpty (e ++ s) = true.
Proof.
  intros (Hn & _ & Hs). destruct e as [|c e]; [congruence|].
  simpl in *. apply andb_prop in Hs. destruct Hs as [Hc _].
  apply negb_true_iff in Hc. auto.
Qed.

Lemma filepath_Clean_relative (p : string) :
  p <> EmptyString -> isRooted p = false ->
  filepath_Clean p =
  match cleanElems p with
  | [] => "."
  | _ :: _ => strings_Join (rev (cleanElems p)) "/"
  end.
Proof.
  intros Hp Hr. unfold filepath_Clean, cleanElems.
  destruct p as [|c p]; [congruence|]. rewrite Hr.
  set (st := fold_left (cleanStep false) (strings_Split Separator (String c p)) []).
  assert (Hk : Forall keptElem (rev st)).
  { apply Forall_rev. apply cleanFold_kept; [apply strings_Split_elems_slashFree|constructor]. }
  destruct st as [|top st'] eqn:E; [reflexivity|].
  destruct (rev (top :: st')) as [|e t] eqn:Er.
  - apply (f_equal (@length string)) in Er. rewrite length_rev in Er. discriminate.
  - inversion Hk; subst. destruct (strings_Join_head e t) as [s ->].
    destruct (keptElem_not_rooted e s) as [_ ->]; auto.
Qed.

Lemma filepath_Clean_relative_elems (p : string) :
  p <> EmptyString -> isRooted p = false ->
  forall (r : bool) (st : list string),
  fold_left (cleanStep r) (strings_Split Separator (filepath_Clean p)) st
  = fold_left (cleanStep r) (strings_Split Separator p) st.
Proof.
  intros Hp Hr r st. rewrite filepath_Clean_relative by assumption.
  pose proof (cleanFold_absorb r (strings_Split Separator p) st
                (strings_Split_elems_slashFree p)) as Hab.
  assert (Hk : Forall keptElem (cleanElems p)).
  { apply cleanFold_kept; [apply strings_Split_elems_slashFree|constructor]. }
  fold (cleanElems p) in Hab.
  destruct (cleanElems p) as [|top st'] eqn:E.
  - simpl in Hab. rewrite <- Hab. reflexivity.
  - rewrite strings_Split_Join; [exact Hab| |].
    + intros Hnil. apply (f_equal (@length string)) in Hnil.
      rewrite length_rev in Hnil. discriminate.
    + apply Forall_rev. eapply Forall_impl; [|exact Hk]. intros a (_ & _ & Ha). exact Ha.
Qed.

Lemma filepath_Clean_relative_shape (p : string) :
  p <> EmptyString -> isRooted p = false ->
  isRooted (filepath_Clean p) = false /\
  String.length (filepath_Clean p) <= Nat.max 1 (weight (cleanElems p) - 1).
Proof.
  intros Hp Hr. rewrite filepath_Clean_relative by assumption.
  assert (Hk : Forall keptElem (rev (cleanElems p))).
  { apply Forall_rev. apply cleanFold_kept; [apply strings_Split_elems_slashFree|constructor]. }
  destruct (cleanElems p) as [|top st'] eqn:E.
  - split; [reflexivity|simpl; lia].
  - assert (Hne : rev (top :: st') <> []).
    { intros Hnil. apply (f_equal (@length string)) in Hnil.
      rewrite length_rev in Hnil. discriminate. }
    pose proof (weight_strings_Join _ Hne) as Hw. rewrite weight_rev in Hw.
    split; [|lia].
    destruct (rev (top :: st')) as [|e t]; [congruence|].
    inversion Hk; subst. destruct (strings_Join_head e t) as [s ->].
    apply keptElem_not_rooted. assumption.
Qed.

(** The directory part of a relative path is cleaned into a shorter relative
    path: this is what makes the loop of [splitPath] end on relative paths. *)
Lemma filepath_Clean_dir (x : string) :
  isRooted (x ++ "/") = false ->
  isRooted (filepath_Clean (x ++ "/")) = false /\
  String.length (filepath_Clean (x ++ "/")) < String.length (x ++ "/") /\
  cleanElems (filepath_Clean (x ++ "/")) = cleanElems x.
Proof.
  intros Hr.
  assert (Hx : x <> EmptyString) by (intros ->; discriminate).
  assert (Hp : x ++ "/" <> EmptyString) by (destruct x; discriminate).
  destruct (filepath_Clean_relative_shape _ Hp Hr) as [Hr' Hlen].
  assert (Hel : cleanElems (x ++ "/") = cleanElems x).
  { unfold cleanElems. rewrite strings_Split_dir, fold_left_app. reflexivity. }
  split; [exact Hr'|]. split.
  - rewrite Hel in Hlen. unfold cleanElems in Hlen.
    pose proof (weight_cleanFold false (strings_Split Separator x) []) as Hw.
    rewrite weight_strings_Split in Hw. simpl in Hw.
    rewrite length_append. change (String.length "/") with 1.
    destruct x; [congruence|]. simpl String.length in *. lia.
  - unfold cleanElems at 1. rewrite filepath_Clean_relative_elems by assumption.
    exact Hel.
Qed.

(** ** The reversal loop of [splitPath] *)

Lemma firstn_length_app {A : Type} (l x : list A) : firstn (length l) (l ++ x) = l.
Proof. induction l; simpl; congruence. Qed.

Lemma skipn_length_app {A : Type} (l x : list A) : skipn (length l) (l ++ x) = x.
Proof. induction l; simpl; congruence. Qed.

Lemma nth_length_app {A : Type} (l x : list A) (a d : A) :
  nth (length l) (l ++ a :: x) d = a.
Proof. induction l; simpl; congruence. Qed.

Lemma swapLoop_spec (count : nat) :
  forall front mid back : list string,
  count = Nat.div2 (length mid) -> length front = length back ->
  swapLoop count (length front) (front ++ mid ++ back) = (front ++ rev mid ++ back)%list.
Proof.
  induction count as [|c IH]; intros front mid back Hc Hlen.
  - simpl. destruct mid as [|a [|b mid']]; try reflexivity. simpl in Hc. discriminate.
  - destruct mid as [|a mid1]; [discriminate|].
    destruct (exists_last (l := mid1)) as (mid' & b & ->).
    { intros ->. discriminate. }
    assert (Hc' : c = Nat.div2 (length mid')).
    { simpl in Hc. rewrite length_app in Hc. simpl in Hc.
      replace (length mid' + 1) with (S (length mid')) in Hc by lia.
      simpl in Hc. congruence. }
    cbn [swapLoop].
    set (part := (front ++ (a :: mid' ++ [b]) ++ back)%list).
    assert (Hn : length part - length front - 1 = length (front ++ a :: mid')).
    { unfold part. rewrite !length_app. simpl. rewrite !length_app. simpl. lia. }
    rewrite Hn.
    assert (Ha : nth (length front) part EmptyString = a).
    { unfold part. simpl. apply nth_length_app. }
    assert (Hb : nth (length (front ++ a :: mid')) part EmptyString = b).
    { unfold part.
      replace (front ++ (a :: mid' ++ [b]) ++ back)%list
        with ((front ++ a :: mid') ++ b :: back)%list
        by (repeat (rewrite <- app_assoc; simpl); reflexivity).
      apply nth_length_app. }
    rewrite Ha, Hb.
    assert (H1 : (firstn (length front) part ++ b :: skipn (S (length front)) part)%list
                 = ((front ++ b :: mid') ++ b :: back)%list).
    { unfold part. rewrite firstn_length_app.
      change (S (length front)) with (1 + length front).
      rewrite <- skipn_skipn, skipn_length_app. simpl.
      repeat (rewrite <- app_assoc; simpl). reflexivity. }
    rewrite H1.
    replace (length (front ++ a :: mid')) with (length (front ++ b :: mid'))
      by (rewrite !length_app; reflexivity).
    rewrite firstn_length_app.
    change (S (length (front ++ b :: mid'))) with (1 + length (front ++ b :: mid')).
    rewrite <- skipn_skipn, skipn_length_app. simpl skipn.
    replace (S (length front)) with (length (front ++ [b]))
      by (rewrite length_app; simpl; lia).
    replace ((front ++ b :: mid') ++ a :: back)%list
      with ((front ++ [b]) ++ mid' ++ a :: back)%list
      by (repeat (rewrite <- app_assoc; simpl); reflexivity).
    rewrite IH; [|assumption|rewrite length_app; simpl; lia].
    simpl rev. rewrite rev_app_distr. simpl.
    repeat (rewrite <- app_assoc; simpl). reflexivity.
Qed.

Lemma reverseInPlace_rev (part : list string) : reverseInPlace part = rev part.
Proof.
  unfold reverseInPlace.
  pose proof (swapLoop_spec (Nat.div2 (length part)) [] part [] eq_refl eq_refl) as H.
  simpl in H. rewrite !app_nil_r in H. exact H.
Qed.

(** ** The loop of [splitPath] on rooted paths *)

Lemma filepath_Split_rooted (path : string) :
  isRooted path = true -> isRooted (fst (filepath_Split path)) = true.
Proof.
  destruct path as [|c rest]; [discriminate|]. simpl. intros Hc.
  destruct (filepath_Split rest) as [d f]. destruct d; [rewrite Hc|]; simpl; exact Hc.
Qed.

Lemma filepath_Clean_rooted (p : string) :
  isRooted p = true -> isRooted (filepath_Clean p) = true.
Proof.
  intros Hr. destruct p as [|c p]; [discriminate|].
  unfold filepath_Clean. rewrite Hr. reflexivity.
Qed.

Lemma splitLoop_rooted (fuel : nat) :
  forall (path : string) (part : list string),
  isRooted path = true -> splitLoop fuel path part = None.
Proof.
  induction fuel as [|fuel IH]; intros path part Hr.
  - destruct path; [discriminate|reflexivity].
  - destruct path as [|c rest]; [discriminate|].
    cbn [splitLoop].
    pose proof (filepath_Split_rooted _ Hr) as Hd.
    destruct (filepath_Split (String c rest)) as [d f]. simpl in Hd.
    destruct d as [|c' d']; [discriminate|].
    cbn [nonEmpty]. apply IH. apply filepath_Clean_rooted. exact Hd.
Qed.

Lemma splitPath_rooted (path : string) :
  isRooted path = true -> forall fuel, splitPath fuel path = None.
Proof. intros Hr fuel. unfold splitPath. rewrite splitLoop_rooted by assumption. reflexivity. Qed.

(** ** The loop of [splitPath] on relative paths *)

Lemma splitLoop_relative (fuel : nat) :
  forall (path : string) (part : list string),
  isRooted path = false -> String.length path < fuel ->
  exists fs,
    splitLoop fuel path part = Some (part ++ fs)%list /\
    Forall component fs /\
    fold_left (cleanStep false) (rev fs) [] = cleanElems path /\
    (nonEmpty (snd (filepath_Split path)) = true ->
     hd_error fs = Some (snd (filepath_Split path))).
Proof.
  induction fuel as [|fuel IH]; intros path part Hr Hlen; [lia|].
  destruct path as [|c rest].
  - exists []. simpl. rewrite app_nil_r. repeat split; auto. discriminate.
  - cbn [splitLoop].
    pose proof (filepath_Split_spec (String c rest)) as Hs.
    destruct (filepath_Split (String c rest)) as [d f].
    destruct Hs as (E & Hf & Hd). cbn [snd].
    destruct d as [|c' d'].
    + (* no separator left: the path is its own last element *)
      simpl in E. subst f. cbn [nonEmpty].
      exists [String c rest]. repeat split.
      * constructor; [split; [discriminate|exact Hf]|constructor].
      * unfold cleanElems. rewrite strings_Split_slashFree by exact Hf. reflexivity.
    + destruct Hd as [Hd|[x Hx]]; [discriminate|].
      cbn [nonEmpty]. rewrite Hx in *.
      assert (Hrd : isRooted (x ++ "/") = false).
      { rewrite E in Hr. rewrite isRooted_append in Hr; [exact Hr|].
        destruct x; discriminate. }
      destruct (filepath_Clean_dir x Hrd) as (Hr' & Hshort & Hel).
      assert (Hfuel : String.length (filepath_Clean (x ++ "/")) < fuel).
      { rewrite E in Hlen. rewrite length_append in Hlen. lia. }
      assert (Htarget : cleanElems (String c rest) = cleanStep false (cleanElems x) f).
      { rewrite E. unfold cleanElems. rewrite append_assoc.
        rewrite strings_Split_dir_file by exact Hf.
        rewrite fold_left_app. reflexivity. }
      destruct f as [|cf f'].
      * cbn [nonEmpty].
        destruct (IH _ part Hr' Hfuel) as (fs & Hrun & Hcomp & Hfold & _).
        exists fs. repeat split; try assumption.
        -- rewrite Hfold, Hel, Htarget. reflexivity.
        -- discriminate.
      * cbn [nonEmpty].
        destruct (IH _ (part ++ [String cf f'])%list Hr' Hfuel)
          as (fs & Hrun & Hcomp & Hfold & _).
        exists (String cf f' :: fs). repeat split.
        -- rewrite Hrun, <- app_assoc. reflexivity.
        -- constructor; [split; [discriminate|exact Hf]|exact Hcomp].
        -- simpl rev. rewrite fold_left_app, Hfold, Hel, Htarget. reflexivity.
Qed.

Lemma splitPath_relative (path : string) (fuel : nat) :
  isRooted path = false -> String.length path < fuel ->
  exists part,
    splitPath fuel path = Some part /\
    Forall component part /\
    fold_left (cleanStep false) part [] = cleanElems path /\
    (nonEmpty (snd (filepath_Split path)) = true ->
     part <> [] /\ last part EmptyString = snd (filepath_Split path)).
Proof.
  intros Hr Hlen.
  destruct (splitLoop_relative fuel path [] Hr Hlen) as (fs & Hrun & Hcomp & Hfold & Hhd).
  exists (rev fs). unfold splitPath. rewrite Hrun. simpl.
  rewrite reverseInPlace_rev. repeat split.
  - apply Forall_rev. exact Hcomp.
  - exact Hfold.
  - specialize (Hhd H). destruct fs; [discriminate|]. simpl.
    intros Hnil. apply app_eq_nil in Hnil. destruct Hnil; discriminate.
  - specialize (Hhd H). destruct fs as [|f0 fs']; [discriminate|].
    simpl in Hhd. injection Hhd as <-. simpl. apply last_last.
Qed.

(** ** The path resolver *)

Lemma filepath_Split_last (path : string) :
  snd (filepath_Split path) = last (strings_Split Separator path) EmptyString.
Proof.
  pose proof (filepath_Split_spec path) as Hs.
  destruct (filepath_Split path) as [d f]. destruct Hs as (E & Hf & [->|[x ->]]); simpl.
  - simpl in E. subst path. rewrite strings_Split_slashFree by exact Hf. reflexivity.
  - subst path. rewrite append_assoc, strings_Split_dir_file by exact Hf.
    rewrite last_last. reflexivity.
Qed.

Lemma strings_Join_components (l : list string) :
  l <> [] -> Forall component l ->
  strings_Join l "/" <> EmptyString /\
  isRooted (strings_Join l "/") = false /\
  strings_Split Separator (strings_Join l "/") = l.
Proof.
  intros Hne Hall.
  assert (Hsf : Forall (fun e => slashFree e = true) l).
  { eapply Forall_impl; [|exact Hall]. intros a [_ Ha]. exact Ha. }
  split; [|split].
  - destruct l as [|e t]; [congruence|]. inversion Hall as [|? ? [Hn Hs] ?]; subst.
    destruct (strings_Join_head e t) as [s ->]. destruct e; [congruence|discriminate].
  - destruct l as [|e t]; [congruence|]. inversion Hall as [|? ? [Hn Hs] ?]; subst.
    destruct (strings_Join_head e t) as [s ->]. destruct e as [|c e]; [congruence|].
    simpl in *. apply andb_prop in Hs. destruct Hs as [Hc _].
    apply negb_true_iff in Hc. exact Hc.
  - apply strings_Split_Join; assumption.
Qed.

Lemma filepath_Join_components (l : list string) :
  l <> [] -> Forall component l ->
  filepath_Join l = filepath_Clean (strings_Join l "/").
Proof.
  intros Hne Hall. destruct l as [|e t]; [congruence|].
  inversion Hall as [|? ? [Hn _] ?]; subst.
  unfold filepath_Join. apply nonEmpty_true in Hn. rewrite Hn. reflexivity.
Qed.

Lemma filepath_Clean_same_elems (p q : string) :
  p <> EmptyString -> isRooted p = false ->
  q <> EmptyString -> isRooted q = false ->
  cleanElems p = cleanElems q -> filepath_Clean p = filepath_Clean q.
Proof.
  intros Hp Hrp Hq Hrq E.
  rewrite (filepath_Clean_relative p), (filepath_Clean_relative q), E by assumption.
  reflexivity.
Qed.

(** Cleaning the relative end of a path beforehand changes nothing. *)
Lemma filepath_Clean_compose (a p : string) :
  p <> EmptyString -> isRooted p = false ->
  filepath_Clean (a ++ "/" ++ filepath_Clean p) = filepath_Clean (a ++ "/" ++ p).
Proof.
  intros Hp Hr.
  assert (Hshape : forall x, exists c s, a ++ "/" ++ x = String c s /\
                                   isRooted (a ++ "/" ++ x) = isRooted (a ++ "/")).
  { intros x. destruct a as [|c a']; simpl; eauto. }
  destruct (Hshape (filepath_Clean p)) as (c1 & s1 & E1 & R1).
  destruct (Hshape p) as (c2 & s2 & E2 & R2).
  unfold filepath_Clean at 1 3.
  rewrite E1, E2, <- E1, <- E2, R1, R2.
  change (a ++ "/" ++ filepath_Clean p) with (a ++ String Separator (filepath_Clean p)).
  change (a ++ "/" ++ p) with (a ++ String Separator p).
  rewrite !strings_Split_app, !fold_left_app.
  rewrite filepath_Clean_relative_elems by assumption. reflexivity.
Qed.

Lemma filepath_SplitList_hd (GOPATH : string) :
  GOPATH <> EmptyString ->
  exists g0 rest, filepath_SplitList GOPATH = g0 :: rest.
Proof.
  intros Hne. destruct GOPATH as [|c s]; [congruence|].
  unfold filepath_SplitList.
  destruct (strings_Split ListSeparator (String c s)) as [|g0 rest] eqn:E; eauto.
  exfalso. exact (strings_Split_not_nil _ _ E).
Qed.

Lemma filepath_Join_base (g0 x y : string) :
  y <> EmptyString ->
  filepath_Join [g0; x; y] =
  if nonEmpty g0 then filepath_Clean (g0 ++ "/" ++ x ++ "/" ++ y)
  else if nonEmpty x then filepath_Clean (x ++ "/" ++ y)
  else filepath_Clean y.
Proof.
  intros Hy. apply nonEmpty_true in Hy. simpl. rewrite Hy. reflexivity.
Qed.

Lemma filepath_Clean_nonEmpty (p : string) : filepath_Clean p <> EmptyString.
Proof.
  unfold filepath_Clean. destruct p as [|c p]; [discriminate|].
  destruct (isRooted (String c p)); [discriminate|].
  match goal with |- context [nonEmpty ?b] => destruct (nonEmpty b) eqn:E end.
  - apply nonEmpty_true in E. exact E.
  - discriminate.
Qed.

Lemma packagePath_relative (GOPATH path : string) (fuel : nat) :
  isRooted path = false -> String.length path < fuel ->
  exists part,
    splitPath fuel path = Some part /\
    packagePath fuel GOPATH path =
    Some (match filepath_SplitList GOPATH with
          | g0 :: _ => filepath_Join [g0; "src"; filepath_Join part]
          | [] => EmptyString
          end,
          match part with [] => EmptyString | _ :: _ => last part EmptyString end).
Proof.
  intros Hr Hlen.
  destruct (splitPath_relative path fuel Hr Hlen) as (part & Hrun & _).
  exists part. split; [exact Hrun|]. unfold packagePath. rewrite Hrun. reflexivity.
Qed.

(** C3 (as amended).  With an empty [GOPATH] the resolver returns on every
    identifier that is not rooted, and the destination path it returns is the
    empty string: the identifier's components are not part of it.  The short
    name is still returned: it is the last of the components that
    [splitPath] returns, the same name as with any other value of [GOPATH],
    and it is the text after the last separator when the identifier does not
    end with a separator. *)
Theorem packagePath_empty_GOPATH (path : string) (fuel : nat) :
  isRooted path = false -> String.length path < fuel ->
  exists part,
    splitPath fuel path = Some part /\
    packagePath fuel EmptyString path = Some (EmptyString, last part EmptyString) /\
    (forall GOPATH,
        option_map snd (packagePath fuel GOPATH path) = Some (last part EmptyString)) /\
    (nonEmpty (snd (filepath_Split path)) = true ->
     last part EmptyString = snd (filepath_Split path)).
Proof.
  intros Hr Hlen.
  destruct (splitPath_relative path fuel Hr Hlen) as (part & Hrun & _ & _ & Hlast).
  assert (Hname : match part with [] => EmptyString | _ :: _ => last part EmptyString end
                  = last part EmptyString) by (destruct part; reflexivity).
  exists part. split; [exact Hrun|]. split; [|split].
  - unfold packagePath. rewrite Hrun, Hname. reflexivity.
  - intros GOPATH. unfold packagePath. rewrite Hrun, Hname. reflexivity.
  - intros Hf. exact (proj2 (Hlast Hf)).
Qed.

Lemma packagePath_empty_GOPATH_witness :
  packagePath 22 EmptyString "example.com/acme/tool" = Some (EmptyString, "tool") /\
  option_map snd (packagePath 22 "/home/u/go" "example.com/acme/tool") = Some "tool".
Proof.
  destruct (packagePath_empty_GOPATH "example.com/acme/tool" 22 eq_refl)
    as (part & _ & Hpp & Hany & Hlast); [simpl; lia|].
  rewrite Hpp, (Hany "/home/u/go"), (Hlast eq_refl). split; reflexivity.
Defined.

(** C3 as stated fails: with an empty [GOPATH] the destination returned for
    [example.com/acme/tool] is the empty string, not the joined components. *)
Lemma packagePath_empty_GOPATH_counterexample :
  packagePath 22 EmptyString "example.com/acme/tool" = Some (EmptyString, "tool") /\
  filepath_Join ["example.com"; "acme"; "tool"] = "example.com/acme/tool" /\
  EmptyString <> filepath_Join ["example.com"; "acme"; "tool"].
Proof. repeat split. discriminate. Qed.

(** C4.  For an identifier made of N components, none empty, separated by
    slashes, and a non-empty [GOPATH], [packagePath] returns; the short name
    is the last component and the destination is the first entry of [GOPATH]
    joined with [src] and with the N components in their order. *)
Theorem packagePath_components (GOPATH : string) (comps : list string) (fuel : nat) :
  GOPATH <> EmptyString -> comps <> [] -> Forall component comps ->
  String.length (strings_Join comps "/") < fuel ->
  packagePath fuel GOPATH (strings_Join comps "/")
  = Some (filepath_Join (hd EmptyString (filepath_SplitList GOPATH) :: "src" :: comps),
          last comps EmptyString).
Proof.
  intros HG Hne Hall Hlen.
  destruct (strings_Join_components comps Hne Hall) as (Hid & Hrid & Hsplit).
  set (id := strings_Join comps "/") in *.
  destruct (splitPath_relative id fuel Hrid Hlen) as (part & Hrun & Hcomp & Hfold & Hlast).
  assert (Hf : snd (filepath_Split id) = last comps EmptyString).
  { rewrite filepath_Split_last, Hsplit. reflexivity. }
  assert (Hfne : nonEmpty (snd (filepath_Split id)) = true).
  { rewrite Hf. apply nonEmpty_true.
    destruct (exists_last Hne) as (front & c & ->). rewrite last_last.
    apply Forall_app in Hall. destruct Hall as [_ Hc]. inversion Hc as [|? ? [Hn _] ?]. exact Hn. }
  destruct (Hlast Hfne) as [Hpne Hplast]. rewrite Hf in Hplast.
  destruct (filepath_SplitList_hd GOPATH HG) as (g0 & rest & HSL).
  unfold packagePath. rewrite Hrun, HSL. cbn [hd].
  destruct part as [|p0 part']; [congruence|]. rewrite Hplast.
  f_equal. f_equal.
  (* the parts found by the loop clean to the same path as the identifier *)
  destruct (strings_Join_components _ Hpne Hcomp) as (HP & HrP & HsplitP).
  assert (HJ : filepath_Join (p0 :: part') = filepath_Clean id).
  { rewrite filepath_Join_components by assumption.
    apply filepath_Clean_same_elems; try assumption.
    unfold cleanElems at 1. rewrite HsplitP. exact Hfold. }
  rewrite HJ.
  pose proof (filepath_Clean_nonEmpty id) as Hcne.
  rewrite filepath_Join_base by exact Hcne.
  change (filepath_Join (g0 :: "src" :: comps))
    with (if nonEmpty g0 then filepath_Clean (strings_Join (g0 :: "src" :: comps) "/")
          else filepath_Clean (strings_Join ("src" :: comps) "/")).
  rewrite (strings_Join_cons "src" comps Hne).
  rewrite (strings_Join_cons g0 ("src" :: comps)) by discriminate.
  rewrite (strings_Join_cons "src" comps Hne). fold id.
  destruct (nonEmpty g0).
  - replace (g0 ++ "/" ++ "src" ++ "/" ++ filepath_Clean id)
      with ((g0 ++ "/src") ++ "/" ++ filepath_Clean id)
      by (rewrite append_assoc; reflexivity).
    replace (g0 ++ "/" ++ "src" ++ "/" ++ id) with ((g0 ++ "/src") ++ "/" ++ id)
      by (rewrite append_assoc; reflexivity).
    apply filepath_Clean_compose; assumption.
  - cbn [nonEmpty]. apply filepath_Clean_compose; assumption.
Qed.

Lemma packagePath_components_witness :
  packagePath 22 "/home/u/go" "example.com/acme/tool"
  = Some ("/home/u/go/src/example.com/acme/tool", "tool").
Proof.
  apply (packagePath_components "/home/u/go" ["example.com"; "acme"; "tool"] 22).
  - discriminate.
  - discriminate.
  - repeat constructor; discriminate.
  - simpl. lia.
Defined.

(** C9 fails on the code.  On a rooted path the loop of [splitPath] never
    ends: no amount of fuel makes it return, for [/a/b] and for the bare
    root. *)
Theorem splitPath_rooted_never_returns :
  forall fuel, splitPath fuel "/a/b" = None /\ splitPath fuel "/" = None.
Proof. intros fuel. split; apply splitPath_rooted; reflexivity. Qed.

(** ** Runs of the program *)

Ltac run_steps :=
  cbv beta iota zeta delta
    [bind ret halt emit fmt_Print os_Exit MkdirAll Stat WriteFile execCmd
     fileExists fileExistsOn callIsDir world trace fst snd isNil os_IsNotExist
     statFound statFailed negb orb outcome start Nat.eqb Datatypes.length IsDir].

Section FileExists.
Context {W : Type} {platform : Platform W}.

Lemma fileExistsOn_found (isDir : bool) (s : State W) :
  fileExistsOn (statFound isDir) s = (inl (true, isDir), s).
Proof. reflexivity. Qed.

Lemma fileExistsOn_notExist (err : error) (s : State W) :
  notExist err = true -> fileExistsOn (statFailed err) s = (inl (false, false), s).
Proof. intros H. run_steps. rewrite H. reflexivity. Qed.

(** C10 fails on the code.  When [os.Stat] fails with an error other than
    not-exist (permission denied, say), [exists] is true and [stat] is nil:
    the call [stat.IsDir()] panics and no pair is returned. *)
Theorem fileExists_panics_on_other_error :
  forall (msg : string) (s : State W),
    fileExistsOn (statFailed (mkError false msg)) s = (inr NilDereference, s).
Proof. intros msg s. reflexivity. Qed.

(** When [fileExists] returns, a directory is something that exists. *)
Lemma fileExistsOn_isDir_exists (res : StatResult) (s s' : State W) (e d : bool) :
  fileExistsOn res s = (inl (e, d), s') -> d = true -> e = true.
Proof.
  destruct res as [stat err]. run_steps.
  destruct err as [err|]; [destruct (notExist err)|]; destruct stat; simpl;
    intros H; inversion H; subst; auto; discriminate.
Qed.

(** On what [os.Stat] can return, [fileExists] returns a pair except for an
    error other than not-exist, where it panics. *)
Lemma fileExistsOn_wellFormed (res : StatResult) (s : State W) :
  wellFormedStat res ->
  (exists e d, fileExistsOn res s = (inl (e, d), s) /\ (d = true -> e = true)) \/
  (fileExistsOn res s = (inr NilDereference, s) /\
   exists err, res = statFailed err /\ notExist err = false).
Proof.
  intros [[[d] ->]|[[ne msg] ->]].
  - left. exists true, d. split; [reflexivity|auto].
  - destruct ne.
    + left. exists false, false. split; [reflexivity|auto].
    + right. split; [reflexivity|]. eexists. split; reflexivity.
Qed.

End FileExists.

Section BasicRuns.
Context {W : Type} {platform : Platform W}.

Lemma basic_prepare_ok (fuel : nat) (inv : Basic.Invocation) (s : State W)
      (path name : string) (w1 : W) :
  Basic.flag_Args inv <> [] ->
  packagePath fuel (Basic.GOPATH inv) (Basic.flag_Arg inv 0) = Some (path, name) ->
  os_MkdirAll path os_ModePerm (world s) = (None, w1) ->
  Basic.prepare fuel inv s
  = (inl (path, name), mkState w1 (trace s ++ [MadeDir path os_ModePerm None])).
Proof.
  intros Hargs Hpp Hmk. destruct s as [w tr]. simpl in Hmk. unfold Basic.prepare.
  destruct (Basic.flag_Args inv) as [|a0 rest] eqn:Ea; [congruence|].
  run_steps. rewrite Hpp. run_steps. rewrite Hmk. reflexivity.
Qed.

(** C6.  When the source file path is an existing regular file and the force
    flag is not set, the run exits with code 7; nothing is written and no
    tool is run, and the world is as [os.MkdirAll] left it. *)
Theorem basic_existing_source_kept (fuel : nat) (inv : Basic.Invocation) (w w1 : W)
        (path name : string) :
  Basic.argChangeLog inv = false -> Basic.argVersion inv = false ->
  Basic.flag_Args inv <> [] ->
  packagePath fuel (Basic.GOPATH inv) (Basic.flag_Arg inv 0) = Some (path, name) ->
  os_MkdirAll path os_ModePerm w = (None, w1) ->
  os_Stat (filepath_Join [path; name ++ ".go"]) w1 = statFound false ->
  Basic.argOverwrite inv = false ->
  Basic.main fuel inv (start w)
  = (inr (Exited 7),
     mkState w1
       [ MadeDir path os_ModePerm None;
         Statted (filepath_Join [path; name ++ ".go"]) (statFound false);
         Printed ("error: file exists (use -f to overwrite): "
                  ++ filepath_Join [path; name ++ ".go"] ++ nl) ]).
Proof.
  intros Hc Hv Hargs Hpp Hmk Hst Hf. unfold Basic.main. rewrite Hc, Hv.
  unfold bind at 1. rewrite (basic_prepare_ok fuel inv (start w) path name w1) by assumption.
  unfold Basic.generate. run_steps. rewrite Hst, Hf. reflexivity.
Qed.

Lemma extended_prepare_ok (fuel : nat) (inv : Extended.Invocation) (s : State W)
      (path name : string) (w1 : W) :
  Extended.flag_Args inv <> [] ->
  packagePath fuel (Extended.GOPATH inv) (Extended.flag_Arg inv 0) = Some (path, name) ->
  os_MkdirAll path os_ModePerm (world s) = (None, w1) ->
  Extended.prepare fuel inv s
  = (inl (path, name), mkState w1 (trace s ++ [MadeDir path os_ModePerm None])).
Proof.
  intros Hargs Hpp Hmk. destruct s as [w tr]. simpl in Hmk. unfold Extended.prepare.
  destruct (Extended.flag_Args inv) as [|a0 rest] eqn:Ea; [congruence|].
  run_steps. rewrite Hpp. run_steps. rewrite Hmk. reflexivity.
Qed.

(** X21.  The same holds of the extended variant: when the source path is
    an existing regular file and the force flag is not set, the run ends with
    exit code 7 after the creation of the directory, the check and the
    message; nothing is written, no tool is run, and neither the license nor
    the readme step is reached. *)
Lemma extended_existing_source_kept (fuel : nat) (inv : Extended.Invocation) (w w1 : W)
      (path name : string) :
  Extended.argChanges inv = false -> Extended.argVersion inv = false ->
  Extended.flag_Args inv <> [] ->
  packagePath fuel (Extended.GOPATH inv) (Extended.flag_Arg inv 0) = Some (path, name) ->
  os_MkdirAll path os_ModePerm w = (None, w1) ->
  os_Stat (filepath_Join [path; name ++ ".go"]) w1 = statFound false ->
  Extended.argOverwrite inv = false ->
  Extended.main fuel inv (start w)
  = (inr (Exited 7),
     mkState w1
       [ MadeDir path os_ModePerm None;
         Statted (filepath_Join [path; name ++ ".go"]) (statFound false);
         Printed ("error: file exists (use -f to overwrite): "
                  ++ filepath_Join [path; name ++ ".go"] ++ nl) ]).
Proof.
  intros Hc Hv Hargs Hpp Hmk Hst Hf. unfold Extended.main. rewrite Hc, Hv.
  unfold bind at 1.
  rewrite (extended_prepare_ok fuel inv (start w) path name w1) by assumption.
  unfold Extended.sourceStep. run_steps. rewrite Hst, Hf. reflexivity.
Qed.

End BasicRuns.

Lemma basic_existing_source_kept_witness :
  Basic.main 22 (scenarioBasic false false) (start diskWithSource)
  = (inr (Exited 7),
     mkState diskWithSource
       [ MadeDir toolDir os_ModePerm None;
         Statted (toolDir ++ "/tool.go") (statFound false);
         Printed ("error: file exists (use -f to overwrite): "
                  ++ toolDir ++ "/tool.go" ++ nl) ]).
Proof.
  apply (basic_existing_source_kept 22 (scenarioBasic false false)
           diskWithSource diskWithSource toolDir "tool"); reflexivity || discriminate.
Defined.

(** C8.  With the change-log flag set, whatever the other flags and
    arguments, the run prints the change history and ends with exit code 0;
    the world is untouched: no directory is made, no file written and no
    tool run.  This holds of both variants. *)
Theorem changelog_only_prints {W : Type} {platform : Platform W} (fuel : nat) (w : W) :
  (forall inv : Basic.Invocation,
      Basic.argChangeLog inv = true ->
      outcome (Basic.main fuel inv (start w)) = Exited 0 /\
      snd (Basic.main fuel inv (start w))
      = mkState w [Printed (version_render Basic.ChangeLog)]) /\
  (forall inv : Extended.Invocation,
      Extended.argChanges inv = true ->
      outcome (Extended.main fuel inv (start w)) = Exited 0 /\
      snd (Extended.main fuel inv (start w))
      = mkState w [Printed (version_render Extended.ChangeLog)]).
Proof.
  split; intros inv H.
  - unfold Basic.main. rewrite H. split; reflexivity.
  - unfold Extended.main. rewrite H. split; reflexivity.
Qed.

Lemma changelog_only_prints_witness :
  (outcome (Basic.main 22 (scenarioBasic true true) (start diskWithSource)) = Exited 0 /\
   snd (Basic.main 22 (scenarioBasic true true) (start diskWithSource))
   = mkState diskWithSource [Printed (version_render Basic.ChangeLog)]) /\
  (outcome (Extended.main 22 (scenarioExtended true true "MIT" true) (start diskWithSource))
   = Exited 0 /\
   snd (Extended.main 22 (scenarioExtended true true "MIT" true) (start diskWithSource))
   = mkState diskWithSource [Printed (version_render Extended.ChangeLog)]).
Proof.
  destruct (changelog_only_prints 22 diskWithSource) as [Hb Hx].
  split; [apply Hb|apply Hx]; reflexivity.
Defined.

Section DirectoryConflict.
Context {W : Type} {platform : Platform W}.

Lemma basic_generate_directory (inv : Basic.Invocation) (path name : string) (s : State W) :
  os_Stat (filepath_Join [path; name ++ ".go"]) (world s) = statFound true ->
  Basic.generate inv path name s
  = (inr (Exited (conflictCode (Basic.argOverwrite inv) 3 7)),
     mkState (world s)
       (trace s ++ [Statted (filepath_Join [path; name ++ ".go"]) (statFound true)]
                ++ [Printed (conflictText (Basic.argOverwrite inv)
                               (filepath_Join [path; name ++ ".go"]))])).
Proof.
  intros Hst. destruct s as [w tr]. cbn [world] in Hst. unfold Basic.generate.
  run_steps. rewrite Hst. run_steps.
  destruct (Basic.argOverwrite inv); cbv beta iota; rewrite <- app_assoc; reflexivity.
Qed.

Lemma extended_sourceStep_directory (inv : Extended.Invocation) (path name : string)
      (s : State W) :
  os_Stat (filepath_Join [path; name ++ ".go"]) (world s) = statFound true ->
  Extended.sourceStep inv path name s
  = (inr (Exited (conflictCode (Extended.argOverwrite inv) 3 7)),
     mkState (world s)
       (trace s ++ [Statted (filepath_Join [path; name ++ ".go"]) (statFound true)]
                ++ [Printed (conflictText (Extended.argOverwrite inv)
                               (filepath_Join [path; name ++ ".go"]))])).
Proof.
  intros Hst. destruct s as [w tr]. cbn [world] in Hst. unfold Extended.sourceStep.
  run_steps. rewrite Hst. run_steps.
  destruct (Extended.argOverwrite inv); cbv beta iota; rewrite <- app_assoc; reflexivity.
Qed.

Lemma extended_licenseStep_directory (inv : Extended.Invocation) (path name : string)
      (s : State W) :
  Extended.mapLookup Extended.licenseTemplate (Extended.argLicense inv) <> None ->
  os_Stat (filepath_Join [path; "LICENSE"]) (world s) = statFound true ->
  Extended.licenseStep inv path name s
  = (inr (Exited (conflictCode (Extended.argOverwrite inv) 9 11)),
     mkState (world s)
       (trace s ++ [Statted (filepath_Join [path; "LICENSE"]) (statFound true)]
                ++ [Printed (conflictText (Extended.argOverwrite inv)
                               (filepath_Join [path; "LICENSE"]))])).
Proof.
  intros Hl Hst. destruct s as [w tr]. cbn [world] in Hst. unfold Extended.licenseStep.
  destruct (Extended.mapLookup Extended.licenseTemplate (Extended.argLicense inv)); [|congruence].
  run_steps. rewrite Hst. run_steps.
  destruct (Extended.argOverwrite inv); cbv beta iota; rewrite <- app_assoc; reflexivity.
Qed.

Lemma extended_readmeStep_directory (inv : Extended.Invocation) (path name : string)
      (s : State W) :
  os_Stat (filepath_Join [path; "README.md"]) (world s) = statFound true ->
  Extended.readmeStep inv path name s
  = (inr (Exited (conflictCode (Extended.argOverwrite inv) 9 11)),
     mkState (world s)
       (trace s ++ [Statted (filepath_Join [path; "README.md"]) (statFound true)]
                ++ [Printed (conflictText (Extended.argOverwrite inv)
                               (filepath_Join [path; "README.md"]))])).
Proof.
  intros Hst. destruct s as [w tr]. cbn [world] in Hst. unfold Extended.readmeStep.
  run_steps. rewrite Hst. run_steps.
  destruct (Extended.argOverwrite inv); cbv beta iota; rewrite <- app_assoc; reflexivity.
Qed.

(** C1 (as amended).  When the run reaches the check of an output path and
    the path is a directory, the run fails there without writing: with the
    is-a-directory code (3 for the source file, 9 for the license and the
    readme) when the force flag is set, and with the file-exists code (7 for
    the source file, 11 for the license and the readme) when it is not.  The
    check of the license path is reached with a known license only. *)
Theorem directory_conflict_exit_codes :
  (forall fuel (inv : Basic.Invocation) (w : W) path name s1,
      Basic.argChangeLog inv = false -> Basic.argVersion inv = false ->
      Basic.prepare fuel inv (start w) = (inl (path, name), s1) ->
      os_Stat (filepath_Join [path; name ++ ".go"]) (world s1) = statFound true ->
      outcome (Basic.main fuel inv (start w))
      = Exited (if Basic.argOverwrite inv then 3 else 7) /\
      world (snd (Basic.main fuel inv (start w))) = world s1) /\
  (forall fuel (inv : Extended.Invocation) (w : W) path name s1,
      Extended.argChanges inv = false -> Extended.argVersion inv = false ->
      Extended.prepare fuel inv (start w) = (inl (path, name), s1) ->
      os_Stat (filepath_Join [path; name ++ ".go"]) (world s1) = statFound true ->
      outcome (Extended.main fuel inv (start w))
      = Exited (if Extended.argOverwrite inv then 3 else 7) /\
      world (snd (Extended.main fuel inv (start w))) = world s1) /\
  (forall fuel (inv : Extended.Invocation) (w : W) path name s1 s2,
      Extended.argChanges inv = false -> Extended.argVersion inv = false ->
      Extended.prepare fuel inv (start w) = (inl (path, name), s1) ->
      Extended.sourceStep inv path name s1 = (inl tt, s2) ->
      Extended.mapLookup Extended.licenseTemplate (Extended.argLicense inv) <> None ->
      os_Stat (filepath_Join [path; "LICENSE"]) (world s2) = statFound true ->
      outcome (Extended.main fuel inv (start w))
      = Exited (if Extended.argOverwrite inv then 9 else 11) /\
      world (snd (Extended.main fuel inv (start w))) = world s2) /\
  (forall fuel (inv : Extended.Invocation) (w : W) path name s1 s2 s3,
      Extended.argChanges inv = false -> Extended.argVersion inv = false ->
      Extended.prepare fuel inv (start w) = (inl (path, name), s1) ->
      Extended.sourceStep inv path name s1 = (inl tt, s2) ->
      Extended.licenseStep inv path name s2 = (inl tt, s3) ->
      os_Stat (filepath_Join [path; "README.md"]) (world s3) = statFound true ->
      outcome (Extended.main fuel inv (start w))
      = Exited (if Extended.argOverwrite inv then 9 else 11) /\
      world (snd (Extended.main fuel inv (start w))) = world s3).
Proof.
  repeat split.
  all: intros; unfold Basic.main, Extended.main;
    repeat match goal with H : _ = false |- _ => rewrite H; clear H end.
  all: unfold bind at 1;
    match goal with H : _ = (inl (_, _), _) |- _ => rewrite H end; cbv beta iota.
  1, 2: rewrite basic_generate_directory by assumption; reflexivity.
  1, 2: unfold bind at 1; rewrite extended_sourceStep_directory by assumption; reflexivity.
  1, 2: unfold bind at 1;
    match goal with H : Extended.sourceStep _ _ _ _ = _ |- _ => rewrite H end;
    unfold bind at 1; rewrite extended_licenseStep_directory by assumption; reflexivity.
  1, 2: unfold bind at 1;
    match goal with H : Extended.sourceStep _ _ _ _ = _ |- _ => rewrite H end;
    unfold bind at 1;
    match goal with H : Extended.licenseStep _ _ _ _ = _ |- _ => rewrite H end;
    unfold bind at 1; rewrite extended_readmeStep_directory by assumption; reflexivity.
Qed.

End DirectoryConflict.

Lemma directory_conflict_exit_codes_witness :
  (outcome (Basic.main 22 (scenarioBasic false true) (start (diskWithDirectoryAt "tool.go")))
   = Exited 3 /\
   world (snd (Basic.main 22 (scenarioBasic false true)
                 (start (diskWithDirectoryAt "tool.go"))))
   = diskWithDirectoryAt "tool.go") /\
  (outcome (Extended.main 22 (scenarioExtended false true "MIT" false)
              (start (diskWithDirectoryAt "README.md")))
   = Exited 11).
Proof.
  destruct (@directory_conflict_exit_codes Disk diskPlatform) as (Hb & _ & _ & Hr).
  split.
  - exact (Hb 22 (scenarioBasic false true) (diskWithDirectoryAt "tool.go") toolDir "tool"
              (snd (Basic.prepare 22 (scenarioBasic false true)
                      (start (diskWithDirectoryAt "tool.go"))))
              eq_refl eq_refl eq_refl eq_refl).
  - set (inv := scenarioExtended false true "MIT" false).
    set (s1 := snd (Extended.prepare 22 inv (start (diskWithDirectoryAt "README.md")))).
    set (s2 := snd (Extended.sourceStep inv toolDir "tool" s1)).
    set (s3 := snd (Extended.licenseStep inv toolDir "tool" s2)).
    exact (proj1 (Hr 22 inv (diskWithDirectoryAt "README.md") toolDir "tool" s1 s2 s3
                    eq_refl eq_refl eq_refl eq_refl eq_refl eq_refl)).
Defined.

(** C1 as stated fails: [tool.go] is a directory and the force flag is not
    set, and the run exits with code 7, the code of an existing file, not
    with code 3; likewise code 11, not 9, for [LICENSE]. *)
Lemma directory_conflict_counterexample :
  os_Stat (toolDir ++ "/tool.go") (diskWithDirectoryAt "tool.go") = statFound true /\
  outcome (Basic.main 22 (scenarioBasic false false) (start (diskWithDirectoryAt "tool.go")))
  = Exited 7 /\
  os_Stat (toolDir ++ "/LICENSE") (diskWithDirectoryAt "LICENSE") = statFound true /\
  outcome (Extended.main 22 (scenarioExtended false true "MIT" false)
             (start (diskWithDirectoryAt "LICENSE")))
  = Exited 11.
Proof. repeat split. Qed.

(** ** The license and readme steps are not optional *)

Section NotOptional.
Context {W : Type} {platform : Platform W}.

Lemma stopsFail_ret {A : Type} (a : A) : stopsFail (W := W) (ret a).
Proof. intros s stop s' H. discriminate. Qed.

Lemma stopsFail_bind {A B : Type} (m : Run W A) (k : A -> Run W B) :
  stopsFail m -> (forall a, stopsFail (k a)) -> stopsFail (bind m k).
Proof.
  intros Hm Hk s stop s' H. unfold bind in H.
  destruct (m s) as [[a|st] s1] eqn:E.
  - exact (Hk a s1 stop s' H).
  - inversion H; subst. exact (Hm s stop s' E).
Qed.

Lemma stopsFail_exit {A : Type} (code : nat) :
  code <> 0 -> stopsFail (W := W) (os_Exit (A := A) code).
Proof. intros Hc s stop s' H. inversion H; subst. congruence. Qed.

Lemma stopsFail_halt {A : Type} (stop : Stop) :
  stop <> Exited 0 -> stopsFail (halt (W := W) (A := A) stop).
Proof. intros Hc s stop' s' H. inversion H; subst. exact Hc. Qed.

Lemma stopsFail_print (text : string) : stopsFail (W := W) (fmt_Print text).
Proof. intros s stop s' H. discriminate. Qed.

Lemma stopsFail_MkdirAll (path : string) (perm : nat) : stopsFail (MkdirAll path perm).
Proof.
  intros s stop s' H. unfold MkdirAll in H.
  destruct (os_MkdirAll path perm (world s)). discriminate.
Qed.

Lemma stopsFail_WriteFile (path data : string) (perm : nat) :
  stopsFail (WriteFile path data perm).
Proof.
  intros s stop s' H. unfold WriteFile in H.
  destruct (ioutil_WriteFile path data perm (world s)). discriminate.
Qed.

Lemma stopsFail_execCmd (dir cmd : string) (arg : list string) :
  stopsFail (execCmd dir cmd arg).
Proof.
  intros s stop s' H. unfold execCmd in H.
  destruct (exec_CombinedOutput dir cmd arg (world s)) as [[o e] w']. discriminate.
Qed.

Lemma stopsFail_fileExists (path : string) : stopsFail (fileExists path).
Proof.
  intros s stop s' H. unfold fileExists, fileExistsOn, Stat, bind in H.
  destruct (os_Stat path (world s)) as [stat err].
  destruct (isNil err || negb (os_IsNotExist err)); [destruct stat|];
    simpl in H; inversion H; discriminate.
Qed.

Create HintDb stops.
#[local] Hint Resolve stopsFail_ret stopsFail_exit stopsFail_halt stopsFail_print
  stopsFail_MkdirAll stopsFail_WriteFile stopsFail_execCmd stopsFail_fileExists : stops.

Ltac stops_fail :=
  repeat first
    [ solve [auto with stops]
    | solve [apply stopsFail_exit; discriminate]
    | solve [apply stopsFail_halt; discriminate]
    | match goal with
      | |- stopsFail (match ?x with _ => _ end) => destruct x
      | |- stopsFail (if ?b then _ else _) => destruct b
      end
    | apply stopsFail_bind; [|intros] ].

Lemma extended_prepare_stopsFail (fuel : nat) (inv : Extended.Invocation) :
  stopsFail (Extended.prepare fuel inv).
Proof. unfold Extended.prepare. stops_fail. Qed.

Lemma extended_sourceStep_stopsFail (inv : Extended.Invocation) (path name : string) :
  stopsFail (Extended.sourceStep inv path name).
Proof. unfold Extended.sourceStep. stops_fail. Qed.

Lemma alwaysFails_bind_later {A B : Type} (m : Run W A) (k : A -> Run W B) :
  stopsFail m -> (forall a, alwaysFails (k a)) -> alwaysFails (bind m k).
Proof.
  intros Hm Hk s. unfold bind.
  destruct (m s) as [[a|st] s1] eqn:E.
  - apply Hk.
  - exists st, s1. split; [reflexivity|]. exact (Hm s st s1 E).
Qed.

Lemma alwaysFails_bind_now {A B : Type} (m : Run W A) (k : A -> Run W B) :
  alwaysFails m -> alwaysFails (bind m k).
Proof.
  intros Hm s. unfold bind. destruct (Hm s) as (st & s1 & E & Hst).
  rewrite E. exists st, s1. split; [reflexivity|exact Hst].
Qed.

Lemma extended_licenseStep_unknown (inv : Extended.Invocation) (path name : string) :
  Extended.mapLookup Extended.licenseTemplate (Extended.argLicense inv) = None ->
  forall s, Extended.licenseStep inv path name s
            = (inr (Exited 8),
               mkState (world s)
                 (trace s ++ [Printed ("error: unsupported license (use -h to view options): "
                                       ++ Extended.argLicense inv ++ nl)])).
Proof. intros H s. unfold Extended.licenseStep. rewrite H. reflexivity. Qed.

(** A run of the extended variant that generates files never succeeds without
    a known license: omitting [-l] leaves the empty identifier, which the map
    of licenses does not hold. *)
Lemma extended_needs_license (fuel : nat) (inv : Extended.Invocation) (w : W) :
  Extended.argChanges inv = false -> Extended.argVersion inv = false ->
  Extended.mapLookup Extended.licenseTemplate (Extended.argLicense inv) = None ->
  outcome (Extended.main fuel inv (start w)) <> Exited 0.
Proof.
  intros Hc Hv Hl.
  assert (Hfail : alwaysFails (Extended.main fuel inv)).
  { unfold Extended.main. rewrite Hc, Hv.
    apply alwaysFails_bind_later; [apply extended_prepare_stopsFail|].
    intros [path name].
    apply alwaysFails_bind_later; [apply extended_sourceStep_stopsFail|]. intros _.
    apply alwaysFails_bind_now. intros s.
    rewrite extended_licenseStep_unknown by assumption.
    eexists _, _. split; [reflexivity|discriminate]. }
  destruct (Hfail (start w)) as (st & s1 & E & Hst).
  unfold outcome. rewrite E. exact Hst.
Qed.

End NotOptional.

(** C2 fails on the code.  Without [-l] and without [-r], on an empty disk
    with both tools succeeding, the run writes the source file and then exits
    with code 8; and with [-l MIT] and without [-r] it writes [README.md] all
    the same. *)
Theorem extended_steps_not_optional :
  outcome (Extended.main 22 (scenarioExtended false false EmptyString false) (start emptyDisk))
  = Exited 8 /\
  lookupNode
    (nodes (world (snd (Extended.main 22 (scenarioExtended false false EmptyString false)
                          (start emptyDisk)))))
    (toolDir ++ "/tool.go") <> None /\
  outcome (Extended.main 22 (scenarioExtended false false "MIT" false) (start emptyDisk))
  = Exited 0 /\
  lookupNode
    (nodes (world (snd (Extended.main 22 (scenarioExtended false false "MIT" false)
                          (start emptyDisk)))))
    (toolDir ++ "/README.md") <> None.
Proof. repeat split; vm_compute; discriminate. Qed.

(** ** The external tools *)

Lemma split_cons_inv {A : Type} (e x : A) (l pre post : list A) :
  e :: l = (pre ++ x :: post)%list ->
  (pre = [] /\ e = x /\ l = post) \/
  (exists pre', pre = e :: pre' /\ l = (pre' ++ x :: post)%list).
Proof.
  destruct pre as [|p pre']; simpl; intros H; inversion H; subst; eauto.
Qed.

Lemma split_nil_inv {A : Type} (x : A) (pre post : list A) :
  [] = (pre ++ x :: post)%list -> False.
Proof. destruct pre; discriminate. Qed.

Section Tools.
Context {W : Type} {platform : Platform W}.

Ltac no_tool :=
  left; intros ? ? ? ? ?; run_steps; cbn [In app]; intuition discriminate.

Lemma basic_main_tool_runs (fuel : nat) (inv : Basic.Invocation) (w : W) :
  noToolRun (trace (snd (Basic.main fuel inv (start w)))) \/
  exists path name,
    packagePath fuel (Basic.GOPATH inv) (Basic.flag_Arg inv 0) = Some (path, name) /\
    toolRunShape path name (Basic.main fuel inv (start w)).
Proof.
  unfold Basic.main.
  destruct (Basic.argChangeLog inv); [no_tool|].
  destruct (Basic.argVersion inv); [no_tool|].
  unfold Basic.prepare.
  destruct (Basic.flag_Args inv) as [|a0 rest] eqn:Eargs; [no_tool|].
  destruct (packagePath fuel (Basic.GOPATH inv) (Basic.flag_Arg inv 0))
    as [[path name]|] eqn:Epp; [|no_tool].
  unfold Basic.generate. run_steps.
  destruct (os_MkdirAll path os_ModePerm w) as [[e|] w1] eqn:Emk; [no_tool|].
  run_steps.
  set (src := filepath_Join [path; name ++ ".go"]).
  set (data := Template_String _).
  destruct (os_Stat src w1) as [stat err] eqn:Est.
  destruct err as [e|]; [destruct (notExist e) eqn:Ene|]; destruct stat as [[d]|];
    run_steps; try solve [no_tool].
  all: try (destruct d; destruct (Basic.argOverwrite inv); run_steps; try solve [no_tool]).
  all: destruct (ioutil_WriteFile src data mode0664 w1) as [[e'|] w2] eqn:Ew; run_steps;
    try solve [no_tool].
  all: destruct (exec_CombinedOutput path "goimports" ["-w"; name ++ ".go"] w2)
    as [[out1 [e1|]] w3] eqn:Ex1; run_steps.
  all: try (destruct (exec_CombinedOutput path "go" ["mod"; "init"] w3)
    as [[out2 [e2|]] w4] eqn:Ex2; run_steps).
  all: right; exists path, name; split; [reflexivity|]; unfold toolRunShape; run_steps.
  all: match goal with |- context [Statted _ ?res] => exists res end;
    match goal with |- context [Ran _ "goimports" _ ?o ?e] => exists data, o, e end.
  all: first
    [ left; split; [discriminate|split; reflexivity]
    | right; split; [reflexivity|];
      match goal with |- context [Ran _ "go" _ ?o ?e] => exists o, e end;
      eexists; split; [reflexivity|];
      intros Hne; first [congruence | split; reflexivity] ].
Qed.

(** Every tool event of a run comes after the write of the source file, the
    module tool after the formatting tool, and a failing tool ends the run. *)
Lemma basic_tool_events (fuel : nat) (inv : Basic.Invocation) (w : W)
        (pre post : list Event) (dir cmd : string) (arg : list string)
        (out : string) (err : option error) :
  trace (snd (Basic.main fuel inv (start w))) = (pre ++ Ran dir cmd arg out err :: post)%list ->
  exists path name data,
    packagePath fuel (Basic.GOPATH inv) (Basic.flag_Arg inv 0) = Some (path, name) /\
    dir = path /\
    In (Wrote (filepath_Join [path; name ++ ".go"]) data mode0664 None) pre /\
    ((cmd = "goimports" /\ arg = ["-w"; name ++ ".go"] /\
      noToolRun pre /\
      (err <> None ->
       post = [Printed out] /\ outcome (Basic.main fuel inv (start w)) = Exited 5))
     \/
     (cmd = "go" /\ arg = ["mod"; "init"] /\
      (exists out1, In (Ran path "goimports" ["-w"; name ++ ".go"] out1 None) pre) /\
      (err <> None ->
       post = [Printed out] /\ outcome (Basic.main fuel inv (start w)) = Exited 6))).
Proof.
  intros Htr.
  destruct (basic_main_tool_runs fuel inv w) as [Hno|(path & name & Hpp & Hshape)].
  - exfalso. apply (Hno dir cmd arg out err). rewrite Htr. apply in_elt.
  - exists path, name.
    destruct Hshape as (res & data & out1 & err1 & Hcases). exists data.
    split; [exact Hpp|]. cbv zeta in Hcases. cbn [app] in Hcases.
    destruct Hcases as [(Hne & Ht & Hout)|(-> & out2 & err2 & text & Ht & Hfail)];
      rewrite Ht in Htr.
    + repeat (apply split_cons_inv in Htr;
              destruct Htr as [(-> & Hev & Hpost)|(? & -> & Htr)];
              [try discriminate Hev|]).
      * inversion Hev; subst. split; [reflexivity|]. split; [simpl; auto|].
        left. repeat split; auto.
        intros d c a o e Hin. simpl in Hin. intuition discriminate.
      * apply split_nil_inv in Htr. contradiction.
    + repeat (apply split_cons_inv in Htr;
              destruct Htr as [(-> & Hev & Hpost)|(? & -> & Htr)];
              [try discriminate Hev|]).
      * inversion Hev; subst. split; [reflexivity|]. split; [simpl; auto|].
        left. repeat split; auto.
        -- intros d c a o e Hin. simpl in Hin. intuition discriminate.
        -- congruence.
        -- congruence.
      * inversion Hev; subst. split; [reflexivity|]. split; [simpl; auto|].
        right. repeat split; auto.
        -- exists out1. simpl. auto.
        -- destruct (Hfail H) as [-> _]. reflexivity.
        -- destruct (Hfail H) as [_ Ho]. exact Ho.
      * apply split_nil_inv in Htr. contradiction.
Qed.

(** The result of a run in which a tool fails: the text printed is the
    combined output that the call of the tool returned. *)
Lemma basic_failing_tool_result (fuel : nat) (inv : Basic.Invocation) (w : W)
      (path name : string) (res : StatResult) (w1 w2 w3 : W)
      (out1 : string) (err1 : option error) :
  let src := filepath_Join [path; name ++ ".go"] in
  let data := Template_String
                (Basic.insert Basic.template name (Basic.argMkDate inv)
                   (Basic.argMkVersion inv)) in
  let written := [ MadeDir path os_ModePerm None; Statted src res;
                   Wrote src data mode0664 None ] in
  Basic.argChangeLog inv = false -> Basic.argVersion inv = false ->
  Basic.flag_Args inv <> [] ->
  packagePath fuel (Basic.GOPATH inv) (Basic.flag_Arg inv 0) = Some (path, name) ->
  os_MkdirAll path os_ModePerm w = (None, w1) ->
  os_Stat src w1 = res ->
  os_IsNotExist (snd res) = true \/
  (fst res = Some (mkFileInfo false) /\ Basic.argOverwrite inv = true) ->
  ioutil_WriteFile src data mode0664 w1 = (None, w2) ->
  exec_CombinedOutput path "goimports" ["-w"; name ++ ".go"] w2 = ((out1, err1), w3) ->
  (err1 <> None ->
   Basic.main fuel inv (start w)
   = (inr (Exited 5),
      mkState w3
        (app written
           [ Ran path "goimports" ["-w"; name ++ ".go"] out1 err1; Printed out1 ]))) /\
  (err1 = None ->
   forall (out2 : string) (err2 : option error) (w4 : W),
     exec_CombinedOutput path "go" ["mod"; "init"] w3 = ((out2, err2), w4) ->
     err2 <> None ->
     Basic.main fuel inv (start w)
     = (inr (Exited 6),
        mkState w4
          (app written
             [ Ran path "goimports" ["-w"; name ++ ".go"] out1 None;
               Ran path "go" ["mod"; "init"] out2 err2; Printed out2 ]))).
Proof.
  intros src data written Hc Hv Hargs Hpp Hmk Hst Hwr Hw Hx1.
  assert (Hmain : Basic.main fuel inv (start w)
                  = Basic.generate inv path name
                      (mkState w1 [MadeDir path os_ModePerm None])).
  { unfold Basic.main. rewrite Hc, Hv. unfold bind at 1.
    rewrite (basic_prepare_ok fuel inv (start w) path name w1) by assumption.
    reflexivity. }
  rewrite Hmain. unfold Basic.generate. fold src. fold data. run_steps.
  subst res. subst written. destruct (os_Stat src w1) as [stat err].
  cbn [fst snd] in Hwr.
  assert (Hgo : (if negb (isNil err || negb (os_IsNotExist err)) || Basic.argOverwrite inv
                 then true else false) = true /\
                (isNil err || negb (os_IsNotExist err) = true ->
                 stat = Some (mkFileInfo false))).
  { destruct Hwr as [Hne|[Hs Hf]].
    - destruct err as [e|]; [|discriminate Hne]. simpl in Hne. simpl. rewrite Hne.
      split; [reflexivity|discriminate].
    - rewrite Hf, orb_true_r. split; [reflexivity|intros _; exact Hs]. }
  destruct Hgo as [Hbranch Hstat]. revert Hbranch Hstat. run_steps.
  destruct err as [e|]; [destruct (notExist e)|]; run_steps;
    intros Hbranch Hstat; try rewrite (Hstat eq_refl);
    try (destruct (Basic.argOverwrite inv); [|discriminate Hbranch]).
  all: run_steps; rewrite Hw; run_steps; rewrite Hx1; run_steps.
  all: split;
    [ intros Hne; destruct err1 as [e1|]; [reflexivity|congruence]
    | intros ->; intros out2 err2 w4 Hx2 Hne; run_steps; rewrite Hx2;
      destruct err2 as [e2|]; [reflexivity|congruence] ].
Qed.

(** C7.  In every run of the basic variant, an external tool is run only
    after the source file has been written without error, and in the
    directory of the module; the formatting tool comes first and the module
    tool only after the formatting tool succeeded.  When either tool fails the
    run prints the captured output of the tool and ends, with exit code 5 for
    the formatting tool and 6 for the module tool: the text printed is the
    combined output that the call of the tool returned, and nothing follows
    it. *)
Theorem basic_tools_follow_write (fuel : nat) (inv : Basic.Invocation) (w : W) :
  (forall (pre post : list Event) (dir cmd : string) (arg : list string)
          (out : string) (err : option error),
      trace (snd (Basic.main fuel inv (start w)))
      = (pre ++ Ran dir cmd arg out err :: post)%list ->
      exists path name data,
        packagePath fuel (Basic.GOPATH inv) (Basic.flag_Arg inv 0) = Some (path, name) /\
        dir = path /\
        In (Wrote (filepath_Join [path; name ++ ".go"]) data mode0664 None) pre /\
        ((cmd = "goimports" /\ arg = ["-w"; name ++ ".go"] /\
          noToolRun pre /\
          (err <> None ->
           post = [Printed out] /\ outcome (Basic.main fuel inv (start w)) = Exited 5))
         \/
         (cmd = "go" /\ arg = ["mod"; "init"] /\
          (exists out1, In (Ran path "goimports" ["-w"; name ++ ".go"] out1 None) pre) /\
          (err <> None ->
           post = [Printed out] /\ outcome (Basic.main fuel inv (start w)) = Exited 6)))) /\
  (forall (path name : string) (res : StatResult) (w1 w2 w3 : W)
          (out1 : string) (err1 : option error),
      let src := filepath_Join [path; name ++ ".go"] in
      let data := Template_String
                    (Basic.insert Basic.template name (Basic.argMkDate inv)
                       (Basic.argMkVersion inv)) in
      let written := [ MadeDir path os_ModePerm None; Statted src res;
                       Wrote src data mode0664 None ] in
      Basic.argChangeLog inv = false -> Basic.argVersion inv = false ->
      Basic.flag_Args inv <> [] ->
      packagePath fuel (Basic.GOPATH inv) (Basic.flag_Arg inv 0) = Some (path, name) ->
      os_MkdirAll path os_ModePerm w = (None, w1) ->
      os_Stat src w1 = res ->
      os_IsNotExist (snd res) = true \/
      (fst res = Some (mkFileInfo false) /\ Basic.argOverwrite inv = true) ->
      ioutil_WriteFile src data mode0664 w1 = (None, w2) ->
      exec_CombinedOutput path "goimports" ["-w"; name ++ ".go"] w2 = ((out1, err1), w3) ->
      (err1 <> None ->
       Basic.main fuel inv (start w)
       = (inr (Exited 5),
          mkState w3
            (app written
               [ Ran path "goimports" ["-w"; name ++ ".go"] out1 err1; Printed out1 ]))) /\
      (err1 = None ->
       forall (out2 : string) (err2 : option error) (w4 : W),
         exec_CombinedOutput path "go" ["mod"; "init"] w3 = ((out2, err2), w4) ->
         err2 <> None ->
         Basic.main fuel inv (start w)
         = (inr (Exited 6),
            mkState w4
              (app written
                 [ Ran path "goimports" ["-w"; name ++ ".go"] out1 None;
                   Ran path "go" ["mod"; "init"] out2 err2; Printed out2 ])))).
Proof.
  split.
  - intros pre post dir cmd arg out err. apply basic_tool_events.
  - intros path name res w1 w2 w3 out1 err1. apply basic_failing_tool_result.
Qed.

End Tools.
Lemma basic_tools_follow_write_witness :
  outcome (Basic.main 22 (scenarioBasic false false) (start (diskFailing ["goimports"])))
  = Exited 5 /\
  last (trace (snd (Basic.main 22 (scenarioBasic false false)
                      (start (diskFailing ["goimports"])))))
       (Printed EmptyString)
  = Printed ("goimports: failed" ++ nl).
Proof.
  destruct (basic_tools_follow_write 22 (scenarioBasic false false)
              (diskFailing ["goimports"])) as [_ Hpin].
  edestruct (Hpin toolDir "tool") as [H5 _];
    [reflexivity|reflexivity|discriminate|reflexivity|reflexivity|reflexivity
    |left; reflexivity|reflexivity|reflexivity|].
  rewrite H5 by discriminate. split; reflexivity.
Defined.

(** ** The external tools in the extended variant *)

Section ToolsExtended.
Context {W : Type} {platform : Platform W}.

Lemma noToolRun_nil : noToolRun [].
Proof. intros ? ? ? ? ? []. Qed.

Lemma noToolRun_app (a b : list Event) : noToolRun a -> noToolRun b -> noToolRun (a ++ b).
Proof.
  intros Ha Hb dir cmd arg out err Hin. apply in_app_or in Hin.
  destruct Hin as [Hin|Hin]; [exact (Ha _ _ _ _ _ Hin)|exact (Hb _ _ _ _ _ Hin)].
Qed.

Lemma quiet_ret {A : Type} (a : A) : quiet (W := W) (ret a).
Proof. intros s. exists []. simpl. rewrite app_nil_r. split; [reflexivity|apply noToolRun_nil]. Qed.

Lemma quiet_halt {A : Type} (stop : Stop) : quiet (W := W) (halt (A := A) stop).
Proof. intros s. exists []. simpl. rewrite app_nil_r. split; [reflexivity|apply noToolRun_nil]. Qed.

Lemma quiet_exit {A : Type} (code : nat) : quiet (W := W) (os_Exit (A := A) code).
Proof. apply quiet_halt. Qed.

Lemma quiet_print (text : string) : quiet (W := W) (fmt_Print text).
Proof.
  intros s. exists [Printed text]. split; [reflexivity|].
  intros ? ? ? ? ? Hin. simpl in Hin. intuition discriminate.
Qed.

Lemma quiet_bind {A B : Type} (m : Run W A) (k : A -> Run W B) :
  quiet m -> (forall a, quiet (k a)) -> quiet (bind m k).
Proof.
  intros Hm Hk s. unfold bind. destruct (Hm s) as (e1 & E1 & H1).
  destruct (m s) as [[a|stop] s1]; simpl in E1.
  - destruct (Hk a s1) as (e2 & E2 & H2). exists (e1 ++ e2)%list.
    rewrite E2, E1, app_assoc. split; [reflexivity|apply noToolRun_app; assumption].
  - exists e1. split; [exact E1|exact H1].
Qed.

Lemma quiet_WriteFile (path data : string) (perm : nat) : quiet (WriteFile path data perm).
Proof.
  intros s. unfold WriteFile.
  destruct (ioutil_WriteFile path data perm (world s)) as [err w'].
  eexists. split; [reflexivity|].
  intros ? ? ? ? ? Hin. simpl in Hin. intuition discriminate.
Qed.

Lemma quiet_fileExists (path : string) : quiet (fileExists path).
Proof.
  unfold fileExists. apply quiet_bind.
  - intros s. eexists. split; [reflexivity|].
    intros ? ? ? ? ? Hin. simpl in Hin. intuition discriminate.
  - intros [stat err]. unfold fileExistsOn. apply quiet_bind.
    + destruct (isNil err || negb (os_IsNotExist err)); [|apply quiet_ret].
      destruct stat; [apply quiet_ret|apply quiet_halt].
    + intros d. apply quiet_ret.
Qed.

Create HintDb quiet.
#[local] Hint Resolve quiet_ret quiet_halt quiet_exit quiet_print quiet_WriteFile
  quiet_fileExists : quiet.

Ltac quiet_steps :=
  repeat first
    [ solve [auto with quiet]
    | match goal with
      | |- quiet (match ?x with _ => _ end) => destruct x
      | |- quiet (if ?b then _ else _) => destruct b
      end
    | apply quiet_bind; [|intros] ].

Lemma quiet_licenseStep (inv : Extended.Invocation) (path name : string) :
  quiet (Extended.licenseStep inv path name).
Proof. unfold Extended.licenseStep. quiet_steps. Qed.

Lemma quiet_readmeStep (inv : Extended.Invocation) (path name : string) :
  quiet (Extended.readmeStep inv path name).
Proof. unfold Extended.readmeStep. quiet_steps. Qed.

Ltac no_tool_x :=
  left; intros ? ? ? ? ?; run_steps; cbn [In app]; intuition discriminate.

Ltac after_steps after Hafter :=
  match goal with
  | |- context [after ?p ?n ?s] =>
      let evs := fresh "evs" in
      let Et := fresh "Et" in
      let Hno := fresh "Hno" in
      destruct (Hafter p n s) as (evs & Et & Hno); exists evs;
      split; [cbn [trace snd fst] in Et |- *; exact Et|];
      split; [exact Hno|congruence]
  end.

Lemma extended_generation_tool_runs (after : string -> string -> Run W unit)
      (fuel : nat) (inv : Extended.Invocation) (w : W) :
  (forall path name, quiet (after path name)) ->
  forall r,
    r = bind (Extended.prepare fuel inv)
          (fun pn => match pn with
                     | (path, name) =>
                         bind (Extended.sourceStep inv path name)
                           (fun _ => after path name)
                     end) (start w) ->
    noToolRun (trace (snd r)) \/
    exists path name,
      packagePath fuel (Extended.GOPATH inv) (Extended.flag_Arg inv 0) = Some (path, name) /\
      toolRunShapeExtended path name r.
Proof.
  intros Hafter r ->.
  unfold Extended.prepare.
  destruct (Extended.flag_Args inv) as [|a0 rest] eqn:Eargs; [no_tool_x|].
  destruct (packagePath fuel (Extended.GOPATH inv) (Extended.flag_Arg inv 0))
    as [[path name]|] eqn:Epp; [|no_tool_x].
  unfold Extended.sourceStep. run_steps.
  destruct (os_MkdirAll path os_ModePerm w) as [[e|] w1] eqn:Emk; [no_tool_x|].
  run_steps.
  set (src := filepath_Join [path; name ++ ".go"]).
  set (data := Template_String _).
  destruct (os_Stat src w1) as [stat err] eqn:Est.
  destruct err as [e|]; [destruct (notExist e) eqn:Ene|]; destruct stat as [[d]|];
    run_steps; try solve [no_tool_x].
  all: try (destruct d; destruct (Extended.argOverwrite inv); run_steps;
            try solve [no_tool_x]).
  all: destruct (ioutil_WriteFile src data mode0664 w1) as [[e'|] w2] eqn:Ew; run_steps;
    try solve [no_tool_x].
  all: destruct (exec_CombinedOutput path "goimports" ["-w"; name ++ ".go"] w2)
    as [[out1 [e1|]] w3] eqn:Ex1; run_steps.
  all: try (destruct (exec_CombinedOutput path "go" ["mod"; "init"] w3)
    as [[out2 [e2|]] w4] eqn:Ex2; run_steps).
  all: right; exists path, name; split; [reflexivity|]; unfold toolRunShapeExtended;
    run_steps.
  all: match goal with |- context [Statted _ ?res] => exists res end;
    match goal with |- context [Ran _ "goimports" _ ?o ?e] => exists data, o, e end.
  all: first
    [ left; split; [discriminate|split; reflexivity]
    | right; split; [reflexivity|];
      match goal with |- context [Ran _ "go" _ ?o ?e] => exists o, e end ].
  all: first
    [ exists [Printed out2]; split; [reflexivity|]; split;
      [ intros ? ? ? ? ? Hin; simpl in Hin; intuition discriminate
      | intros _; split; reflexivity ]
    | after_steps after Hafter ].
Qed.

Lemma extended_main_tool_runs (fuel : nat) (inv : Extended.Invocation) (w : W) :
  noToolRun (trace (snd (Extended.main fuel inv (start w)))) \/
  exists path name,
    packagePath fuel (Extended.GOPATH inv) (Extended.flag_Arg inv 0) = Some (path, name) /\
    toolRunShapeExtended path name (Extended.main fuel inv (start w)).
Proof.
  unfold Extended.main.
  destruct (Extended.argChanges inv); [no_tool_x|].
  destruct (Extended.argVersion inv); [no_tool_x|].
  eapply (extended_generation_tool_runs
            (fun path name =>
               bind (Extended.licenseStep inv path name) (fun _ =>
               bind (Extended.readmeStep inv path name) (fun _ =>
               fmt_Print ("mkgo: successfully created "
                          ++ fmt_quote (Extended.flag_Arg inv 0) ++ ": " ++ path ++ nl))))).
  - intros path name. apply quiet_bind; [apply quiet_licenseStep|]. intros _.
    apply quiet_bind; [apply quiet_readmeStep|]. intros _. apply quiet_print.
  - reflexivity.
Qed.

(** In the extended variant too every tool event of a run comes after the
    write of the source file, the module tool after the formatting tool, and
    a failing tool ends the run. *)
Lemma extended_tool_events (fuel : nat) (inv : Extended.Invocation) (w : W)
      (pre post : list Event) (dir cmd : string) (arg : list string)
      (out : string) (err : option error) :
  trace (snd (Extended.main fuel inv (start w)))
  = (pre ++ Ran dir cmd arg out err :: post)%list ->
  exists path name data,
    packagePath fuel (Extended.GOPATH inv) (Extended.flag_Arg inv 0) = Some (path, name) /\
    dir = path /\
    In (Wrote (filepath_Join [path; name ++ ".go"]) data mode0664 None) pre /\
    ((cmd = "goimports" /\ arg = ["-w"; name ++ ".go"] /\
      noToolRun pre /\
      (err <> None ->
       post = [Printed out] /\ outcome (Extended.main fuel inv (start w)) = Exited 5))
     \/
     (cmd = "go" /\ arg = ["mod"; "init"] /\
      (exists out1, In (Ran path "goimports" ["-w"; name ++ ".go"] out1 None) pre) /\
      (err <> None ->
       post = [Printed out] /\ outcome (Extended.main fuel inv (start w)) = Exited 6))).
Proof.
  intros Htr.
  destruct (extended_main_tool_runs fuel inv w) as [Hno|(path & name & Hpp & Hshape)].
  - exfalso. apply (Hno dir cmd arg out err). rewrite Htr. apply in_elt.
  - exists path, name.
    destruct Hshape as (res & data & out1 & err1 & Hcases). exists data.
    split; [exact Hpp|]. cbv zeta in Hcases. cbn [app] in Hcases.
    destruct Hcases as [(Hne & Ht & Hout)|(-> & out2 & err2 & rest & Ht & Hrest & Hfail)];
      rewrite Ht in Htr.
    + repeat (apply split_cons_inv in Htr;
              destruct Htr as [(-> & Hev & Hpost)|(? & -> & Htr)];
              [try discriminate Hev|]).
      * inversion Hev; subst. split; [reflexivity|]. split; [simpl; auto|].
        left. repeat split; auto.
        intros d c a o e Hin. simpl in Hin. intuition discriminate.
      * apply split_nil_inv in Htr. contradiction.
    + do 4 (apply split_cons_inv in Htr;
            destruct Htr as [(-> & Hev & Hpost)|(? & -> & Htr)];
            [try discriminate Hev|]).
      * inversion Hev; subst. split; [reflexivity|]. split; [simpl; auto|].
        left. repeat split; auto.
        -- intros d c a o e Hin. simpl in Hin. intuition discriminate.
        -- congruence.
        -- congruence.
      * apply split_cons_inv in Htr.
        destruct Htr as [(-> & Hev & Hpost)|(pre' & -> & Htr)].
        -- inversion Hev; subst. split; [reflexivity|]. split; [simpl; auto|].
           right. repeat split; auto.
           ++ exists out1. simpl. auto.
           ++ destruct (Hfail H) as [Hr _]. exact Hr.
           ++ destruct (Hfail H) as [_ Ho]. exact Ho.
        -- exfalso. apply (Hrest dir cmd arg out err). rewrite Htr. apply in_elt.
Qed.

(** The result of a run of the extended variant in which a tool fails: the
    text printed is the combined output that the call of the tool returned. *)
Lemma extended_failing_tool_result (fuel : nat) (inv : Extended.Invocation) (w : W)
      (path name : string) (res : StatResult) (w1 w2 w3 : W)
      (out1 : string) (err1 : option error) :
  let src := filepath_Join [path; name ++ ".go"] in
  let data := Template_String
                (Extended.insert Extended.template (Extended.flag_Arg inv 0) name
                   (Extended.argMkDate inv) (Extended.argMkVersion inv)
                   (Extended.argUser inv)) in
  let written := [ MadeDir path os_ModePerm None; Statted src res;
                   Wrote src data mode0664 None ] in
  Extended.argChanges inv = false -> Extended.argVersion inv = false ->
  Extended.flag_Args inv <> [] ->
  packagePath fuel (Extended.GOPATH inv) (Extended.flag_Arg inv 0) = Some (path, name) ->
  os_MkdirAll path os_ModePerm w = (None, w1) ->
  os_Stat src w1 = res ->
  os_IsNotExist (snd res) = true \/
  (fst res = Some (mkFileInfo false) /\ Extended.argOverwrite inv = true) ->
  ioutil_WriteFile src data mode0664 w1 = (None, w2) ->
  exec_CombinedOutput path "goimports" ["-w"; name ++ ".go"] w2 = ((out1, err1), w3) ->
  (err1 <> None ->
   Extended.main fuel inv (start w)
   = (inr (Exited 5),
      mkState w3
        (app written
           [ Ran path "goimports" ["-w"; name ++ ".go"] out1 err1; Printed out1 ]))) /\
  (err1 = None ->
   forall (out2 : string) (err2 : option error) (w4 : W),
     exec_CombinedOutput path "go" ["mod"; "init"] w3 = ((out2, err2), w4) ->
     err2 <> None ->
     Extended.main fuel inv (start w)
     = (inr (Exited 6),
        mkState w4
          (app written
             [ Ran path "goimports" ["-w"; name ++ ".go"] out1 None;
               Ran path "go" ["mod"; "init"] out2 err2; Printed out2 ]))).
Proof.
  intros src data written Hc Hv Hargs Hpp Hmk Hst Hwr Hw Hx1.
  assert (Hmain : forall r s,
             Extended.sourceStep inv path name
               (mkState w1 [MadeDir path os_ModePerm None]) = (inr r, s) ->
             Extended.main fuel inv (start w) = (inr r, s)).
  { intros r s Hs. unfold Extended.main. rewrite Hc, Hv. unfold bind at 1.
    rewrite (extended_prepare_ok fuel inv (start w) path name w1) by assumption.
    cbn [start trace app]. unfold bind at 1. rewrite Hs. reflexivity. }
  assert (Hstep :
    (err1 <> None ->
     Extended.sourceStep inv path name (mkState w1 [MadeDir path os_ModePerm None])
     = (inr (Exited 5),
        mkState w3
          (app written
             [ Ran path "goimports" ["-w"; name ++ ".go"] out1 err1; Printed out1 ]))) /\
    (err1 = None ->
     forall (out2 : string) (err2 : option error) (w4 : W),
       exec_CombinedOutput path "go" ["mod"; "init"] w3 = ((out2, err2), w4) ->
       err2 <> None ->
       Extended.sourceStep inv path name (mkState w1 [MadeDir path os_ModePerm None])
       = (inr (Exited 6),
          mkState w4
            (app written
               [ Ran path "goimports" ["-w"; name ++ ".go"] out1 None;
                 Ran path "go" ["mod"; "init"] out2 err2; Printed out2 ])))).
  { unfold Extended.sourceStep. fold src. fold data. run_steps.
    subst res. subst written. destruct (os_Stat src w1) as [stat err].
    cbn [fst snd] in Hwr.
    assert (Hgo : (if negb (isNil err || negb (os_IsNotExist err))
                      || Extended.argOverwrite inv
                   then true else false) = true /\
                  (isNil err || negb (os_IsNotExist err) = true ->
                   stat = Some (mkFileInfo false))).
    { destruct Hwr as [Hne|[Hs Hf]].
      - destruct err as [e|]; [|discriminate Hne]. simpl in Hne. simpl. rewrite Hne.
        split; [reflexivity|discriminate].
      - rewrite Hf, orb_true_r. split; [reflexivity|intros _; exact Hs]. }
    destruct Hgo as [Hbranch Hstat]. revert Hbranch Hstat. run_steps.
    destruct err as [e|]; [destruct (notExist e)|]; run_steps;
      intros Hbranch Hstat; try rewrite (Hstat eq_refl);
      try (destruct (Extended.argOverwrite inv); [|discriminate Hbranch]).
    all: run_steps; rewrite Hw; run_steps; rewrite Hx1; run_steps.
    all: split;
      [ intros Hne; destruct err1 as [e1|]; [reflexivity|congruence]
      | intros ->; intros out2 err2 w4 Hx2 Hne; run_steps; rewrite Hx2;
        destruct err2 as [e2|]; [reflexivity|congruence] ]. }
  destruct Hstep as [H5 H6]. split.
  - intros Hne. apply Hmain. exact (H5 Hne).
  - intros He out2 err2 w4 Hx2 Hne. apply Hmain. exact (H6 He out2 err2 w4 Hx2 Hne).
Qed.

(** X22.  In the extended variant too a tool is run only after the source
    file has been written without error, and in the directory of the module;
    the formatting tool comes first and the module tool only after the
    formatting tool succeeded.  When either tool fails the run prints the
    captured output of the tool and ends, with exit code 5 or 6, before the
    license and the readme steps: the text printed is the combined output
    that the call of the tool returned, and nothing follows it. *)
Theorem extended_tools_follow_write (fuel : nat) (inv : Extended.Invocation) (w : W) :
  (forall (pre post : list Event) (dir cmd : string) (arg : list string)
          (out : string) (err : option error),
      trace (snd (Extended.main fuel inv (start w)))
      = (pre ++ Ran dir cmd arg out err :: post)%list ->
      exists path name data,
        packagePath fuel (Extended.GOPATH inv) (Extended.flag_Arg inv 0)
        = Some (path, name) /\
        dir = path /\
        In (Wrote (filepath_Join [path; name ++ ".go"]) data mode0664 None) pre /\
        ((cmd = "goimports" /\ arg = ["-w"; name ++ ".go"] /\
          noToolRun pre /\
          (err <> None ->
           post = [Printed out] /\
           outcome (Extended.main fuel inv (start w)) = Exited 5))
         \/
         (cmd = "go" /\ arg = ["mod"; "init"] /\
          (exists out1, In (Ran path "goimports" ["-w"; name ++ ".go"] out1 None) pre) /\
          (err <> None ->
           post = [Printed out] /\
           outcome (Extended.main fuel inv (start w)) = Exited 6)))) /\
  (forall (path name : string) (res : StatResult) (w1 w2 w3 : W)
          (out1 : string) (err1 : option error),
      let src := filepath_Join [path; name ++ ".go"] in
      let data := Template_String
                    (Extended.insert Extended.template (Extended.flag_Arg inv 0) name
                       (Extended.argMkDate inv) (Extended.argMkVersion inv)
                       (Extended.argUser inv)) in
      let written := [ MadeDir path os_ModePerm None; Statted src res;
                       Wrote src data mode0664 None ] in
      Extended.argChanges inv = false -> Extended.argVersion inv = false ->
      Extended.flag_Args inv <> [] ->
      packagePath fuel (Extended.GOPATH inv) (Extended.flag_Arg inv 0)
      = Some (path, name) ->
      os_MkdirAll path os_ModePerm w = (None, w1) ->
      os_Stat src w1 = res ->
      os_IsNotExist (snd res) = true \/
      (fst res = Some (mkFileInfo false) /\ Extended.argOverwrite inv = true) ->
      ioutil_WriteFile src data mode0664 w1 = (None, w2) ->
      exec_CombinedOutput path "goimports" ["-w"; name ++ ".go"] w2 = ((out1, err1), w3) ->
      (err1 <> None ->
       Extended.main fuel inv (start w)
       = (inr (Exited 5),
          mkState w3
            (app written
               [ Ran path "goimports" ["-w"; name ++ ".go"] out1 err1; Printed out1 ]))) /\
      (err1 = None ->
       forall (out2 : string) (err2 : option error) (w4 : W),
         exec_CombinedOutput path "go" ["mod"; "init"] w3 = ((out2, err2), w4) ->
         err2 <> None ->
         Extended.main fuel inv (start w)
         = (inr (Exited 6),
            mkState w4
              (app written
                 [ Ran path "goimports" ["-w"; name ++ ".go"] out1 None;
                   Ran path "go" ["mod"; "init"] out2 err2; Printed out2 ])))).
Proof.
  split.
  - intros pre post dir cmd arg out err. apply extended_tool_events.
  - intros path name res w1 w2 w3 out1 err1. apply extended_failing_tool_result.
Qed.

End ToolsExtended.

(** ** The end-to-end scenarios *)

(** The identifier [example.com/acme/tool] under [/home/u/go] on an empty
    disk: the directory is made, [tool.go] written, both tools run, and the
    run ends with the confirmation line and exit code 0. *)
Example scenario_fresh_module :
  outcome (Basic.main 22 (scenarioBasic false false) (start emptyDisk)) = Exited 0 /\
  map (fun e => match e with
                | Printed _ => "print"
                | MadeDir p _ _ => "mkdir " ++ p
                | Statted p _ => "stat " ++ p
                | Wrote p _ _ _ => "write " ++ p
                | Ran _ cmd _ _ _ => "run " ++ cmd
                end)
      (trace (snd (Basic.main 22 (scenarioBasic false false) (start emptyDisk))))
  = [ "mkdir /home/u/go/src/example.com/acme/tool";
      "stat /home/u/go/src/example.com/acme/tool/tool.go";
      "write /home/u/go/src/example.com/acme/tool/tool.go";
      "run goimports"; "run go"; "print" ] /\
  last (trace (snd (Basic.main 22 (scenarioBasic false false) (start emptyDisk))))
       (Printed EmptyString)
  = Printed ("mkgo: successfully created " ++ dq ++ "example.com/acme/tool" ++ dq
             ++ ": /home/u/go/src/example.com/acme/tool" ++ nl).
Proof. repeat split. Qed.

(** With the force flag, an existing [tool.go] is written anew. *)
Example scenario_forced_overwrite :
  outcome (Basic.main 22 (scenarioBasic false true) (start diskWithSource)) = Exited 0 /\
  lookupNode
    (nodes (world (snd (Basic.main 22 (scenarioBasic false true) (start diskWithSource)))))
    (toolDir ++ "/tool.go")
  = Some (RegularFile
            (Template_String (Basic.insert Basic.template "tool" "2020 Oct 10" "0.1.0"))).
Proof. repeat split. Qed.

(** An unknown license: exit code 8, after the source file has been written. *)
Example scenario_unknown_license :
  outcome (Extended.main 22 (scenarioExtended false true "UNKNOWN" false) (start emptyDisk))
  = Exited 8 /\
  lookupNode
    (nodes (world (snd (Extended.main 22 (scenarioExtended false true "UNKNOWN" false)
                          (start emptyDisk)))))
    (toolDir ++ "/tool.go") <> None.
Proof. repeat split; vm_compute; discriminate. Qed.

(** ** [strings.ReplaceAll] *)

Lemma prefix_append (a b : string) : hasPrefix a (a ++ b) = true.
Proof.
  induction a as [|c a IH]; simpl; [reflexivity|].
  rewrite Ascii.eqb_refl. exact IH.
Qed.

(** A prefix of [a ++ b] lies in [a], or [a] is its beginning and the rest
    of it begins [b]. *)
Lemma prefix_split (old a b : string) :
  hasPrefix old (a ++ b) = true ->
  hasPrefix old a = true \/
  exists o2, old = a ++ o2 /\ o2 <> EmptyString /\ hasPrefix o2 b = true.
Proof.
  revert old. induction a as [|x a IH]; intros old H.
  - destruct old as [|y o]; [left; reflexivity|].
    right. exists (String y o). repeat split; [discriminate|exact H].
  - destruct old as [|y o]; [left; reflexivity|].
    simpl in H. simpl. destruct (Ascii.eqb_spec y x) as [->|]; [|discriminate].
    simpl in H.
    destruct (IH o H) as [Hl|(o2 & -> & Hne & Hp)]; [left; exact Hl|].
    right. exists o2. repeat split; assumption.
Qed.

Lemma replaceFrom_pass (old new a s : string) :
  replaceFrom old new (String.length a) (a ++ s) = replaceFrom old new 0 s.
Proof. induction a as [|c a IH]; simpl; [destruct s; reflexivity|exact IH]. Qed.

Lemma replaceFrom_hit (old new R : string) :
  old <> EmptyString ->
  replaceFrom old new 0 (old ++ R) = new ++ replaceFrom old new 0 R.
Proof.
  intros Hne. destruct old as [|c o]; [congruence|].
  change (String c o ++ R) with (String c (o ++ R)).
  cbn [replaceFrom].
  change (String c (o ++ R)) with (String c o ++ R).
  rewrite prefix_append.
  replace (String.length (String c o) - 1) with (String.length o) by (simpl; lia).
  rewrite replaceFrom_pass. reflexivity.
Qed.

Lemma noStartInside_tail (old : string) (c : ascii) (s R : string) :
  noStartInside old (String c s) R -> noStartInside old s R.
Proof. intros H s1 s2 E. apply (H (String c s1) s2). simpl. rewrite E. reflexivity. Qed.

Lemma replaceFrom_inert (old new s R : string) :
  noStartInside old s R ->
  replaceFrom old new 0 (s ++ R) = s ++ replaceFrom old new 0 R.
Proof.
  induction s as [|c s IH]; intros H; [reflexivity|].
  change (String c s ++ R) with (String c (s ++ R)).
  cbn [replaceFrom].
  change (String c (s ++ R)) with (String c s ++ R).
  rewrite (H EmptyString (String c s) eq_refl) by discriminate.
  rewrite IH by (eapply noStartInside_tail; exact H). reflexivity.
Qed.

Lemma contains_inert (old s R : string) :
  noStartInside old s R -> contains old (s ++ R) = contains old R.
Proof.
  induction s as [|c s IH]; intros H; [reflexivity|].
  change (String c s ++ R) with (String c (s ++ R)).
  cbn [contains].
  change (String c (s ++ R)) with (String c s ++ R).
  rewrite (H EmptyString (String c s) eq_refl) by discriminate.
  rewrite IH by (eapply noStartInside_tail; exact H). reflexivity.
Qed.

Lemma contains_prefix (old s : string) :
  hasPrefix old s = true -> contains old s = true.
Proof. intros H. destruct s; simpl; [exact H|rewrite H; reflexivity]. Qed.

Lemma contains_suffix (old s1 s2 : string) :
  contains old (s1 ++ s2) = false -> contains old s2 = false.
Proof.
  induction s1 as [|c s1 IH]; intros H; [exact H|].
  simpl in H. apply orb_false_iff in H. destruct H as [_ H]. exact (IH H).
Qed.

Lemma contains_prefix_false (old s1 s2 : string) :
  contains old (s1 ++ s2) = false -> hasPrefix old s2 = false.
Proof.
  intros H. apply contains_suffix in H.
  destruct (hasPrefix old s2) eqn:E; [|reflexivity].
  rewrite (contains_prefix _ _ E) in H. discriminate.
Qed.

(** ** Delimiters *)

Lemma noDelim_append (a b : string) : noDelim (a ++ b) = noDelim a && noDelim b.
Proof.
  induction a as [|c a IH]; simpl; [reflexivity|]. rewrite IH, andb_assoc. reflexivity.
Qed.

Lemma startsDelim_noDelim (s : string) : startsDelim s = true -> noDelim s = false.
Proof. destruct s as [|c s]; simpl; [discriminate|]. intros ->. reflexivity. Qed.

Lemma endsDelim_noDelim (s : string) : endsDelim s = true -> noDelim s = false.
Proof.
  induction s as [|c s IH]; [discriminate|].
  cbn [endsDelim noDelim]. destruct s as [|c' s'].
  - intros ->. reflexivity.
  - intros H. rewrite (IH H). apply andb_false_r.
Qed.

Lemma endsDelim_suffix (s1 s2 : string) :
  s2 <> EmptyString -> endsDelim (s1 ++ s2) = true -> endsDelim s2 = true.
Proof.
  intros Hne. induction s1 as [|c s1 IH]; [auto|].
  change (String c s1 ++ s2) with (String c (s1 ++ s2)). cbn [endsDelim].
  destruct (s1 ++ s2) as [|c' r] eqn:E.
  - destruct s1; [simpl in E; congruence|discriminate].
  - exact IH.
Qed.

Lemma prefix_startsDelim (o R : string) :
  o <> EmptyString -> hasPrefix o R = true -> startsDelim R = true ->
  startsDelim o = true.
Proof.
  destruct o as [|y o]; [congruence|]. intros _.
  destruct R as [|x R]; simpl; [discriminate|].
  destruct (Ascii.eqb_spec y x) as [->|]; [auto|discriminate].
Qed.

Lemma prefix_nil (o : string) :
  hasPrefix o EmptyString = true -> o = EmptyString.
Proof. destruct o; [reflexivity|discriminate]. Qed.

(** Text without occurrence of [old] is inert when a delimiter stands where
    it meets what follows, or when nothing follows. *)
Lemma inert_segment (old s R : string) :
  noDelim old = true -> contains old s = false ->
  R = EmptyString \/ startsDelim R = true \/ endsDelim s = true ->
  noStartInside old s R.
Proof.
  intros Hold Hs Hb s1 s2 E Hne.
  destruct (hasPrefix old (s2 ++ R)) eqn:Hp; [exfalso|reflexivity].
  destruct (prefix_split old s2 R Hp) as [Hin|(o2 & Eo & Ho2 & Hp2)].
  - subst s. rewrite (contains_prefix_false old s1 s2 Hs) in Hin. discriminate.
  - rewrite Eo, noDelim_append in Hold. apply andb_prop in Hold.
    destruct Hold as [H2 Ho].
    destruct Hb as [->|[Hb|Hb]].
    + apply prefix_nil in Hp2. contradiction.
    + rewrite (startsDelim_noDelim o2) in Ho; [discriminate|].
      eapply prefix_startsDelim; eassumption.
    + subst s. rewrite (endsDelim_noDelim s2) in H2; [discriminate|].
      eapply endsDelim_suffix; eassumption.
Qed.

(** ** Rendering delimited lines *)

Lemma sentinel_noDelim (t : Token) : noDelim (sentinel t) = true.
Proof. destruct t; reflexivity. Qed.

Lemma sentinel_nonEmpty (t : Token) : sentinel t <> EmptyString.
Proof. destruct t; discriminate. Qed.

Lemma Token_eqb_eq (a b : Token) : Token_eqb a b = true -> a = b.
Proof. destruct a, b; simpl; congruence. Qed.

Lemma Token_eqb_refl (a : Token) : Token_eqb a a = true.
Proof. destruct a; reflexivity. Qed.

Lemma sentinel_other (t t' : Token) :
  Token_eqb t t' = false -> contains (sentinel t) (sentinel t') = false.
Proof. destruct t, t'; simpl Token_eqb; intros H; try discriminate H; reflexivity. Qed.

Lemma noSentinel_contains (s : string) (t : Token) :
  noSentinel s = true -> contains (sentinel t) s = false.
Proof.
  unfold noSentinel. rewrite forallb_forall. intros H.
  apply negb_true_iff. apply H. destruct t; simpl; auto 6.
Qed.

Lemma strings_ReplaceAll_sentinel (s : string) (t : Token) (v : string) :
  strings_ReplaceAll s (sentinel t) v = replaceFrom (sentinel t) v 0 s.
Proof. destruct t; reflexivity. Qed.

Lemma startsDelim_append (a b : string) :
  startsDelim a = true -> startsDelim (a ++ b) = true.
Proof. destruct a; [discriminate|auto]. Qed.

Lemma field_inert (t : Token) (f : Field) (R : string) :
  okField f = true ->
  match f with Hole t' => Token_eqb t t' = false | Filled _ => True end ->
  R = EmptyString \/ startsDelim R = true ->
  noStartInside (sentinel t) (fieldText f) R.
Proof.
  intros Hok Hf HR. apply inert_segment.
  - apply sentinel_noDelim.
  - destruct f as [t'|w]; simpl.
    + apply sentinel_other. exact Hf.
    + apply noSentinel_contains. exact Hok.
  - destruct HR; auto.
Qed.

Lemma literal_inert (t : Token) (l R : string) :
  noSentinel l = true -> R = EmptyString \/ endsDelim l = true ->
  noStartInside (sentinel t) l R.
Proof.
  intros Hl HR. apply inert_segment.
  - apply sentinel_noDelim.
  - apply noSentinel_contains. exact Hl.
  - destruct HR; auto.
Qed.

(** What follows a field in a delimited list starts with a delimiter or is
    empty, and the literal text is inert before the rest of the fields. *)
Lemma delimitedFields_cons (f : Field) (l : string) (rest : list (Field * string)) :
  delimitedFields ((f, l) :: rest) = true ->
  okField f = true /\ noSentinel l = true /\
  (l ++ fieldsText rest = EmptyString \/ startsDelim (l ++ fieldsText rest) = true) /\
  (fieldsText rest = EmptyString \/ endsDelim l = true) /\
  delimitedFields rest = true.
Proof.
  cbn [delimitedFields]. intros H.
  apply andb_prop in H. destruct H as [H Hrest].
  apply andb_prop in H. destruct H as [Hok Hl].
  split; [exact Hok|]. split; [exact Hl|].
  destruct rest as [|fl rest'].
  - split; [|split; [left; reflexivity|reflexivity]].
    apply orb_prop in Hrest. destruct Hrest as [He|Hs].
    + left. apply negb_true_iff, nonEmpty_false in He. subst l. reflexivity.
    + right. apply startsDelim_append. exact Hs.
  - apply andb_prop in Hrest. destruct Hrest as [Hse Hd].
    apply andb_prop in Hse. destruct Hse as [Hs He].
    split; [right; apply startsDelim_append; exact Hs|].
    split; [right; exact He|exact Hd].
Qed.

Lemma replace_fields (t : Token) (v : string) (fs : list (Field * string)) :
  delimitedFields fs = true ->
  replaceFrom (sentinel t) v 0 (fieldsText fs) = fieldsText (fillFields (single t v) fs).
Proof.
  induction fs as [|[f l] rest IH]; intros Hd; [reflexivity|].
  destruct (delimitedFields_cons f l rest Hd) as (Hok & Hl & Hafter & Hend & Hrest).
  cbn [fillFields map fieldsText fst snd].
  assert (Hlit : replaceFrom (sentinel t) v 0 (l ++ fieldsText rest)
                 = l ++ fieldsText (fillFields (single t v) rest)).
  { rewrite replaceFrom_inert by (apply literal_inert; assumption).
    rewrite IH by exact Hrest. reflexivity. }
  destruct f as [t'|w].
  - unfold renderField, single. destruct (Token_eqb t t') eqn:E.
    + apply Token_eqb_eq in E. subst t'. cbn [fieldText].
      rewrite replaceFrom_hit by apply sentinel_nonEmpty.
      rewrite Hlit. reflexivity.
    + rewrite replaceFrom_inert by (apply field_inert; assumption).
      rewrite Hlit. reflexivity.
  - cbn [renderField].
    rewrite replaceFrom_inert by (apply field_inert; auto).
    rewrite Hlit. reflexivity.
Qed.

Lemma delimited_parts (L : Line) :
  delimited L = true ->
  noSentinel (lead L) = true /\
  (fieldsText (fields L) = EmptyString \/ lead L = EmptyString \/ endsDelim (lead L) = true) /\
  delimitedFields (fields L) = true.
Proof.
  unfold delimited. intros H.
  apply andb_prop in H. destruct H as [H Hf].
  apply andb_prop in H. destruct H as [Hl Hb].
  split; [exact Hl|]. split; [|exact Hf].
  destruct (fields L); [left; reflexivity|].
  apply orb_prop in Hb. destruct Hb as [He|He].
  - right. left. apply negb_true_iff, nonEmpty_false in He. exact He.
  - right. right. exact He.
Qed.

Lemma lead_inert (t : Token) (L : Line) :
  delimited L = true -> noStartInside (sentinel t) (lead L) (fieldsText (fields L)).
Proof.
  intros Hd. destruct (delimited_parts L Hd) as (Hl & [Hb|[Hb|Hb]] & _).
  - apply literal_inert; auto.
  - rewrite Hb. intros s1 s2 E Hne. destruct s1; simpl in E; congruence.
  - apply literal_inert; auto.
Qed.

(** One pass of [strings.ReplaceAll] over a delimited line fills the
    placeholders of its token and nothing else. *)
Lemma replace_line (t : Token) (v : string) (L : Line) :
  delimited L = true ->
  strings_ReplaceAll (lineText L) (sentinel t) v = lineText (renderLine (single t v) L).
Proof.
  intros Hd. rewrite strings_ReplaceAll_sentinel. unfold lineText.
  rewrite replaceFrom_inert by (apply lead_inert; exact Hd).
  destruct (delimited_parts L Hd) as (_ & _ & Hf).
  rewrite replace_fields by exact Hf. reflexivity.
Qed.

Lemma okField_render (ctx : Context) (f : Field) :
  (forall t v, ctx t = Some v -> noSentinel v = true) ->
  okField f = true -> okField (renderField ctx f) = true.
Proof.
  intros Hctx Hok. destruct f as [t|w]; [|exact Hok].
  simpl. destruct (ctx t) as [v|] eqn:E; [exact (Hctx t v E)|reflexivity].
Qed.

Lemma delimitedFields_render (ctx : Context) (fs : list (Field * string)) :
  (forall t v, ctx t = Some v -> noSentinel v = true) ->
  delimitedFields fs = true -> delimitedFields (fillFields ctx fs) = true.
Proof.
  intros Hctx. induction fs as [|[f l] rest IH]; intros Hd; [reflexivity|].
  cbn [delimitedFields] in Hd.
  apply andb_prop in Hd. destruct Hd as [H Hrest].
  apply andb_prop in H. destruct H as [Hok Hl].
  cbn [fillFields map delimitedFields fst snd].
  rewrite (okField_render ctx f Hctx Hok), Hl. cbn [andb].
  destruct rest as [|fl rest']; [exact Hrest|].
  apply andb_prop in Hrest. destruct Hrest as [Hse Hd].
  rewrite Hse. cbn [andb map]. exact (IH Hd).
Qed.

Lemma delimited_render (ctx : Context) (L : Line) :
  (forall t v, ctx t = Some v -> noSentinel v = true) ->
  delimited L = true -> delimited (renderLine ctx L) = true.
Proof.
  intros Hctx Hd. unfold delimited in *.
  apply andb_prop in Hd. destruct Hd as [H Hf].
  apply andb_prop in H. destruct H as [Hl Hb].
  cbn [renderLine lead fields]. rewrite Hl.
  pose proof (delimitedFields_render ctx (fields L) Hctx Hf) as Hf'.
  unfold fillFields in Hf'. rewrite Hf'.
  destruct (fields L); [reflexivity|]. cbn [map]. rewrite Hb. reflexivity.
Qed.

Lemma single_noSentinel (t0 : Token) (v0 : string) :
  noSentinel v0 = true -> forall t v, single t0 v0 t = Some v -> noSentinel v = true.
Proof.
  intros H t v. unfold single. destruct (Token_eqb t0 t); congruence.
Qed.

(** No sentinel of a token without placeholder occurs in a delimited line. *)
Lemma contains_fields (t : Token) (fs : list (Field * string)) :
  delimitedFields fs = true ->
  forallb (fun fl => match fst fl with
                     | Hole t' => negb (Token_eqb t t')
                     | Filled _ => true
                     end) fs = true ->
  contains (sentinel t) (fieldsText fs) = false.
Proof.
  induction fs as [|[f l] rest IH]; intros Hd Hh.
  - destruct t; reflexivity.
  - destruct (delimitedFields_cons f l rest Hd) as (Hok & Hl & Hafter & Hend & Hrest).
    cbn [forallb fst] in Hh. apply andb_prop in Hh. destruct Hh as [Hf Hh].
    cbn [fieldsText].
    rewrite contains_inert.
    + rewrite contains_inert by (apply literal_inert; assumption).
      exact (IH Hrest Hh).
    + apply field_inert; try assumption.
      destruct f; [apply negb_true_iff; exact Hf|exact I].
Qed.

Lemma contains_line (t : Token) (L : Line) :
  delimited L = true -> holeFree t L = true ->
  contains (sentinel t) (lineText L) = false.
Proof.
  intros Hd Hh. unfold lineText.
  rewrite contains_inert by (apply lead_inert; exact Hd).
  destruct (delimited_parts L Hd) as (_ & _ & Hf).
  apply contains_fields; assumption.
Qed.

Lemma holeFree_render (ctx : Context) (t : Token) (L : Line) :
  ctx t <> None -> holeFree t (renderLine ctx L) = true.
Proof.
  intros Hc. unfold holeFree. cbn [renderLine fields].
  rewrite forallb_forall. intros fl Hin. apply in_map_iff in Hin.
  destruct Hin as ([f l] & <- & _). cbn [fst].
  destruct f as [t'|w]; [|reflexivity]. simpl.
  destruct (ctx t') eqn:E; [reflexivity|].
  apply negb_true_iff. destruct (Token_eqb t t') eqn:Et; [|reflexivity].
  apply Token_eqb_eq in Et. subst t'. congruence.
Qed.

(** The text of the rendered lines, joined by newlines, holds no sentinel
    that the lines do not hold. *)
Lemma contains_joined (t : Token) (lines : list string) :
  Forall (fun s => contains (sentinel t) s = false) lines ->
  contains (sentinel t) (Template_String lines) = false.
Proof.
  unfold Template_String. induction lines as [|s rest IH]; intros H.
  - destruct t; reflexivity.
  - inversion H as [|? ? Hs Hrest]; subst.
    destruct rest as [|s' rest']; [exact Hs|].
    change (strings_Join (s :: s' :: rest') nl)
      with (s ++ nl ++ strings_Join (s' :: rest') nl).
    rewrite contains_inert.
    + rewrite contains_inert; [exact (IH Hrest)|].
      apply inert_segment; [apply sentinel_noDelim|destruct t; reflexivity|].
      right; right; reflexivity.
    + apply inert_segment; [apply sentinel_noDelim|exact Hs|].
      right; left; reflexivity.
Qed.

(** ** [insert] on delimited templates *)

Lemma renderLine_compose (c1 c2 c : Context) (L : Line) :
  (forall f, renderField c2 (renderField c1 f) = renderField c f) ->
  renderLine c2 (renderLine c1 L) = renderLine c L.
Proof.
  intros H. unfold renderLine. cbn [lead fields]. f_equal.
  rewrite map_map. apply map_ext. intros [f l]. cbn [fst snd]. rewrite H. reflexivity.
Qed.

Lemma basicContext_passes (name date version : string) (f : Field) :
  renderField (single VERSION version)
    (renderField (single DATE date) (renderField (single NAME name) f))
  = renderField (basicContext name date version) f.
Proof. destruct f as [t|w]; [destruct t|]; reflexivity. Qed.

Lemma extendedContext_passes (path name date version user : string) (f : Field) :
  renderField (single USER user)
    (renderField (single VERSION version)
       (renderField (single DATE date)
          (renderField (single NAME name) (renderField (single IMPORT path) f))))
  = renderField (extendedContext path name date version user) f.
Proof. destruct f as [t|w]; [destruct t|]; reflexivity. Qed.

Lemma basic_insert_line (name date version : string) (L : Line) :
  delimited L = true ->
  noSentinel name = true -> noSentinel date = true -> noSentinel version = true ->
  strings_ReplaceAll
    (strings_ReplaceAll (strings_ReplaceAll (lineText L) "__NAME__" name) "__DATE__" date)
    "__VERSION__" version
  = lineText (renderLine (basicContext name date version) L).
Proof.
  intros Hd Hn Hda Hv.
  change "__NAME__" with (sentinel NAME). change "__DATE__" with (sentinel DATE).
  change "__VERSION__" with (sentinel VERSION).
  assert (H1 : delimited (renderLine (single NAME name) L) = true)
    by (apply delimited_render; [apply single_noSentinel|]; assumption).
  assert (H2 : delimited (renderLine (single DATE date) (renderLine (single NAME name) L))
               = true)
    by (apply delimited_render; [apply single_noSentinel|]; assumption).
  rewrite (replace_line NAME name L Hd), (replace_line DATE date _ H1),
    (replace_line VERSION version _ H2).
  f_equal. unfold renderLine. cbn [lead fields]. f_equal.
  rewrite !map_map. apply map_ext. intros [f l]. cbn [fst snd].
  rewrite basicContext_passes. reflexivity.
Qed.

Lemma extended_insert_line (path name date version user : string) (L : Line) :
  delimited L = true ->
  noSentinel path = true -> noSentinel name = true -> noSentinel date = true ->
  noSentinel version = true -> noSentinel user = true ->
  strings_ReplaceAll
    (strings_ReplaceAll
       (strings_ReplaceAll
          (strings_ReplaceAll (strings_ReplaceAll (lineText L) "__IMPORT__" path)
             "__NAME__" name)
          "__DATE__" date)
       "__VERSION__" version)
    "__USER__" user
  = lineText (renderLine (extendedContext path name date version user) L).
Proof.
  intros Hd Hp Hn Hda Hv Hu.
  change "__IMPORT__" with (sentinel IMPORT).
  change "__NAME__" with (sentinel NAME). change "__DATE__" with (sentinel DATE).
  change "__VERSION__" with (sentinel VERSION). change "__USER__" with (sentinel USER).
  set (L1 := renderLine (single IMPORT path) L).
  set (L2 := renderLine (single NAME name) L1).
  set (L3 := renderLine (single DATE date) L2).
  set (L4 := renderLine (single VERSION version) L3).
  assert (H1 : delimited L1 = true)
    by (apply delimited_render; [apply single_noSentinel|]; assumption).
  assert (H2 : delimited L2 = true)
    by (apply delimited_render; [apply single_noSentinel|]; assumption).
  assert (H3 : delimited L3 = true)
    by (apply delimited_render; [apply single_noSentinel|]; assumption).
  assert (H4 : delimited L4 = true)
    by (apply delimited_render; [apply single_noSentinel|]; assumption).
  rewrite (replace_line IMPORT path L Hd). fold L1.
  rewrite (replace_line NAME name L1 H1). fold L2.
  rewrite (replace_line DATE date L2 H2). fold L3.
  rewrite (replace_line VERSION version L3 H3). fold L4.
  rewrite (replace_line USER user L4 H4).
  f_equal. unfold L4, L3, L2, L1, renderLine. cbn [lead fields]. f_equal.
  rewrite !map_map. apply map_ext. intros [f l]. cbn [fst snd].
  rewrite extendedContext_passes. reflexivity.
Qed.

Lemma render_no_sentinel (ctx : Context) (t : Token) (lines : list Line) :
  forallb delimited lines = true ->
  (forall t' v, ctx t' = Some v -> noSentinel v = true) ->
  ctx t <> None ->
  contains (sentinel t) (Template_String (render ctx lines)) = false.
Proof.
  intros Hd Hctx Ht. apply contains_joined. unfold render.
  rewrite Forall_forall. intros s Hin. apply in_map_iff in Hin.
  destruct Hin as (L & <- & HL).
  rewrite forallb_forall in Hd.
  apply contains_line.
  - apply delimited_render; [exact Hctx|]. apply Hd. exact HL.
  - apply holeFree_render. exact Ht.
Qed.

(** C5 (as amended).  For every template whose lines are delimited, and for
    values that hold no sentinel, [insert] is rendering: every placeholder of
    a supplied token is replaced by the value, the rest of the text and the
    placeholders of the other tokens are as they were, and the text written
    out holds no sentinel of a supplied token.  This holds of the three
    tokens of the basic variant and of the five tokens of the extended one. *)
Theorem insert_renders_delimited (lines : list Line)
        (path name date version user : string) :
  forallb delimited lines = true ->
  noSentinel path = true -> noSentinel name = true -> noSentinel date = true ->
  noSentinel version = true -> noSentinel user = true ->
  (Basic.insert (map lineText lines) name date version
   = render (basicContext name date version) lines /\
   forall t, In t [NAME; DATE; VERSION] ->
     contains (sentinel t)
       (Template_String (Basic.insert (map lineText lines) name date version)) = false) /\
  (Extended.insert (map lineText lines) path name date version user
   = render (extendedContext path name date version user) lines /\
   forall t,
     contains (sentinel t)
       (Template_String (Extended.insert (map lineText lines) path name date version user))
     = false).
Proof.
  intros Hd Hp Hn Hda Hv Hu.
  assert (Hb : Basic.insert (map lineText lines) name date version
               = render (basicContext name date version) lines).
  { unfold Basic.insert, render. rewrite map_map. apply map_ext_in.
    intros L HL. rewrite forallb_forall in Hd.
    apply basic_insert_line; auto. }
  assert (Hx : Extended.insert (map lineText lines) path name date version user
               = render (extendedContext path name date version user) lines).
  { unfold Extended.insert, render. rewrite map_map. apply map_ext_in.
    intros L HL. rewrite forallb_forall in Hd.
    apply extended_insert_line; auto. }
  split; split; try assumption.
  - intros t Ht. rewrite Hb. apply render_no_sentinel; [exact Hd| |].
    + intros t' v. destruct t'; simpl; congruence.
    + simpl in Ht. destruct Ht as [<-|[<-|[<-|[]]]]; discriminate.
  - intros t. rewrite Hx. apply render_no_sentinel; [exact Hd| |].
    + intros t' v. destruct t'; simpl; congruence.
    + destruct t; discriminate.
Qed.

(** The templates of the program are delimited, and reading them loses
    nothing. *)
Lemma compiled_templates_delimited :
  forallb delimited (map parseLine Basic.template) = true /\
  map lineText (map parseLine Basic.template) = Basic.template /\
  forallb delimited (map parseLine Extended.template) = true /\
  map lineText (map parseLine Extended.template) = Extended.template /\
  forallb delimited (map parseLine Extended.licenseMIT) = true /\
  map lineText (map parseLine Extended.licenseMIT) = Extended.licenseMIT /\
  forallb delimited (map parseLine Extended.readme) = true /\
  map lineText (map parseLine Extended.readme) = Extended.readme.
Proof. repeat split; vm_compute; reflexivity. Qed.

Lemma insert_renders_delimited_witness :
  Basic.insert Basic.template "tool" "2020 Oct 10" "0.1.0"
  = render (basicContext "tool" "2020 Oct 10" "0.1.0") (map parseLine Basic.template) /\
  Extended.insert Extended.readme "example.com/acme/tool" "tool" "2020 Oct 10" "0.1.0" "u"
  = render (extendedContext "example.com/acme/tool" "tool" "2020 Oct 10" "0.1.0" "u")
      (map parseLine Extended.readme).
Proof.
  split.
  - exact (proj1 (proj1 (insert_renders_delimited (map parseLine Basic.template)
                           "example.com/acme/tool" "tool" "2020 Oct 10" "0.1.0" "u"
                           eq_refl eq_refl eq_refl eq_refl eq_refl eq_refl))).
  - exact (proj1 (proj2 (insert_renders_delimited (map parseLine Extended.readme)
                           "example.com/acme/tool" "tool" "2020 Oct 10" "0.1.0" "u"
                           eq_refl eq_refl eq_refl eq_refl eq_refl eq_refl))).
Defined.

(** C5 as stated fails.  The value [M] holds no sentinel, yet the line
    [__NA__NAME__E__] renders to the sentinel [__NAME__] itself; and in the
    line [__USER__NAME__] the sentinel of [USER], a token that the basic
    variant does not supply, does not stay as it was. *)
Lemma insert_counterexample :
  noSentinel "M" = true /\ noSentinel "D" = true /\ noSentinel "V" = true /\
  Basic.insert ["__NA__NAME__E__"] "M" "D" "V" = ["__NAME__"] /\
  contains "__NAME__" (Template_String (Basic.insert ["__NA__NAME__E__"] "M" "D" "V")) = true /\
  contains "__USER__" "__USER__NAME__" = true /\
  contains "__USER__" (Template_String (Basic.insert ["__USER__NAME__"] "M" "D" "V")) = false.
Proof. repeat split. Qed.

(** * Further properties *)

(** ** The path resolver *)

Lemma filepath_Split_file (c : string) :
  slashFree c = true -> filepath_Split c = (EmptyString, c).
Proof.
  induction c as [|a c IH]; [reflexivity|]. simpl. intros H.
  apply andb_prop in H. destruct H as [Ha Hc]. apply negb_true_iff in Ha.
  rewrite (IH Hc), Ha. reflexivity.
Qed.

Lemma filepath_Split_dir_file (x c : string) :
  slashFree c = true -> filepath_Split (x ++ "/" ++ c) = (x ++ "/", c).
Proof.
  intros Hc. induction x as [|a x IH].
  - change (EmptyString ++ "/" ++ c) with (String Separator c).
    cbn [filepath_Split]. rewrite (filepath_Split_file c Hc), Ascii.eqb_refl. reflexivity.
  - change (String a x ++ "/" ++ c) with (String a (x ++ "/" ++ c)).
    cbn [filepath_Split]. rewrite IH.
    destruct (x ++ "/") as [|b d] eqn:E; [destruct x; discriminate|].
    simpl. rewrite E. reflexivity.
Qed.

Lemma strings_Join_snoc (cs : list string) (c : string) :
  cs <> [] -> strings_Join (cs ++ [c]) "/" = strings_Join cs "/" ++ "/" ++ c.
Proof.
  induction cs as [|e rest IH]; [congruence|]. intros _.
  destruct rest as [|e' rest'].
  - reflexivity.
  - change ((e :: e' :: rest') ++ [c])%list with (e :: ((e' :: rest') ++ [c]))%list.
    rewrite strings_Join_cons by (simpl; discriminate).
    rewrite IH by discriminate.
    rewrite (strings_Join_cons e (e' :: rest')) by discriminate.
    rewrite !append_assoc. reflexivity.
Qed.

Lemma plain_component (cs : list string) : Forall plain cs -> Forall component cs.
Proof. intros H. eapply Forall_impl; [|exact H]. intros a [Ha _]. exact Ha. Qed.

Lemma cleanFold_plain (cs st : list string) :
  Forall plain cs -> fold_left (cleanStep false) cs st = (rev cs ++ st)%list.
Proof.
  revert st. induction cs as [|c cs IH]; intros st H; [reflexivity|].
  inversion H as [|? ? [[Hn _] [Hd Hdd]] Hrest]; subst.
  simpl fold_left. rewrite cleanStep_push by assumption.
  rewrite IH by assumption. simpl. rewrite <- app_assoc. reflexivity.
Qed.

Lemma filepath_Clean_plain_dir (cs : list string) :
  cs <> [] -> Forall plain cs ->
  filepath_Clean (strings_Join cs "/" ++ "/") = strings_Join cs "/".
Proof.
  intros Hne Hp.
  destruct (strings_Join_components cs Hne (plain_component cs Hp)) as (Hid & Hr & Hsplit).
  assert (Hrd : isRooted (strings_Join cs "/" ++ "/") = false)
    by (rewrite isRooted_append; assumption).
  assert (Hnd : strings_Join cs "/" ++ "/" <> EmptyString)
    by (destruct (strings_Join cs "/"); [congruence|discriminate]).
  rewrite filepath_Clean_relative by assumption.
  assert (E : cleanElems (strings_Join cs "/" ++ "/") = rev cs).
  { unfold cleanElems. rewrite strings_Split_dir, fold_left_app, Hsplit.
    rewrite (cleanFold_plain cs [] Hp). rewrite app_nil_r. reflexivity. }
  rewrite E. rewrite rev_involutive.
  destruct (rev cs) eqn:Er; [|reflexivity].
  apply (f_equal (@rev string)) in Er. rewrite rev_involutive in Er. simpl in Er. congruence.
Qed.

Lemma splitLoop_plain (cs : list string) :
  Forall plain cs -> cs <> [] ->
  forall (fuel : nat) (part : list string),
    length cs <= fuel ->
    splitLoop fuel (strings_Join cs "/") part = Some (part ++ rev cs)%list.
Proof.
  induction cs as [|c cs' IH] using rev_ind; [congruence|].
  intros Hp _ fuel part Hfuel.
  apply Forall_app in Hp. destruct Hp as [Hp' Hc].
  inversion Hc as [|? ? [[Hcn Hcs] _] _]; subst.
  rewrite length_app in Hfuel. simpl in Hfuel.
  destruct fuel as [|fuel]; [lia|].
  rewrite rev_app_distr. simpl rev.
  destruct cs' as [|c0 cs''].
  - simpl strings_Join. destruct c as [|a c]; [congruence|].
    cbn [splitLoop]. rewrite (filepath_Split_file _ Hcs). reflexivity.
  - rewrite strings_Join_snoc by discriminate.
    set (x := strings_Join (c0 :: cs'') "/").
    assert (Hx : x ++ "/" ++ c <> EmptyString) by (destruct x; discriminate).
    destruct (x ++ "/" ++ c) as [|a r] eqn:E; [congruence|].
    cbn [splitLoop]. rewrite <- E. rewrite (filepath_Split_dir_file x c Hcs).
    apply nonEmpty_true in Hcn. rewrite Hcn.
    assert (Hd : nonEmpty (x ++ "/") = true) by (destruct x; reflexivity).
    rewrite Hd. unfold x. rewrite filepath_Clean_plain_dir by (assumption || discriminate).
    rewrite IH; [|assumption|discriminate|lia].
    rewrite <- app_assoc. reflexivity.
Qed.

(** X1.  On an identifier made of plain components (none empty, none [.] or
    [..]) [splitPath] returns exactly the components, in their order from left
    to right, and as many iterations as there are components suffice. *)
Theorem splitPath_plain_components (cs : list string) (fuel : nat) :
  Forall plain cs -> cs <> [] -> length cs <= fuel ->
  splitPath fuel (strings_Join cs "/") = Some cs.
Proof.
  intros Hp Hne Hfuel. unfold splitPath.
  rewrite (splitLoop_plain cs Hp Hne fuel [] Hfuel). simpl.
  rewrite reverseInPlace_rev, rev_involutive. reflexivity.
Qed.

Lemma splitPath_plain_components_witness :
  splitPath 3 "example.com/acme/tool" = Some ["example.com"; "acme"; "tool"].
Proof.
  apply (splitPath_plain_components ["example.com"; "acme"; "tool"] 3).
  - repeat constructor; discriminate.
  - discriminate.
  - simpl. lia.
Defined.

(** X2.  The second loop of [splitPath], which swaps the elements [i] and
    [n-i-1] for [i < n/2], reverses the slice. *)
Theorem reverseInPlace_reverses (part : list string) :
  reverseInPlace part = rev part /\ length (reverseInPlace part) = length part.
Proof.
  rewrite reverseInPlace_rev. split; [reflexivity|apply length_rev].
Qed.

Lemma splitLoop_relative_nonempty (fuel : nat) :
  forall (path : string) (part : list string),
  isRooted path = false -> path <> EmptyString -> String.length path < fuel ->
  exists fs, splitLoop fuel path part = Some (part ++ fs)%list /\ fs <> [].
Proof.
  induction fuel as [|fuel IH]; intros path part Hr Hne Hlen; [lia|].
  destruct path as [|c rest]; [congruence|].
  cbn [splitLoop].
  pose proof (filepath_Split_spec (String c rest)) as Hs.
  destruct (filepath_Split (String c rest)) as [d f].
  destruct Hs as (E & Hf & Hd).
  destruct d as [|c' d'].
  - simpl in E. subst f. cbn [nonEmpty]. exists [String c rest]. split; [reflexivity|discriminate].
  - destruct Hd as [Hd|[x Hx]]; [discriminate|].
    cbn [nonEmpty]. rewrite Hx in *.
    assert (Hrd : isRooted (x ++ "/") = false).
    { rewrite E in Hr. rewrite isRooted_append in Hr; [exact Hr|]. destruct x; discriminate. }
    destruct (filepath_Clean_dir x Hrd) as (Hr' & Hshort & _).
    assert (Hfuel : String.length (filepath_Clean (x ++ "/")) < fuel).
    { rewrite E in Hlen. rewrite length_append in Hlen. lia. }
    pose proof (filepath_Clean_nonEmpty (x ++ "/")) as Hcne.
    destruct (nonEmpty f).
    + destruct (IH _ (part ++ [f])%list Hr' Hcne Hfuel) as (fs & Hrun & Hfs).
      exists (f :: fs). split; [rewrite Hrun, <- app_assoc; reflexivity|discriminate].
    + destruct (IH _ part Hr' Hcne Hfuel) as (fs & Hrun & Hfs).
      exists fs. split; assumption.
Qed.

(** What [splitPath] returns on a relative path that is not empty. *)
Lemma splitPath_relative_parts (path : string) (fuel : nat) :
  isRooted path = false -> path <> EmptyString -> String.length path < fuel ->
  exists part,
    splitPath fuel path = Some part /\ part <> [] /\ Forall component part /\
    filepath_Join part = filepath_Clean path.
Proof.
  intros Hr Hne Hlen.
  destruct (splitPath_relative path fuel Hr Hlen) as (part & Hrun & Hcomp & Hfold & _).
  destruct (splitLoop_relative_nonempty fuel path [] Hr Hne Hlen) as (fs & Hloop & Hfs).
  assert (Hpart : part <> []).
  { unfold splitPath in Hrun. rewrite Hloop in Hrun. simpl in Hrun.
    injection Hrun as <-. rewrite reverseInPlace_rev.
    intros Hnil. apply (f_equal (@rev string)) in Hnil.
    rewrite rev_involutive in Hnil. simpl in Hnil. contradiction. }
  exists part. repeat split; try assumption.
  destruct (strings_Join_components part Hpart Hcomp) as (HP & HrP & HsplitP).
  rewrite filepath_Join_components by assumption.
  apply filepath_Clean_same_elems; try assumption.
  unfold cleanElems at 1. rewrite HsplitP. exact Hfold.
Qed.

(** More fuel changes nothing in what the loop returns. *)
Lemma splitLoop_more (fuel : nat) :
  forall (path : string) (part r : list string),
    splitLoop fuel path part = Some r ->
    forall extra, splitLoop (fuel + extra) path part = Some r.
Proof.
  induction fuel as [|fuel IH]; intros path part r H extra.
  - destruct path; [|discriminate H]. simpl in H. destruct (0 + extra); exact H.
  - destruct path as [|c rest]; [exact H|].
    cbn [Nat.add]. cbn [splitLoop] in *.
    destruct (filepath_Split (String c rest)) as [d f].
    destruct (nonEmpty d); [apply IH; exact H|exact H].
Qed.

(** The loop ends within as many iterations as the path has characters. *)
Lemma splitLoop_within_length (fuel : nat) :
  forall (path : string) (part : list string),
    isRooted path = false -> String.length path <= fuel ->
    exists r, splitLoop fuel path part = Some r.
Proof.
  induction fuel as [|fuel IH]; intros path part Hr Hlen.
  - destruct path; [eexists; reflexivity|simpl in Hlen; lia].
  - destruct path as [|c rest]; [eexists; reflexivity|].
    cbn [splitLoop].
    pose proof (filepath_Split_spec (String c rest)) as Hs.
    destruct (filepath_Split (String c rest)) as [d f].
    destruct Hs as (E & Hf & Hd).
    destruct d as [|c' d']; [cbn [nonEmpty]; eexists; reflexivity|].
    destruct Hd as [Hd|[x Hx]]; [discriminate|].
    cbn [nonEmpty]. rewrite Hx in *.
    assert (Hrd : isRooted (x ++ "/") = false).
    { rewrite E in Hr. rewrite isRooted_append in Hr; [exact Hr|]. destruct x; discriminate. }
    destruct (filepath_Clean_dir x Hrd) as (Hr' & Hshort & _).
    apply IH; [exact Hr'|].
    rewrite E in Hlen. rewrite !length_append in *. simpl in *. lia.
Qed.

(** X3.  On every relative path that is not empty [splitPath] returns: the
    loop ends within as many iterations as the path has characters.  The
    components it returns are not empty and hold no separator, and joined
    again they are the cleaned path. *)
Theorem splitPath_relative_returns (path : string) (fuel : nat) :
  isRooted path = false -> path <> EmptyString -> String.length path <= fuel ->
  exists part,
    splitPath fuel path = Some part /\ part <> [] /\ Forall component part /\
    filepath_Join part = filepath_Clean path.
Proof.
  intros Hr Hne Hlen.
  destruct (splitLoop_within_length fuel path [] Hr Hlen) as [r Hloop].
  destruct (splitPath_relative_parts path (fuel + 1) Hr Hne)
    as (part & Hrun & Hrest); [lia|].
  exists part. split; [|exact Hrest].
  unfold splitPath in *. rewrite (splitLoop_more fuel path [] r Hloop 1) in Hrun.
  rewrite Hloop. exact Hrun.
Qed.

Lemma splitPath_relative_returns_witness :
  exists part,
    splitPath 9 "a/./b//c/" = Some part /\ part <> [] /\ Forall component part /\
    filepath_Join part = filepath_Clean "a/./b//c/".
Proof.
  apply (splitPath_relative_returns "a/./b//c/" 9); [reflexivity|discriminate|simpl; lia].
Defined.

(** X4.  For every relative identifier that is not empty and a non-empty
    [GOPATH], [packagePath] returns; the destination is the first entry of
    [GOPATH] joined with [src] and with the identifier as it was given, so
    that splitting and joining again lose nothing; and the short name is not
    empty and holds no separator. *)
Theorem packagePath_relative_destination (GOPATH path : string) (fuel : nat) :
  GOPATH <> EmptyString ->
  isRooted path = false -> path <> EmptyString -> String.length path < fuel ->
  exists name,
    packagePath fuel GOPATH path
    = Some (filepath_Join [hd EmptyString (filepath_SplitList GOPATH); "src"; path], name) /\
    component name.
Proof.
  intros HG Hr Hne Hlen.
  destruct (splitPath_relative_parts path fuel Hr Hne Hlen)
    as (part & Hrun & Hpart & Hcomp & Hjoin).
  destruct (filepath_SplitList_hd GOPATH HG) as (g0 & rest & HSL).
  exists (last part EmptyString). split.
  - unfold packagePath. rewrite Hrun, HSL. cbn [hd].
    destruct part as [|p0 part']; [congruence|].
    f_equal. f_equal. rewrite Hjoin.
    rewrite filepath_Join_base by apply filepath_Clean_nonEmpty.
    rewrite filepath_Join_base by exact Hne.
    destruct (nonEmpty g0).
    + replace (g0 ++ "/" ++ "src" ++ "/" ++ filepath_Clean path)
        with ((g0 ++ "/src") ++ "/" ++ filepath_Clean path)
        by (rewrite append_assoc; reflexivity).
      replace (g0 ++ "/" ++ "src" ++ "/" ++ path) with ((g0 ++ "/src") ++ "/" ++ path)
        by (rewrite append_assoc; reflexivity).
      apply filepath_Clean_compose; assumption.
    + cbn [nonEmpty]. apply filepath_Clean_compose; assumption.
  - destruct (exists_last Hpart) as (front & c & ->). rewrite last_last.
    apply Forall_app in Hcomp. destruct Hcomp as [_ Hc]. inversion Hc. assumption.
Qed.

Lemma packagePath_relative_destination_witness :
  exists name,
    packagePath 12 "/home/u/go" "acme//tool/"
    = Some (filepath_Join ["/home/u/go"; "src"; "acme//tool/"], name) /\
    component name.
Proof.
  apply (packagePath_relative_destination "/home/u/go" "acme//tool/" 12);
    [discriminate|reflexivity|discriminate|simpl; lia].
Defined.

Lemma strings_Split_sepFree (sep : ascii) (s : string) :
  sepFree sep s = true -> strings_Split sep s = [s].
Proof.
  induction s as [|c s IH]; simpl; [reflexivity|].
  intros H. apply andb_prop in H. destruct H as [Hc Hs].
  apply negb_true_iff in Hc. rewrite Hc, (IH Hs). reflexivity.
Qed.

Lemma filepath_SplitList_first (g0 others : string) :
  sepFree ListSeparator g0 = true ->
  filepath_SplitList (g0 ++ ":" ++ others) = g0 :: strings_Split ListSeparator others.
Proof.
  intros Hg. unfold filepath_SplitList.
  destruct (g0 ++ ":" ++ others) as [|a r] eqn:E; [destruct g0; discriminate|].
  rewrite <- E. change (g0 ++ ":" ++ others) with (g0 ++ String ListSeparator others).
  rewrite strings_Split_app, (strings_Split_sepFree _ g0 Hg). reflexivity.
Qed.

(** X5.  Only the first entry of [GOPATH] counts: with a first entry that is
    not empty, the entries after it change nothing in what [packagePath]
    returns, whatever the identifier and the fuel. *)
Theorem packagePath_first_entry (g0 others path : string) (fuel : nat) :
  g0 <> EmptyString -> sepFree ListSeparator g0 = true ->
  packagePath fuel (g0 ++ ":" ++ others) path = packagePath fuel g0 path.
Proof.
  intros Hne Hg. unfold packagePath.
  rewrite (filepath_SplitList_first g0 others Hg).
  assert (E : filepath_SplitList g0 = [g0]).
  { unfold filepath_SplitList. destruct g0 as [|a r]; [congruence|].
    apply strings_Split_sepFree. exact Hg. }
  rewrite E. reflexivity.
Qed.

Lemma packagePath_first_entry_witness :
  packagePath 22 ("/home/u/go" ++ ":" ++ "/opt/go:/tmp") "example.com/acme/tool"
  = packagePath 22 "/home/u/go" "example.com/acme/tool".
Proof.
  apply (packagePath_first_entry "/home/u/go" "/opt/go:/tmp" "example.com/acme/tool" 22);
    [discriminate|reflexivity].
Defined.

Lemma filepath_Clean_trailing (p : string) :
  p <> EmptyString -> filepath_Clean (p ++ "/") = filepath_Clean p.
Proof.
  intros Hp. destruct p as [|c p]; [congruence|].
  unfold filepath_Clean.
  change (String c p ++ "/") with (String c (p ++ "/")).
  cbn [isRooted].
  change (String c (p ++ "/")) with (String c p ++ "/").
  rewrite strings_Split_dir, fold_left_app. reflexivity.
Qed.

(** X6.  The empty identifier: [packagePath] returns at once, whatever the
    fuel, with the empty short name and the [src] directory of the first
    entry of [GOPATH] as destination. *)
Theorem packagePath_empty_identifier (GOPATH : string) (fuel : nat) :
  GOPATH <> EmptyString ->
  packagePath fuel GOPATH EmptyString
  = Some (filepath_Join [hd EmptyString (filepath_SplitList GOPATH); "src"], EmptyString).
Proof.
  intros HG. destruct (filepath_SplitList_hd GOPATH HG) as (g0 & rest & HSL).
  unfold packagePath. rewrite HSL. destruct fuel; cbn [splitPath splitLoop option_map hd].
  all: change (reverseInPlace []) with (@nil string).
  all: cbv iota. all: f_equal; f_equal.
  all: cbn [filepath_Join strings_Join nonEmpty].
  all: destruct (nonEmpty g0) eqn:Eg; [|reflexivity].
  all: replace (g0 ++ "/" ++ "src" ++ "/" ++ EmptyString) with ((g0 ++ "/" ++ "src") ++ "/")
         by (rewrite !append_assoc; reflexivity).
  all: apply filepath_Clean_trailing; destruct g0; discriminate.
Qed.

Lemma packagePath_empty_identifier_witness :
  packagePath 0 "/home/u/go" EmptyString = Some ("/home/u/go/src", EmptyString).
Proof. apply (packagePath_empty_identifier "/home/u/go" 0). discriminate. Defined.

(** ** The order of the operations of a run *)

Section Ordered.
Context {W : Type} {platform : Platform W}.

Lemma operations_app (a b : list Event) :
  operations (a ++ b) = (operations a ++ operations b)%list.
Proof. apply flat_map_app. Qed.

Lemma firstn_prefix_app {A : Type} (k : nat) (l1 l2 : list A) :
  exists k', firstn k l1 = firstn k' (l1 ++ l2)%list.
Proof.
  exists (Nat.min k (length l1)). rewrite firstn_app.
  replace (Nat.min k (length l1) - length l1) with 0 by lia.
  rewrite firstn_O, app_nil_r.
  destruct (Nat.le_ge_cases k (length l1)) as [H|H].
  - rewrite Nat.min_l by exact H. reflexivity.
  - rewrite Nat.min_r by exact H. rewrite !firstn_all2; [reflexivity|lia|exact H].
Qed.

Lemma ordered_bind {A B : Type} (l1 l2 : list string) (m : Run W A) (k : A -> Run W B) :
  ordered l1 m -> (forall a, ordered l2 (k a)) -> ordered (l1 ++ l2) (bind m k).
Proof.
  intros Hm Hk s. unfold bind. destruct (Hm s) as (e1 & E1 & H1).
  destruct (m s) as [[a|stop] s1]; cbn [fst snd] in *.
  - destruct (Hk a s1) as (e2 & E2 & H2). exists (e1 ++ e2)%list.
    split; [rewrite E2, E1, app_assoc; reflexivity|].
    rewrite operations_app, H1.
    destruct (fst (k a s1)) as [b|stop].
    + rewrite H2. reflexivity.
    + destruct H2 as (Hstop & k2 & H2). split; [exact Hstop|].
      exists (length l1 + k2). rewrite H2, firstn_app_2. reflexivity.
  - exists e1. split; [exact E1|]. destruct H1 as (Hstop & k1 & H1).
    split; [exact Hstop|]. rewrite H1. apply firstn_prefix_app.
Qed.

Lemma ordered_bind0 {A B : Type} (l : list string) (m : Run W A) (k : A -> Run W B) :
  ordered [] m -> (forall a, ordered l (k a)) -> ordered l (bind m k).
Proof. apply (ordered_bind [] l). Qed.

Lemma ordered_bind1 {A B : Type} (op : string) (l : list string)
      (m : Run W A) (k : A -> Run W B) :
  ordered [op] m -> (forall a, ordered l (k a)) -> ordered (op :: l) (bind m k).
Proof. apply (ordered_bind [op] l). Qed.

Lemma ordered_ret {A : Type} (a : A) : ordered (W := W) [] (ret a).
Proof. intros s. exists []. simpl. rewrite app_nil_r. split; reflexivity. Qed.

Lemma ordered_halt {A : Type} (l : list string) (stop : Stop) :
  stop <> Exited 0 -> ordered (W := W) l (halt (A := A) stop).
Proof.
  intros Hs s. exists []. simpl. rewrite app_nil_r. split; [reflexivity|].
  split; [exact Hs|]. exists 0. reflexivity.
Qed.

Lemma ordered_print (text : string) : ordered (W := W) [] (fmt_Print text).
Proof. intros s. exists [Printed text]. split; reflexivity. Qed.

Lemma ordered_MkdirAll (path : string) (perm : nat) : ordered ["mkdir"] (MkdirAll path perm).
Proof.
  intros s. unfold MkdirAll. destruct (os_MkdirAll path perm (world s)) as [err w'].
  eexists. split; reflexivity.
Qed.

Lemma ordered_WriteFile (path data : string) (perm : nat) :
  ordered ["write"] (WriteFile path data perm).
Proof.
  intros s. unfold WriteFile. destruct (ioutil_WriteFile path data perm (world s)) as [err w'].
  eexists. split; reflexivity.
Qed.

Lemma ordered_execCmd (dir cmd : string) (arg : list string) :
  ordered [cmd] (execCmd dir cmd arg).
Proof.
  intros s. unfold execCmd.
  destruct (exec_CombinedOutput dir cmd arg (world s)) as [[o e] w'].
  eexists. split; reflexivity.
Qed.

Lemma ordered_fileExists (path : string) : ordered ["stat"] (fileExists path).
Proof.
  unfold fileExists. apply (ordered_bind ["stat"] []).
  - intros s. eexists. split; reflexivity.
  - intros [stat err]. unfold fileExistsOn. apply ordered_bind0.
    + destruct (isNil err || negb (os_IsNotExist err)); [|apply ordered_ret].
      destruct stat; [apply ordered_ret|apply ordered_halt; discriminate].
    + intros d. apply ordered_ret.
Qed.

Create HintDb ordered.
#[local] Hint Resolve ordered_ret ordered_print ordered_MkdirAll ordered_WriteFile
  ordered_execCmd ordered_fileExists : ordered.

Ltac ordered_steps :=
  repeat first
    [ solve [auto with ordered]
    | solve [apply ordered_halt; discriminate]
    | solve [apply ordered_bind0; [apply ordered_print|intros; apply ordered_halt; discriminate]]
    | match goal with
      | |- ordered _ (match ?x with _ => _ end) => destruct x
      | |- ordered _ (if ?b then _ else _) => destruct b
      end
    | apply ordered_bind1; [solve [auto with ordered]|intros]
    | apply ordered_bind0; [|intros] ].

Lemma ordered_basic_prepare (fuel : nat) (inv : Basic.Invocation) :
  ordered ["mkdir"] (Basic.prepare fuel inv).
Proof. unfold Basic.prepare, os_Exit. ordered_steps. Qed.

Lemma ordered_basic_generate (inv : Basic.Invocation) (path name : string) :
  ordered ["stat"; "write"; "goimports"; "go"] (Basic.generate inv path name).
Proof. unfold Basic.generate, os_Exit. ordered_steps. Qed.

Lemma ordered_extended_prepare (fuel : nat) (inv : Extended.Invocation) :
  ordered ["mkdir"] (Extended.prepare fuel inv).
Proof. unfold Extended.prepare, os_Exit. ordered_steps. Qed.

Lemma ordered_extended_sourceStep (inv : Extended.Invocation) (path name : string) :
  ordered ["stat"; "write"; "goimports"; "go"] (Extended.sourceStep inv path name).
Proof. unfold Extended.sourceStep, os_Exit. ordered_steps. Qed.

Lemma ordered_extended_licenseStep (inv : Extended.Invocation) (path name : string) :
  ordered ["stat"; "write"] (Extended.licenseStep inv path name).
Proof. unfold Extended.licenseStep, os_Exit. ordered_steps. Qed.

Lemma ordered_extended_readmeStep (inv : Extended.Invocation) (path name : string) :
  ordered ["stat"; "write"] (Extended.readmeStep inv path name).
Proof. unfold Extended.readmeStep, os_Exit. ordered_steps. Qed.

Lemma ordered_start {A : Type} (ops : list string) (m : Run W A) (w : W) :
  ordered ops m ->
  (forall a, fst (m (start w)) = inl a -> operations (trace (snd (m (start w)))) = ops) /\
  (forall stop, fst (m (start w)) = inr stop -> stop <> Exited 0) /\
  exists k, operations (trace (snd (m (start w)))) = firstn k ops.
Proof.
  intros H. destruct (H (start w)) as (evs & E & Hops). simpl in E. rewrite E.
  destruct (fst (m (start w))) as [a|stop].
  - repeat split; [auto|discriminate|]. exists (length ops). rewrite Hops, firstn_all. reflexivity.
  - destruct Hops as (Hstop & k & Hk). repeat split; [discriminate| |eauto].
    intros stop' E'. injection E' as <-. exact Hstop.
Qed.

Lemma ordered_stop {A : Type} (ops : list string) (m : Run W A) (s s' : State W) :
  ordered ops m -> m s = (inr (Exited 0), s') -> False.
Proof.
  intros H E. destruct (H s) as (evs & _ & Hops). rewrite E in Hops. cbn [fst] in Hops.
  destruct Hops as [Hne _]. congruence.
Qed.

(** X7.  A generating run of the basic variant makes its calls in one order:
    [os.MkdirAll], [os.Stat], [ioutil.WriteFile], [goimports], [go], each at
    most once and none before the one before it.  The run ends with exit
    code 0 only when all five were made. *)
Theorem basic_operations_in_order (fuel : nat) (inv : Basic.Invocation) (w : W) :
  Basic.argChangeLog inv = false -> Basic.argVersion inv = false ->
  (exists k, operations (trace (snd (Basic.main fuel inv (start w))))
             = firstn k basicOperations) /\
  (outcome (Basic.main fuel inv (start w)) = Exited 0 ->
   operations (trace (snd (Basic.main fuel inv (start w)))) = basicOperations).
Proof.
  intros Hc Hv. unfold Basic.main. rewrite Hc, Hv.
  set (m := bind (Basic.prepare fuel inv) _).
  assert (Hm : ordered basicOperations m).
  { unfold m. apply (ordered_bind ["mkdir"] ["stat"; "write"; "goimports"; "go"]).
    - apply ordered_basic_prepare.
    - intros [path name]. apply ordered_basic_generate. }
  destruct (ordered_start basicOperations m w Hm) as (Hret & Hstop & Hk).
  split; [exact Hk|]. unfold outcome. intros Hout.
  destruct (fst (m (start w))) as [a|stop] eqn:E.
  - exact (Hret a eq_refl).
  - exfalso. exact (Hstop stop eq_refl Hout).
Qed.

End Ordered.

Lemma basic_operations_in_order_witness :
  (exists k, operations (trace (snd (Basic.main 22 (scenarioBasic false false)
                                       (start (diskFailing ["goimports"])))))
             = firstn k basicOperations) /\
  (outcome (Basic.main 22 (scenarioBasic false false) (start (diskFailing ["goimports"])))
   = Exited 0 ->
   operations (trace (snd (Basic.main 22 (scenarioBasic false false)
                             (start (diskFailing ["goimports"])))))
   = basicOperations).
Proof.
  apply (basic_operations_in_order 22 (scenarioBasic false false)
           (diskFailing ["goimports"])); reflexivity.
Defined.
(** ** The order of the calls of the extended variant *)

Section Sequenced.
Context {W : Type} {platform : Platform W}.

Lemma calls_app (a b : list Event) : calls (a ++ b) = (calls a ++ calls b)%list.
Proof. apply flat_map_app. Qed.

Lemma sequenced_bind {A B : Type} (l1 l2 : list (string * string))
      (m : Run W A) (k : A -> Run W B) :
  sequenced l1 m -> (forall a, sequenced l2 (k a)) -> sequenced (l1 ++ l2) (bind m k).
Proof.
  intros Hm Hk s. unfold bind. destruct (Hm s) as (e1 & E1 & H1).
  destruct (m s) as [[a|stop] s1]; cbn [fst snd] in *.
  - destruct (Hk a s1) as (e2 & E2 & H2). exists (e1 ++ e2)%list.
    split; [rewrite E2, E1, app_assoc; reflexivity|].
    rewrite calls_app, H1.
    destruct (fst (k a s1)) as [b|stop].
    + rewrite H2. reflexivity.
    + destruct H2 as (Hstop & k2 & H2). split; [exact Hstop|].
      exists (length l1 + k2). rewrite H2, firstn_app_2. reflexivity.
  - exists e1. split; [exact E1|]. destruct H1 as (Hstop & k1 & H1).
    split; [exact Hstop|]. rewrite H1. apply firstn_prefix_app.
Qed.

Lemma sequenced_bind0 {A B : Type} (l : list (string * string))
      (m : Run W A) (k : A -> Run W B) :
  sequenced [] m -> (forall a, sequenced l (k a)) -> sequenced l (bind m k).
Proof. apply (sequenced_bind [] l). Qed.

Lemma sequenced_bind1 {A B : Type} (c : string * string) (l : list (string * string))
      (m : Run W A) (k : A -> Run W B) :
  sequenced [c] m -> (forall a, sequenced l (k a)) -> sequenced (c :: l) (bind m k).
Proof. apply (sequenced_bind [c] l). Qed.

Lemma sequenced_ret {A : Type} (a : A) : sequenced (W := W) [] (ret a).
Proof. intros s. exists []. simpl. rewrite app_nil_r. split; reflexivity. Qed.

Lemma sequenced_halt {A : Type} (l : list (string * string)) (stop : Stop) :
  stop <> Exited 0 -> sequenced (W := W) l (halt (A := A) stop).
Proof.
  intros Hs s. exists []. simpl. rewrite app_nil_r. split; [reflexivity|].
  split; [exact Hs|]. exists 0. reflexivity.
Qed.

Lemma sequenced_print (text : string) : sequenced (W := W) [] (fmt_Print text).
Proof. intros s. exists [Printed text]. split; reflexivity. Qed.

Lemma sequenced_MkdirAll (path : string) (perm : nat) :
  sequenced [("mkdir", path)] (MkdirAll path perm).
Proof.
  intros s. unfold MkdirAll. destruct (os_MkdirAll path perm (world s)) as [err w'].
  eexists. split; reflexivity.
Qed.

Lemma sequenced_WriteFile (path data : string) (perm : nat) :
  sequenced [("write", path)] (WriteFile path data perm).
Proof.
  intros s. unfold WriteFile. destruct (ioutil_WriteFile path data perm (world s)) as [err w'].
  eexists. split; reflexivity.
Qed.

Lemma sequenced_execCmd (dir cmd : string) (arg : list string) :
  sequenced [(cmd, dir)] (execCmd dir cmd arg).
Proof.
  intros s. unfold execCmd.
  destruct (exec_CombinedOutput dir cmd arg (world s)) as [[o e] w'].
  eexists. split; reflexivity.
Qed.

Lemma sequenced_fileExists (path : string) : sequenced [("stat", path)] (fileExists path).
Proof.
  unfold fileExists. apply (sequenced_bind [("stat", path)] []).
  - intros s. eexists. split; reflexivity.
  - intros [stat err]. unfold fileExistsOn. apply sequenced_bind0.
    + destruct (isNil err || negb (os_IsNotExist err)); [|apply sequenced_ret].
      destruct stat; [apply sequenced_ret|apply sequenced_halt; discriminate].
    + intros d. apply sequenced_ret.
Qed.

Ltac sequenced_steps :=
  repeat first
    [ apply sequenced_ret
    | apply sequenced_print
    | solve [apply sequenced_halt; discriminate]
    | solve [apply sequenced_bind0;
             [apply sequenced_print|intros; apply sequenced_halt; discriminate]]
    | match goal with
      | |- sequenced _ (match ?x with _ => _ end) => destruct x
      | |- sequenced _ (if ?b then _ else _) => destruct b
      end
    | match goal with
      | |- sequenced _ (bind (fileExists _) _) =>
          apply sequenced_bind1; [apply sequenced_fileExists|intros]
      | |- sequenced _ (bind (WriteFile _ _ _) _) =>
          apply sequenced_bind1; [apply sequenced_WriteFile|intros]
      | |- sequenced _ (bind (execCmd _ _ _) _) =>
          apply sequenced_bind1; [apply sequenced_execCmd|intros]
      | |- sequenced _ (bind (MkdirAll _ _) _) =>
          apply sequenced_bind1; [apply sequenced_MkdirAll|intros]
      | |- sequenced _ (bind _ _) => apply sequenced_bind0; [|intros]
      end ].

Lemma sequenced_extended_prepare (fuel : nat) (inv : Extended.Invocation)
      (path name : string) :
  packagePath fuel (Extended.GOPATH inv) (Extended.flag_Arg inv 0) = Some (path, name) ->
  sequenced [("mkdir", path)] (Extended.prepare fuel inv) /\
  forall s a, fst (Extended.prepare fuel inv s) = inl a -> a = (path, name).
Proof.
  intros Hpp. split.
  - intros [w tr]. unfold Extended.prepare.
    destruct (Extended.flag_Args inv) as [|a0 rest]; run_steps.
    + eexists. split; [reflexivity|]. split; [discriminate|]. exists 0. reflexivity.
    + rewrite Hpp. run_steps.
      destruct (os_MkdirAll path os_ModePerm w) as [[e|] w1]; run_steps.
      * eexists. split; [rewrite <- app_assoc; reflexivity|].
        split; [discriminate|]. exists 1. reflexivity.
      * eexists. split; reflexivity.
  - intros [w tr] a. unfold Extended.prepare.
    destruct (Extended.flag_Args inv) as [|a0 rest]; run_steps; [discriminate|].
    rewrite Hpp. run_steps.
    destruct (os_MkdirAll path os_ModePerm w) as [[e|] w1]; run_steps;
      [discriminate|congruence].
Qed.

Lemma sequenced_extended_sourceStep (inv : Extended.Invocation) (path name : string) :
  sequenced (firstn 4 (skipn 1 (extendedCalls path name)))
    (Extended.sourceStep inv path name).
Proof. unfold Extended.sourceStep, os_Exit. cbn [firstn skipn extendedCalls]. sequenced_steps. Qed.

Lemma sequenced_extended_licenseStep (inv : Extended.Invocation) (path name : string) :
  sequenced (firstn 2 (skipn 5 (extendedCalls path name)))
    (Extended.licenseStep inv path name).
Proof. unfold Extended.licenseStep, os_Exit. cbn [firstn skipn extendedCalls]. sequenced_steps. Qed.

Lemma sequenced_extended_readmeStep (inv : Extended.Invocation) (path name : string) :
  sequenced (skipn 7 (extendedCalls path name)) (Extended.readmeStep inv path name).
Proof. unfold Extended.readmeStep, os_Exit. cbn [firstn skipn extendedCalls]. sequenced_steps. Qed.

(** X8.  A generating run of the extended variant makes its calls in one
    order, each on its own object: [os.MkdirAll] on the destination; then
    [os.Stat] and [ioutil.WriteFile] on [name.go], [goimports] and [go] in
    the destination; then [os.Stat] and [ioutil.WriteFile] on [LICENSE]; then
    the same on [README.md].  What a run did is a prefix of this list, and
    the run ends with exit code 0 only when all nine calls were made: no
    successful run leaves out the license or the readme. *)
Theorem extended_operations_in_order (fuel : nat) (inv : Extended.Invocation) (w : W)
        (path name : string) :
  Extended.argChanges inv = false -> Extended.argVersion inv = false ->
  packagePath fuel (Extended.GOPATH inv) (Extended.flag_Arg inv 0) = Some (path, name) ->
  (exists k, calls (trace (snd (Extended.main fuel inv (start w))))
             = firstn k (extendedCalls path name)) /\
  (outcome (Extended.main fuel inv (start w)) = Exited 0 ->
   calls (trace (snd (Extended.main fuel inv (start w)))) = extendedCalls path name).
Proof.
  intros Hc Hv Hpp. unfold Extended.main. rewrite Hc, Hv.
  destruct (sequenced_extended_prepare fuel inv path name Hpp) as [Hprep Hret].
  match goal with
  | |- context [bind (Extended.prepare fuel inv) ?k] => set (rest := k)
  end.
  assert (Hrest : sequenced (skipn 1 (extendedCalls path name)) (rest (path, name))).
  { unfold rest. cbv beta iota.
    apply (sequenced_bind (firstn 4 (skipn 1 (extendedCalls path name)))
             (skipn 5 (extendedCalls path name)));
      [apply sequenced_extended_sourceStep|intros _].
    apply (sequenced_bind (firstn 2 (skipn 5 (extendedCalls path name)))
             (skipn 7 (extendedCalls path name)));
      [apply sequenced_extended_licenseStep|intros _].
    apply (sequenced_bind (skipn 7 (extendedCalls path name)) []);
      [apply sequenced_extended_readmeStep|intros _]. apply sequenced_print. }
  assert (Hm : forall s, exists evs,
             trace (snd (bind (Extended.prepare fuel inv) rest s)) = (trace s ++ evs)%list /\
             match fst (bind (Extended.prepare fuel inv) rest s) with
             | inl _ => calls evs = extendedCalls path name
             | inr stop => stop <> Exited 0 /\
                           exists k, calls evs = firstn k (extendedCalls path name)
             end).
  { intros s. unfold bind. destruct (Hprep s) as (e1 & E1 & H1).
    specialize (Hret s).
    destruct (Extended.prepare fuel inv s) as [[a|stop] s1]; cbn [fst snd] in *.
    - rewrite (Hret a eq_refl).
      destruct (Hrest s1) as (e2 & E2 & H2). exists (e1 ++ e2)%list.
      split; [rewrite E2, E1, app_assoc; reflexivity|].
      rewrite calls_app, H1.
      destruct (fst (rest (path, name) s1)) as [b|stop].
      + rewrite H2. reflexivity.
      + destruct H2 as (Hstop & k2 & H2). split; [exact Hstop|].
        exists (1 + k2). rewrite H2. reflexivity.
    - exists e1. split; [exact E1|]. destruct H1 as (Hstop & k1 & H1).
      split; [exact Hstop|]. rewrite H1.
      apply (firstn_prefix_app k1 [("mkdir", path)] (skipn 1 (extendedCalls path name))). }
  destruct (Hm (start w)) as (evs & E & Hcalls). simpl in E. rewrite E.
  unfold outcome.
  destruct (fst (bind (Extended.prepare fuel inv) rest (start w))) as [a|stop].
  - split; [|intros _; exact Hcalls].
    exists 9. rewrite Hcalls. reflexivity.
  - destruct Hcalls as (Hstop & k & Hk). split; [exists k; exact Hk|].
    intros Hout. congruence.
Qed.

End Sequenced.

Lemma extended_operations_in_order_witness :
  (exists k, calls (trace (snd (Extended.main 22 (scenarioExtended false false "MIT" false)
                                  (start emptyDisk))))
             = firstn k (extendedCalls toolDir "tool")) /\
  (outcome (Extended.main 22 (scenarioExtended false false "MIT" false) (start emptyDisk))
   = Exited 0 ->
   calls (trace (snd (Extended.main 22 (scenarioExtended false false "MIT" false)
                        (start emptyDisk))))
   = extendedCalls toolDir "tool").
Proof.
  apply (extended_operations_in_order 22 (scenarioExtended false false "MIT" false)
           emptyDisk toolDir "tool"); reflexivity.
Defined.

(** ** A run stays within the destination directory *)

Section Confined.
Context {W : Type} {platform : Platform W}.
Variable P : Event -> Prop.

Lemma confined_ret {A : Type} (a : A) : confined (W := W) P (ret a).
Proof. intros s. exists []. simpl. rewrite app_nil_r. split; [reflexivity|constructor]. Qed.

Lemma confined_halt {A : Type} (stop : Stop) : confined (W := W) P (halt (A := A) stop).
Proof. intros s. exists []. simpl. rewrite app_nil_r. split; [reflexivity|constructor]. Qed.

Lemma confined_print (text : string) :
  P (Printed text) -> confined (W := W) P (fmt_Print text).
Proof. intros H s. exists [Printed text]. split; [reflexivity|repeat constructor; exact H]. Qed.

Lemma confined_bind {A B : Type} (m : Run W A) (k : A -> Run W B) :
  confined P m -> (forall a, confined P (k a)) -> confined P (bind m k).
Proof.
  intros Hm Hk s. unfold bind. destruct (Hm s) as (e1 & E1 & H1).
  destruct (m s) as [[a|stop] s1]; cbn [snd] in E1.
  - destruct (Hk a s1) as (e2 & E2 & H2). exists (e1 ++ e2)%list.
    split; [rewrite E2, E1, app_assoc; reflexivity|apply Forall_app; split; assumption].
  - exists e1. split; assumption.
Qed.

Lemma confined_MkdirAll (path : string) (perm : nat) :
  (forall err, P (MadeDir path perm err)) -> confined P (MkdirAll path perm).
Proof.
  intros H s. unfold MkdirAll. destruct (os_MkdirAll path perm (world s)) as [err w'].
  eexists. split; [reflexivity|repeat constructor; apply H].
Qed.

Lemma confined_WriteFile (path data : string) (perm : nat) :
  (forall err, P (Wrote path data perm err)) -> confined P (WriteFile path data perm).
Proof.
  intros H s. unfold WriteFile.
  destruct (ioutil_WriteFile path data perm (world s)) as [err w'].
  eexists. split; [reflexivity|repeat constructor; apply H].
Qed.

Lemma confined_execCmd (dir cmd : string) (arg : list string) :
  (forall out err, P (Ran dir cmd arg out err)) -> confined P (execCmd dir cmd arg).
Proof.
  intros H s. unfold execCmd.
  destruct (exec_CombinedOutput dir cmd arg (world s)) as [[o e] w'].
  eexists. split; [reflexivity|repeat constructor; apply H].
Qed.

Lemma confined_fileExists (path : string) :
  (forall res, P (Statted path res)) -> confined P (fileExists path).
Proof.
  intros H. unfold fileExists. apply confined_bind.
  - intros s. eexists. split; [reflexivity|repeat constructor; apply H].
  - intros [stat err]. unfold fileExistsOn. apply confined_bind.
    + destruct (isNil err || negb (os_IsNotExist err)); [|apply confined_ret].
      destruct stat; [apply confined_ret|apply confined_halt].
    + intros d. apply confined_ret.
Qed.

End Confined.

Section Destination.
Context {W : Type} {platform : Platform W}.

Ltac in_destination :=
  intros; unfold inDestination; cbn [In]; first [exact I | tauto | split; [tauto|reflexivity]].

Ltac confined_steps :=
  repeat first
    [ apply confined_ret
    | apply confined_halt
    | apply confined_print; in_destination
    | apply confined_MkdirAll; in_destination
    | apply confined_WriteFile; in_destination
    | apply confined_execCmd; in_destination
    | apply confined_fileExists; in_destination
    | match goal with
      | |- confined _ (match ?x with _ => _ end) => destruct x
      | |- confined _ (if ?b then _ else _) => destruct b
      end
    | apply confined_bind; [|intros] ].

Lemma basic_generate_confined (inv : Basic.Invocation) (path name : string) :
  confined (inDestination path name) (Basic.generate inv path name).
Proof. unfold Basic.generate, os_Exit. confined_steps. Qed.

Lemma extended_steps_confined (inv : Extended.Invocation) (path name : string) :
  confined (inDestination path name) (Extended.sourceStep inv path name) /\
  confined (inDestination path name) (Extended.licenseStep inv path name) /\
  confined (inDestination path name) (Extended.readmeStep inv path name).
Proof.
  repeat split.
  - unfold Extended.sourceStep, os_Exit. confined_steps.
  - unfold Extended.licenseStep, os_Exit. confined_steps.
  - unfold Extended.readmeStep, os_Exit. confined_steps.
Qed.

Lemma basic_prepare_confined (fuel : nat) (inv : Basic.Invocation) (path name : string) :
  packagePath fuel (Basic.GOPATH inv) (Basic.flag_Arg inv 0) = Some (path, name) ->
  forall s, exists evs,
    trace (snd (Basic.prepare fuel inv s)) = (trace s ++ evs)%list /\
    Forall (inDestination path name) evs /\
    forall a, fst (Basic.prepare fuel inv s) = inl a -> a = (path, name).
Proof.
  intros Hpp [w tr]. unfold Basic.prepare.
  destruct (Basic.flag_Args inv) as [|a0 rest]; run_steps.
  - eexists. split; [reflexivity|]. split; [repeat constructor|discriminate].
  - rewrite Hpp. run_steps.
    destruct (os_MkdirAll path os_ModePerm w) as [[e|] w1]; run_steps.
    + eexists. split; [rewrite <- app_assoc; reflexivity|].
      split; [repeat constructor|discriminate].
    + eexists. split; [reflexivity|].
      split; [repeat constructor|]. intros a E. congruence.
Qed.

Lemma extended_prepare_confined (fuel : nat) (inv : Extended.Invocation) (path name : string) :
  packagePath fuel (Extended.GOPATH inv) (Extended.flag_Arg inv 0) = Some (path, name) ->
  forall s, exists evs,
    trace (snd (Extended.prepare fuel inv s)) = (trace s ++ evs)%list /\
    Forall (inDestination path name) evs /\
    forall a, fst (Extended.prepare fuel inv s) = inl a -> a = (path, name).
Proof.
  intros Hpp [w tr]. unfold Extended.prepare.
  destruct (Extended.flag_Args inv) as [|a0 rest]; run_steps.
  - eexists. split; [reflexivity|]. split; [repeat constructor|discriminate].
  - rewrite Hpp. run_steps.
    destruct (os_MkdirAll path os_ModePerm w) as [[e|] w1]; run_steps.
    + eexists. split; [rewrite <- app_assoc; reflexivity|].
      split; [repeat constructor|discriminate].
    + eexists. split; [reflexivity|].
      split; [repeat constructor|]. intros a E. congruence.
Qed.

(** X9.  A run never leaves the destination directory: the only directory
    made is the destination, with [os.ModePerm]; the only paths checked and
    written are [name.go], [LICENSE] and [README.md] in it, every file
    written with mode [0664]; and the tools run in it.  This holds of every
    run of both variants, whatever the flags and the answers of the
    operating system. *)
Theorem run_stays_in_destination (fuel : nat) (path name : string) (w : W) :
  (forall inv : Basic.Invocation,
      packagePath fuel (Basic.GOPATH inv) (Basic.flag_Arg inv 0) = Some (path, name) ->
      Forall (inDestination path name) (trace (snd (Basic.main fuel inv (start w))))) /\
  (forall inv : Extended.Invocation,
      packagePath fuel (Extended.GOPATH inv) (Extended.flag_Arg inv 0) = Some (path, name) ->
      Forall (inDestination path name) (trace (snd (Extended.main fuel inv (start w))))).
Proof.
  split; intros inv Hpp.
  - unfold Basic.main.
    destruct (Basic.argChangeLog inv); [repeat constructor|].
    destruct (Basic.argVersion inv); [repeat constructor|].
    unfold bind at 1.
    destruct (basic_prepare_confined fuel inv path name Hpp (start w)) as (e1 & E1 & H1 & Hret).
    destruct (Basic.prepare fuel inv (start w)) as [[a|stop] s1]; cbn [fst snd] in *.
    + rewrite (Hret a eq_refl).
      destruct (basic_generate_confined inv path name s1) as (e2 & E2 & H2).
      rewrite E2, E1. simpl. apply Forall_app. split; assumption.
    + rewrite E1. exact H1.
  - unfold Extended.main.
    destruct (Extended.argChanges inv); [repeat constructor|].
    destruct (Extended.argVersion inv); [repeat constructor|].
    unfold bind at 1.
    destruct (extended_prepare_confined fuel inv path name Hpp (start w))
      as (e1 & E1 & H1 & Hret).
    destruct (Extended.prepare fuel inv (start w)) as [[a|stop] s1]; cbn [fst snd] in *.
    + rewrite (Hret a eq_refl).
      destruct (extended_steps_confined inv path name) as (Hs & Hl & Hr).
      assert (Hrest : confined (inDestination path name)
                (bind (Extended.sourceStep inv path name) (fun _ =>
                 bind (Extended.licenseStep inv path name) (fun _ =>
                 bind (Extended.readmeStep inv path name) (fun _ =>
                 fmt_Print ("mkgo: successfully created "
                            ++ fmt_quote (Extended.flag_Arg inv 0) ++ ": " ++ path ++ nl)))))).
      { apply confined_bind; [exact Hs|intros _].
        apply confined_bind; [exact Hl|intros _].
        apply confined_bind; [exact Hr|intros _].
        apply confined_print. exact I. }
      destruct (Hrest s1) as (e2 & E2 & H2).
      rewrite E2, E1. simpl. apply Forall_app. split; assumption.
    + rewrite E1. exact H1.
Qed.

End Destination.

Lemma run_stays_in_destination_witness :
  Forall (inDestination toolDir "tool")
    (trace (snd (Basic.main 22 (scenarioBasic false true) (start diskWithSource)))) /\
  Forall (inDestination toolDir "tool")
    (trace (snd (Extended.main 22 (scenarioExtended false true "MIT" false) (start emptyDisk)))).
Proof.
  destruct (@run_stays_in_destination Disk diskPlatform 22 toolDir "tool" diskWithSource)
    as [Hb _].
  destruct (@run_stays_in_destination Disk diskPlatform 22 toolDir "tool" emptyDisk)
    as [_ Hx].
  split; [exact (Hb (scenarioBasic false true) eq_refl)
         |exact (Hx (scenarioExtended false true "MIT" false) eq_refl)].
Defined.

(** ** What exit code 0 means *)

Section Success.
Context {W : Type} {platform : Platform W}.

Ltac failed := intros Hout; exfalso; revert Hout; run_steps; discriminate.

(** X10.  A generating run of the basic variant ends with exit code 0 only
    after the destination directory was made, the source path was found free
    (or an existing regular file with the force flag set), the rendered
    template was written there, and [goimports] and [go mod init] both ran
    without error; the confirmation line is the last thing printed, and
    nothing else is. *)
Theorem basic_success_means_done (fuel : nat) (inv : Basic.Invocation) (w : W) :
  Basic.argChangeLog inv = false -> Basic.argVersion inv = false ->
  outcome (Basic.main fuel inv (start w)) = Exited 0 ->
  exists path name res out1 out2,
    packagePath fuel (Basic.GOPATH inv) (Basic.flag_Arg inv 0) = Some (path, name) /\
    (os_IsNotExist (snd res) = true \/
     (fst res = Some (mkFileInfo false) /\ Basic.argOverwrite inv = true)) /\
    trace (snd (Basic.main fuel inv (start w)))
    = [ MadeDir path os_ModePerm None;
        Statted (filepath_Join [path; name ++ ".go"]) res;
        Wrote (filepath_Join [path; name ++ ".go"])
          (Template_String
             (Basic.insert Basic.template name (Basic.argMkDate inv) (Basic.argMkVersion inv)))
          mode0664 None;
        Ran path "goimports" ["-w"; name ++ ".go"] out1 None;
        Ran path "go" ["mod"; "init"] out2 None;
        Printed ("mkgo: successfully created " ++ fmt_quote (Basic.flag_Arg inv 0)
                 ++ ": " ++ path ++ nl) ].
Proof.
  intros Hc Hv. unfold Basic.main. rewrite Hc, Hv. unfold Basic.prepare.
  destruct (Basic.flag_Args inv) as [|a0 rest] eqn:Eargs; [failed|].
  destruct (packagePath fuel (Basic.GOPATH inv) (Basic.flag_Arg inv 0))
    as [[path name]|] eqn:Epp; [|failed].
  unfold Basic.generate. run_steps.
  destruct (os_MkdirAll path os_ModePerm w) as [[e|] w1] eqn:Emk; [failed|].
  run_steps.
  set (src := filepath_Join [path; name ++ ".go"]).
  set (data := Template_String _).
  destruct (os_Stat src w1) as [stat err] eqn:Est.
  destruct err as [e|]; [destruct (notExist e) eqn:Ene|]; destruct stat as [[d]|];
    run_steps; try solve [failed].
  all: try (destruct d; destruct (Basic.argOverwrite inv) eqn:Ef; run_steps;
            try solve [failed]).
  all: destruct (ioutil_WriteFile src data mode0664 w1) as [[e'|] w2] eqn:Ew; run_steps;
    try solve [failed].
  all: destruct (exec_CombinedOutput path "goimports" ["-w"; name ++ ".go"] w2)
    as [[out1 [e1|]] w3] eqn:Ex1; run_steps; try solve [failed].
  all: destruct (exec_CombinedOutput path "go" ["mod"; "init"] w3)
    as [[out2 [e2|]] w4] eqn:Ex2; run_steps; try solve [failed].
  all: intros _; exists path, name.
  all: match goal with |- context [Statted _ ?res] => exists res end.
  all: exists out1, out2; split; [reflexivity|]; split; [|reflexivity].
  all: cbn [fst snd os_IsNotExist]; first [left; assumption | right; split; reflexivity].
Qed.

End Success.

Lemma basic_success_means_done_witness :
  exists path name res out1 out2,
    packagePath 22 "/home/u/go" "example.com/acme/tool" = Some (path, name) /\
    (os_IsNotExist (snd res) = true \/ (fst res = Some (mkFileInfo false) /\ true = true)) /\
    trace (snd (Basic.main 22 (scenarioBasic false true) (start diskWithSource)))
    = [ MadeDir path os_ModePerm None;
        Statted (filepath_Join [path; name ++ ".go"]) res;
        Wrote (filepath_Join [path; name ++ ".go"])
          (Template_String (Basic.insert Basic.template name "2020 Oct 10" "0.1.0"))
          mode0664 None;
        Ran path "goimports" ["-w"; name ++ ".go"] out1 None;
        Ran path "go" ["mod"; "init"] out2 None;
        Printed ("mkgo: successfully created " ++ fmt_quote "example.com/acme/tool"
                 ++ ": " ++ path ++ nl) ].
Proof.
  exact (basic_success_means_done 22 (scenarioBasic false true) diskWithSource
           eq_refl eq_refl eq_refl).
Defined.

Section SuccessExtended.
Context {W : Type} {platform : Platform W}.

Ltac no_return := intros Hret; exfalso; revert Hret; run_steps; discriminate.

Ltac returned :=
  run_steps; intros Hret; injection Hret as <-; cbn [trace].

Lemma extended_prepare_returns (fuel : nat) (inv : Extended.Invocation)
      (s s' : State W) (path name : string) :
  Extended.prepare fuel inv s = (inl (path, name), s') ->
  packagePath fuel (Extended.GOPATH inv) (Extended.flag_Arg inv 0) = Some (path, name) /\
  trace s' = (trace s ++ [MadeDir path os_ModePerm None])%list.
Proof.
  destruct s as [w tr]. unfold Extended.prepare.
  destruct (Extended.flag_Args inv) as [|a0 rest]; [no_return|].
  destruct (packagePath fuel (Extended.GOPATH inv) (Extended.flag_Arg inv 0))
    as [[p n]|]; [|no_return].
  run_steps.
  destruct (os_MkdirAll p os_ModePerm w) as [[e|] w1]; [no_return|].
  run_steps. intros Hret. injection Hret as <- <- <-. split; reflexivity.
Qed.

Lemma extended_sourceStep_returns (inv : Extended.Invocation) (path name : string)
      (s s' : State W) :
  Extended.sourceStep inv path name s = (inl tt, s') ->
  exists res out1 out2,
    trace s'
    = app (trace s)
       [ Statted (filepath_Join [path; name ++ ".go"]) res;
         Wrote (filepath_Join [path; name ++ ".go"])
           (Template_String
              (Extended.insert Extended.template (Extended.flag_Arg inv 0) name
                 (Extended.argMkDate inv) (Extended.argMkVersion inv) (Extended.argUser inv)))
           mode0664 None;
         Ran path "goimports" ["-w"; name ++ ".go"] out1 None;
         Ran path "go" ["mod"; "init"] out2 None ].
Proof.
  destruct s as [w tr]. unfold Extended.sourceStep. run_steps.
  set (src := filepath_Join [path; name ++ ".go"]).
  set (data := Template_String _).
  destruct (os_Stat src w) as [stat err].
  destruct err as [e|]; [destruct (notExist e)|]; destruct stat as [[d]|];
    run_steps; try solve [no_return].
  all: try (destruct d; destruct (Extended.argOverwrite inv); run_steps;
            try solve [no_return]).
  all: destruct (ioutil_WriteFile src data mode0664 w) as [[e'|] w2]; run_steps;
    try solve [no_return].
  all: destruct (exec_CombinedOutput path "goimports" ["-w"; name ++ ".go"] w2)
    as [[out1 [e1|]] w3]; run_steps; try solve [no_return].
  all: destruct (exec_CombinedOutput path "go" ["mod"; "init"] w3)
    as [[out2 [e2|]] w4]; run_steps; try solve [no_return].
  all: intros Hret; injection Hret as <-; cbn [trace].
  all: eexists _, out1, out2; repeat rewrite <- app_assoc; reflexivity.
Qed.

Lemma extended_licenseStep_returns (inv : Extended.Invocation) (path name : string)
      (s s' : State W) :
  Extended.licenseStep inv path name s = (inl tt, s') ->
  exists license res,
    Extended.mapLookup Extended.licenseTemplate (Extended.argLicense inv) = Some license /\
    trace s'
    = app (trace s)
       [ Statted (filepath_Join [path; "LICENSE"]) res;
         Wrote (filepath_Join [path; "LICENSE"])
           (Template_String
              (Extended.insert license (Extended.flag_Arg inv 0) name
                 (Extended.argMkDate inv) (Extended.argMkVersion inv) (Extended.argUser inv)))
           mode0664 None ].
Proof.
  destruct s as [w tr]. unfold Extended.licenseStep.
  destruct (Extended.mapLookup Extended.licenseTemplate (Extended.argLicense inv))
    as [license|]; [|no_return].
  run_steps.
  set (lic := filepath_Join [path; "LICENSE"]).
  set (data := Template_String _).
  destruct (os_Stat lic w) as [stat err].
  destruct err as [e|]; [destruct (notExist e)|]; destruct stat as [[d]|];
    run_steps; try solve [no_return].
  all: try (destruct d; destruct (Extended.argOverwrite inv); run_steps;
            try solve [no_return]).
  all: destruct (ioutil_WriteFile lic data mode0664 w) as [[e'|] w2]; run_steps;
    try solve [no_return].
  all: intros Hret; injection Hret as <-; cbn [trace].
  all: exists license; eexists; split; [reflexivity|].
  all: repeat rewrite <- app_assoc; reflexivity.
Qed.

Lemma extended_readmeStep_returns (inv : Extended.Invocation) (path name : string)
      (s s' : State W) :
  Extended.readmeStep inv path name s = (inl tt, s') ->
  exists res,
    trace s'
    = app (trace s)
       [ Statted (filepath_Join [path; "README.md"]) res;
         Wrote (filepath_Join [path; "README.md"])
           (Template_String
              (Extended.insert Extended.readme (Extended.flag_Arg inv 0) name
                 (Extended.argMkDate inv) (Extended.argMkVersion inv) (Extended.argUser inv)))
           mode0664 None ].
Proof.
  destruct s as [w tr]. unfold Extended.readmeStep. run_steps.
  set (rd := filepath_Join [path; "README.md"]).
  set (data := Template_String _).
  destruct (os_Stat rd w) as [stat err].
  destruct err as [e|]; [destruct (notExist e)|]; destruct stat as [[d]|];
    run_steps; try solve [no_return].
  all: try (destruct d; destruct (Extended.argOverwrite inv); run_steps;
            try solve [no_return]).
  all: destruct (ioutil_WriteFile rd data mode0664 w) as [[e'|] w2]; run_steps;
    try solve [no_return].
  all: intros Hret; injection Hret as <-; cbn [trace].
  all: eexists; repeat rewrite <- app_assoc; reflexivity.
Qed.

(** X11.  A generating run of the extended variant ends with exit code 0
    only with a license identifier that the map of licenses holds, and after
    the directory was made, the source file written, both tools run without
    error, and the license and the readme written, in this order; the
    confirmation line is printed last. *)
Theorem extended_success_means_done (fuel : nat) (inv : Extended.Invocation) (w : W) :
  Extended.argChanges inv = false -> Extended.argVersion inv = false ->
  outcome (Extended.main fuel inv (start w)) = Exited 0 ->
  exists path name license r1 out1 out2 r2 r3,
    packagePath fuel (Extended.GOPATH inv) (Extended.flag_Arg inv 0) = Some (path, name) /\
    Extended.mapLookup Extended.licenseTemplate (Extended.argLicense inv) = Some license /\
    let text := fun tmpl =>
      Template_String
        (Extended.insert tmpl (Extended.flag_Arg inv 0) name (Extended.argMkDate inv)
           (Extended.argMkVersion inv) (Extended.argUser inv)) in
    trace (snd (Extended.main fuel inv (start w)))
    = [ MadeDir path os_ModePerm None;
        Statted (filepath_Join [path; name ++ ".go"]) r1;
        Wrote (filepath_Join [path; name ++ ".go"]) (text Extended.template) mode0664 None;
        Ran path "goimports" ["-w"; name ++ ".go"] out1 None;
        Ran path "go" ["mod"; "init"] out2 None;
        Statted (filepath_Join [path; "LICENSE"]) r2;
        Wrote (filepath_Join [path; "LICENSE"]) (text license) mode0664 None;
        Statted (filepath_Join [path; "README.md"]) r3;
        Wrote (filepath_Join [path; "README.md"]) (text Extended.readme) mode0664 None;
        Printed ("mkgo: successfully created " ++ fmt_quote (Extended.flag_Arg inv 0)
                 ++ ": " ++ path ++ nl) ].
Proof.
  intros Hc Hv. unfold Extended.main. rewrite Hc, Hv. unfold outcome, bind.
  destruct (Extended.prepare fuel inv (start w)) as [[[path name]|stop] s1] eqn:E1;
    cbv beta iota zeta.
  2:{ cbn [fst]. intros ->. exfalso.
      eapply ordered_stop; [apply (ordered_extended_prepare fuel inv)|exact E1]. }
  destruct (extended_prepare_returns _ _ _ _ _ _ E1) as (Hpp & T1).
  destruct (Extended.sourceStep inv path name s1) as [[[]|stop] s2] eqn:E2;
    cbv beta iota zeta.
  2:{ cbn [fst]. intros ->. exfalso.
      eapply ordered_stop; [apply (ordered_extended_sourceStep inv path name)|exact E2]. }
  destruct (extended_sourceStep_returns _ _ _ _ _ E2) as (r1 & out1 & out2 & T2).
  destruct (Extended.licenseStep inv path name s2) as [[[]|stop] s3] eqn:E3;
    cbv beta iota zeta.
  2:{ cbn [fst]. intros ->. exfalso.
      eapply ordered_stop; [apply (ordered_extended_licenseStep inv path name)|exact E3]. }
  destruct (extended_licenseStep_returns _ _ _ _ _ E3) as (license & r2 & Hlic & T3).
  destruct (Extended.readmeStep inv path name s3) as [[[]|stop] s4] eqn:E4;
    cbv beta iota zeta.
  2:{ cbn [fst]. intros ->. exfalso.
      eapply ordered_stop; [apply (ordered_extended_readmeStep inv path name)|exact E4]. }
  destruct (extended_readmeStep_returns _ _ _ _ _ E4) as (r3 & T4).
  intros _. exists path, name, license, r1, out1, out2, r2, r3.
  split; [exact Hpp|]. split; [exact Hlic|].
  unfold fmt_Print, emit. cbn [fst snd trace].
  rewrite T4, T3, T2, T1. reflexivity.
Qed.

End SuccessExtended.

Lemma extended_success_means_done_witness :
  exists path name license r1 out1 out2 r2 r3,
    packagePath 22 "/home/u/go" "example.com/acme/tool" = Some (path, name) /\
    Extended.mapLookup Extended.licenseTemplate "MIT" = Some license /\
    let text := fun tmpl =>
      Template_String
        (Extended.insert tmpl "example.com/acme/tool" name "2020 Oct 10" "0.1.0" "u") in
    trace (snd (Extended.main 22 (scenarioExtended false false "MIT" false) (start emptyDisk)))
    = [ MadeDir path os_ModePerm None;
        Statted (filepath_Join [path; name ++ ".go"]) r1;
        Wrote (filepath_Join [path; name ++ ".go"]) (text Extended.template) mode0664 None;
        Ran path "goimports" ["-w"; name ++ ".go"] out1 None;
        Ran path "go" ["mod"; "init"] out2 None;
        Statted (filepath_Join [path; "LICENSE"]) r2;
        Wrote (filepath_Join [path; "LICENSE"]) (text license) mode0664 None;
        Statted (filepath_Join [path; "README.md"]) r3;
        Wrote (filepath_Join [path; "README.md"]) (text Extended.readme) mode0664 None;
        Printed ("mkgo: successfully created " ++ fmt_quote "example.com/acme/tool"
                 ++ ": " ++ path ++ nl) ].
Proof.
  exact (extended_success_means_done 22 (scenarioExtended false false "MIT" false) emptyDisk
           eq_refl eq_refl eq_refl).
Defined.

(** ** What an exit code says of the run *)

Section Cause.
Context {W : Type} {platform : Platform W}.

(** X12.  What the end of a generating run of the basic variant says of it.
    Exit code 1: no call was made.  Code 2: the last call is a [MkdirAll]
    that failed.  Codes 3 and 7: the last call is the check of the source
    path, which found a directory with the force flag set (3), or something
    that exists with the flag not set (7).  Code 4: the last call is a write
    that failed.  Codes 5 and 6: the last call is the run of [goimports],
    of [go], that failed.  No other code ends such a run; a panic follows a
    check that failed with an error other than not-exist. *)
Theorem basic_exit_code_cause (fuel : nat) (inv : Basic.Invocation) (w : W)
        (stop : Stop) (s' : State W) :
  Basic.argChangeLog inv = false -> Basic.argVersion inv = false ->
  Basic.main fuel inv (start w) = (inr stop, s') ->
  cause (Basic.argOverwrite inv) stop (trace s') /\
  stop <> Exited 8 /\ stop <> Exited 9 /\ stop <> Exited 10 /\ stop <> Exited 11.
Proof.
  intros Hc Hv. unfold Basic.main. rewrite Hc, Hv. unfold Basic.prepare.
  assert (Hcodes : forall P : Prop, P ->
            forall n, n <= 7 ->
            P /\ Exited n <> Exited 8 /\ Exited n <> Exited 9 /\
            Exited n <> Exited 10 /\ Exited n <> Exited 11).
  { intros P HP n Hn. repeat split; try exact HP; intros E; injection E; lia. }
  destruct (Basic.flag_Args inv) as [|a0 rest] eqn:Eargs.
  { run_steps. intros Hstop. injection Hstop as <- <-.
    apply Hcodes; [reflexivity|lia]. }
  destruct (packagePath fuel (Basic.GOPATH inv) (Basic.flag_Arg inv 0))
    as [[path name]|] eqn:Epp.
  2:{ run_steps. intros Hstop. injection Hstop as <- <-.
      repeat split; try discriminate. }
  unfold Basic.generate. run_steps.
  destruct (os_MkdirAll path os_ModePerm w) as [[e|] w1] eqn:Emk.
  { run_steps. intros Hstop. injection Hstop as <- <-.
    apply Hcodes; [|lia]. cbn. eauto. }
  run_steps.
  set (src := filepath_Join [path; name ++ ".go"]).
  set (data := Template_String _).
  destruct (os_Stat src w1) as [stat err] eqn:Est.
  destruct (Basic.argOverwrite inv) eqn:Ef.
  all: destruct err as [e|]; [destruct (notExist e) eqn:Ene|]; destruct stat as [[[|]]|];
    run_steps.
  all: try (intros Hstop; injection Hstop as <- <-;
            first [ apply Hcodes; [|lia]; cbn; repeat first [reflexivity|assumption|split|eexists]
                  | repeat split; try discriminate;
                    cbn; repeat first [reflexivity|assumption|split|eexists] ]; fail).
  all: destruct (ioutil_WriteFile src data mode0664 w1) as [[e'|] w2] eqn:Ew; run_steps.
  all: try (intros Hstop; injection Hstop as <- <-;
            apply Hcodes; [|lia]; cbn; repeat first [reflexivity|split|eexists]; fail).
  all: destruct (exec_CombinedOutput path "goimports" ["-w"; name ++ ".go"] w2)
    as [[out1 [e1|]] w3] eqn:Ex1; run_steps.
  all: try (intros Hstop; injection Hstop as <- <-;
            apply Hcodes; [|lia]; cbn; repeat first [reflexivity|split|eexists]; fail).
  all: destruct (exec_CombinedOutput path "go" ["mod"; "init"] w3)
    as [[out2 [e2|]] w4] eqn:Ex2; run_steps.
  all: try (intros Hstop; injection Hstop as <- <-;
            apply Hcodes; [|lia]; cbn; repeat first [reflexivity|split|eexists]; fail).
  all: discriminate.
Qed.

End Cause.

Lemma basic_exit_code_cause_witness :
  cause false (Exited 6)
    (trace (snd (Basic.main 22 (scenarioBasic false false) (start (diskFailing ["go"]))))) /\
  Exited 6 <> Exited 8 /\ Exited 6 <> Exited 9 /\ Exited 6 <> Exited 10 /\
  Exited 6 <> Exited 11.
Proof.
  exact (basic_exit_code_cause 22 (scenarioBasic false false) (diskFailing ["go"])
           (Exited 6)
           (snd (Basic.main 22 (scenarioBasic false false) (start (diskFailing ["go"]))))
           eq_refl eq_refl eq_refl).
Defined.

Section CauseExtended.
Context {W : Type} {platform : Platform W}.

Lemma lastCall_app (a b : list Event) :
  lastCall (a ++ b) = match lastCall b with
                      | Some x => Some x
                      | None => lastCall a
                      end.
Proof.
  induction a as [|e a IH]; simpl.
  - destruct (lastCall b); reflexivity.
  - rewrite IH. destruct (lastCall b); reflexivity.
Qed.

Lemma extendedCause_app (inv : Extended.Invocation) (path name : string) (stop : Stop)
      (pre evs : list Event) :
  lastCall evs <> None ->
  extendedCause inv path name stop evs -> extendedCause inv path name stop (pre ++ evs).
Proof.
  intros Hne. unfold extendedCause. rewrite lastCall_app.
  destruct (lastCall evs) as [x|]; [|congruence]. auto.
Qed.

Ltac stop_case :=
  intros Hstop; injection Hstop as <- <-; cbn [trace];
  eexists; split;
  [first [symmetry; apply app_nil_r|repeat rewrite <- app_assoc; reflexivity]|];
  cbn;
  repeat first [reflexivity|assumption|discriminate|split|eexists
               |left; reflexivity|right; left; reflexivity
               |right; right; left; reflexivity].

Lemma extended_prepare_stops (fuel : nat) (inv : Extended.Invocation) (path name : string)
      (s s' : State W) (stop : Stop) :
  packagePath fuel (Extended.GOPATH inv) (Extended.flag_Arg inv 0) = Some (path, name) ->
  Extended.prepare fuel inv s = (inr stop, s') ->
  exists evs, trace s' = (trace s ++ evs)%list /\
    extendedCause inv path name stop evs.
Proof.
  intros Hpp. destruct s as [w tr]. unfold Extended.prepare.
  destruct (Extended.flag_Args inv) as [|a0 rest] eqn:Ea; run_steps; [stop_case|].
  rewrite Hpp. run_steps.
  destruct (os_MkdirAll path os_ModePerm w) as [[e|] w1]; run_steps; [stop_case|].
  discriminate.
Qed.

Lemma extended_sourceStep_stops (inv : Extended.Invocation) (path name : string)
      (s s' : State W) (stop : Stop) :
  Extended.sourceStep inv path name s = (inr stop, s') ->
  exists evs, trace s' = (trace s ++ evs)%list /\
    lastCall evs <> None /\ extendedCause inv path name stop evs.
Proof.
  destruct s as [w tr]. unfold Extended.sourceStep. run_steps.
  set (src := filepath_Join _).
  set (data := Template_String _).
  destruct (os_Stat src w) as [stat err].
  destruct (Extended.argOverwrite inv) eqn:Ef.
  all: destruct err as [e|]; [destruct (notExist e) eqn:Ene|]; destruct stat as [[[|]]|];
    run_steps; try (stop_case; fail).
  all: destruct (ioutil_WriteFile src data mode0664 w) as [[e'|] w2]; run_steps;
    try (stop_case; fail).
  all: destruct (exec_CombinedOutput path "goimports" ["-w"; name ++ ".go"] w2)
    as [[out1 [e1|]] w3]; run_steps; try (stop_case; fail).
  all: destruct (exec_CombinedOutput path "go" ["mod"; "init"] w3)
    as [[out2 [e2|]] w4]; run_steps; try (stop_case; fail).
  all: discriminate.
Qed.

(** The license step stops with code 8 at once, or after a call on
    [LICENSE]. *)
Lemma extended_licenseStep_stops (inv : Extended.Invocation) (path name : string)
      (s s' : State W) (stop : Stop) :
  Extended.licenseStep inv path name s = (inr stop, s') ->
  (stop = Exited 8 /\
   (exists text, trace s' = (trace s ++ [Printed text])%list) /\
   Extended.mapLookup Extended.licenseTemplate (Extended.argLicense inv) = None) \/
  (exists evs, trace s' = (trace s ++ evs)%list /\
     lastCall evs <> None /\ extendedCause inv path name stop evs).
Proof.
  destruct s as [w tr]. unfold Extended.licenseStep.
  destruct (Extended.mapLookup Extended.licenseTemplate (Extended.argLicense inv))
    as [license|].
  2:{ run_steps. intros Hstop. injection Hstop as <- <-. left.
      split; [reflexivity|]. split; [eexists; reflexivity|reflexivity]. }
  intros Hstop. right. revert Hstop. run_steps.
  set (lic := filepath_Join _).
  set (data := Template_String _).
  destruct (os_Stat lic w) as [stat err].
  destruct (Extended.argOverwrite inv) eqn:Ef.
  all: destruct err as [e|]; [destruct (notExist e) eqn:Ene|]; destruct stat as [[[|]]|];
    run_steps; try (stop_case; fail).
  all: destruct (ioutil_WriteFile lic data mode0664 w) as [[e'|] w2]; run_steps;
    try (stop_case; fail).
  all: discriminate.
Qed.

Lemma extended_readmeStep_stops (inv : Extended.Invocation) (path name : string)
      (s s' : State W) (stop : Stop) :
  Extended.readmeStep inv path name s = (inr stop, s') ->
  exists evs, trace s' = (trace s ++ evs)%list /\
    lastCall evs <> None /\ extendedCause inv path name stop evs.
Proof.
  destruct s as [w tr]. unfold Extended.readmeStep. run_steps.
  set (rd := filepath_Join _).
  set (data := Template_String _).
  destruct (os_Stat rd w) as [stat err].
  destruct (Extended.argOverwrite inv) eqn:Ef.
  all: destruct err as [e|]; [destruct (notExist e) eqn:Ene|]; destruct stat as [[[|]]|];
    run_steps; try (stop_case; fail).
  all: destruct (ioutil_WriteFile rd data mode0664 w) as [[e'|] w2]; run_steps;
    try (stop_case; fail).
  all: discriminate.
Qed.

(** X13.  What the end of a generating run of the extended variant says of
    it, [path] and [name] being the destination and the short name that
    [packagePath] returned.  Code 1: no argument was given and no call was
    made.  Code 2: the last call is the [MkdirAll] of [path], which failed.
    Codes 3, 4 and 7 belong to the source file: the last call is the check
    of [name.go] that found a directory with the force flag set (3), the
    write of [name.go] that failed (4), the check of [name.go] that did not
    answer not-exist with the flag not set (7).  Codes 5 and 6: the last call
    is the run of [goimports], of [go mod init], in [path], that failed.
    Code 8: the license identifier is not a key of the map of licenses, and
    the last call is the run of [go] without error, so that the source file
    stays written.  Codes 9, 10 and 11 belong to [LICENSE] and [README.md]:
    the last call is the check of one of them that found a directory with the
    flag set (9), the write of one of them that failed (10), the check of one
    of them that did not answer not-exist with the flag not set (11).  A
    panic follows the check of one of the three files that returned no file
    information and an error other than not-exist.  No other code ends such a
    run. *)
Theorem extended_exit_code_cause (fuel : nat) (inv : Extended.Invocation) (w : W)
        (path name : string) (stop : Stop) (s' : State W) :
  Extended.argChanges inv = false -> Extended.argVersion inv = false ->
  packagePath fuel (Extended.GOPATH inv) (Extended.flag_Arg inv 0) = Some (path, name) ->
  Extended.main fuel inv (start w) = (inr stop, s') ->
  extendedCause inv path name stop (trace s').
Proof.
  intros Hc Hv Hpp. unfold Extended.main. rewrite Hc, Hv. unfold bind.
  destruct (Extended.prepare fuel inv (start w)) as [[[path' name']|st] s1] eqn:E1;
    cbv beta iota zeta.
  2:{ intros Hstop. injection Hstop as <- <-.
      destruct (extended_prepare_stops _ _ _ _ _ _ _ Hpp E1) as (evs & T & Hcause).
      simpl in T. rewrite T. exact Hcause. }
  destruct (extended_prepare_returns _ _ _ _ _ _ E1) as (Hpp' & T1).
  rewrite Hpp in Hpp'. injection Hpp' as <- <-.
  destruct (Extended.sourceStep inv path name s1) as [[[]|st] s2] eqn:E2;
    cbv beta iota zeta.
  2:{ intros Hstop. injection Hstop as <- <-.
      destruct (extended_sourceStep_stops _ _ _ _ _ _ E2) as (evs & T & Hne & Hcause).
      rewrite T. apply extendedCause_app; assumption. }
  destruct (extended_sourceStep_returns _ _ _ _ _ E2) as (r1 & out1 & out2 & T2).
  destruct (Extended.licenseStep inv path name s2) as [[[]|st] s3] eqn:E3;
    cbv beta iota zeta.
  2:{ intros Hstop. injection Hstop as <- <-.
      destruct (extended_licenseStep_stops _ _ _ _ _ _ E3)
        as [(-> & (text & T) & Hnone)|(evs & T & Hne & Hcause)].
      - cbn [extendedCause]. split; [exact Hnone|]. exists out2.
        rewrite T, T2, !lastCall_app. reflexivity.
      - rewrite T. apply extendedCause_app; assumption. }
  destruct (extended_licenseStep_returns _ _ _ _ _ E3) as (license & r2 & Hlic & T3).
  destruct (Extended.readmeStep inv path name s3) as [[[]|st] s4] eqn:E4;
    cbv beta iota zeta.
  2:{ intros Hstop. injection Hstop as <- <-.
      destruct (extended_readmeStep_stops _ _ _ _ _ _ E4) as (evs & T & Hne & Hcause).
      rewrite T. apply extendedCause_app; assumption. }
  discriminate.
Qed.

End CauseExtended.

Lemma extended_exit_code_cause_witness :
  extendedCause (scenarioExtended false true "MIT" false) toolDir "tool" (Exited 11)
    (trace (snd (Extended.main 22 (scenarioExtended false true "MIT" false)
                   (start (diskWithDirectoryAt "README.md"))))).
Proof.
  exact (extended_exit_code_cause 22 (scenarioExtended false true "MIT" false)
           (diskWithDirectoryAt "README.md") toolDir "tool" (Exited 11)
           (snd (Extended.main 22 (scenarioExtended false true "MIT" false)
                   (start (diskWithDirectoryAt "README.md"))))
           eq_refl eq_refl eq_refl eq_refl).
Defined.
(** ** Rooted and relative identifiers *)

Section Termination.
Context {W : Type} {platform : Platform W}.

Lemma packagePath_rooted (GOPATH path : string) (fuel : nat) :
  isRooted path = true -> packagePath fuel GOPATH path = None.
Proof.
  intros Hr. unfold packagePath. rewrite (splitPath_rooted path Hr fuel). reflexivity.
Qed.

Lemma packagePath_relative_some (GOPATH path : string) (fuel : nat) :
  isRooted path = false -> String.length path < fuel ->
  exists r, packagePath fuel GOPATH path = Some r.
Proof.
  intros Hr Hlen. destruct (splitPath_relative path fuel Hr Hlen) as (part & Hsp & _).
  unfold packagePath. rewrite Hsp. eexists. reflexivity.
Qed.

End Termination.

Section Avoids.
Context {W : Type} {platform : Platform W}.
Variable bad : Stop.

Lemma avoids_ret {A : Type} (a : A) : avoids (W := W) bad (ret a).
Proof. intros s. discriminate. Qed.

Lemma avoids_halt {A : Type} (stop : Stop) :
  stop <> bad -> avoids (W := W) bad (halt (A := A) stop).
Proof. intros H s. simpl. congruence. Qed.

Lemma avoids_print (text : string) : avoids (W := W) bad (fmt_Print text).
Proof. intros s. discriminate. Qed.

Lemma avoids_bind {A B : Type} (m : Run W A) (k : A -> Run W B) :
  avoids bad m -> (forall a, avoids bad (k a)) -> avoids bad (bind m k).
Proof.
  intros Hm Hk s. unfold bind. specialize (Hm s).
  destruct (m s) as [[a|stop] s1]; cbn [fst] in *; [apply Hk|congruence].
Qed.

Lemma avoids_MkdirAll (path : string) (perm : nat) : avoids bad (MkdirAll path perm).
Proof.
  intros s. unfold MkdirAll. destruct (os_MkdirAll path perm (world s)). discriminate.
Qed.

Lemma avoids_WriteFile (path data : string) (perm : nat) :
  avoids bad (WriteFile path data perm).
Proof.
  intros s. unfold WriteFile. destruct (ioutil_WriteFile path data perm (world s)).
  discriminate.
Qed.

Lemma avoids_execCmd (dir cmd : string) (arg : list string) :
  avoids bad (execCmd dir cmd arg).
Proof.
  intros s. unfold execCmd. destruct (exec_CombinedOutput dir cmd arg (world s)) as [[o e] w'].
  discriminate.
Qed.

Lemma avoids_fileExists (path : string) :
  bad <> NilDereference -> avoids bad (fileExists path).
Proof.
  intros Hb [w tr]. run_steps. destruct (os_Stat path w) as [stat err].
  destruct err as [e|]; [destruct (notExist e)|]; destruct stat; try discriminate.
  all: cbn; congruence.
Qed.

Lemma avoids_outcome (m : Run W unit) (w : W) :
  avoids bad m -> bad <> Exited 0 -> outcome (m (start w)) <> bad.
Proof.
  intros Hm H0. specialize (Hm (start w)). unfold outcome.
  destruct (fst (m (start w))); congruence.
Qed.

End Avoids.

Section Termination2.
Context {W : Type} {platform : Platform W}.

Ltac avoids_steps :=
  repeat first
    [ apply avoids_ret
    | apply avoids_halt; discriminate
    | apply avoids_print
    | apply avoids_MkdirAll
    | apply avoids_WriteFile
    | apply avoids_execCmd
    | apply avoids_fileExists; discriminate
    | match goal with
      | |- avoids _ (match ?x with _ => _ end) => destruct x
      | |- avoids _ (if ?b then _ else _) => destruct b
      end
    | match goal with
      | |- avoids _ (bind _ _) => apply avoids_bind; [|intros]
      end ].

(** The generation steps stop a run with the codes 3 to 11 or with a panic:
    never with code 1, and never for want of fuel. *)
Lemma basic_generate_avoids (inv : Basic.Invocation) (path name : string) :
  avoids OutOfFuel (Basic.generate inv path name) /\
  avoids (Exited 1) (Basic.generate inv path name).
Proof. split; unfold Basic.generate, os_Exit; avoids_steps. Qed.

Lemma extended_steps_avoid (inv : Extended.Invocation) (path name : string) (bad : Stop) :
  bad = OutOfFuel \/ bad = Exited 1 ->
  avoids bad (Extended.sourceStep inv path name) /\
  avoids bad (Extended.licenseStep inv path name) /\
  avoids bad (Extended.readmeStep inv path name).
Proof.
  intros [->| ->]; repeat split.
  all: unfold Extended.sourceStep, Extended.licenseStep, Extended.readmeStep, os_Exit;
    avoids_steps.
Qed.

(** X14.  A rooted module identifier (one that starts with a slash) makes
    the program hang: whatever the fuel, the loop of [splitPath] is not over,
    and nothing has been printed, made, checked, written or run.  This holds
    of both variants, unless one of the flags that print the version or the
    changes is set. *)
Theorem rooted_identifier_never_ends (fuel : nat) (w : W) :
  (forall inv : Basic.Invocation,
      Basic.argChangeLog inv = false -> Basic.argVersion inv = false ->
      isRooted (Basic.flag_Arg inv 0) = true ->
      Basic.main fuel inv (start w) = (inr OutOfFuel, start w)) /\
  (forall inv : Extended.Invocation,
      Extended.argChanges inv = false -> Extended.argVersion inv = false ->
      isRooted (Extended.flag_Arg inv 0) = true ->
      Extended.main fuel inv (start w) = (inr OutOfFuel, start w)).
Proof.
  split; intros inv Hc Hv Hr.
  - unfold Basic.main, Basic.prepare. rewrite Hc, Hv.
    rewrite (packagePath_rooted _ _ fuel Hr).
    unfold Basic.flag_Arg in Hr.
    destruct (Basic.flag_Args inv) as [|a0 rest]; [discriminate Hr|]. reflexivity.
  - unfold Extended.main, Extended.prepare. rewrite Hc, Hv.
    rewrite (packagePath_rooted _ _ fuel Hr).
    unfold Extended.flag_Arg in Hr.
    destruct (Extended.flag_Args inv) as [|a0 rest]; [discriminate Hr|]. reflexivity.
Qed.

(** X15.  With an identifier that is not rooted the loop of [splitPath] is
    over in every run: once the fuel exceeds the length of the identifier, no
    run of either variant stops for want of fuel, whatever the flags and
    whatever the calls to the operating system and to the tools return. *)
Theorem relative_identifier_run_ends (fuel : nat) (w : W) :
  (forall inv : Basic.Invocation,
      isRooted (Basic.flag_Arg inv 0) = false ->
      String.length (Basic.flag_Arg inv 0) < fuel ->
      outcome (Basic.main fuel inv (start w)) <> OutOfFuel) /\
  (forall inv : Extended.Invocation,
      isRooted (Extended.flag_Arg inv 0) = false ->
      String.length (Extended.flag_Arg inv 0) < fuel ->
      outcome (Extended.main fuel inv (start w)) <> OutOfFuel).
Proof.
  split; intros inv Hr Hlen; (apply avoids_outcome; [|discriminate]).
  - destruct (packagePath_relative_some (Basic.GOPATH inv) _ fuel Hr Hlen) as [r Hpp].
    unfold Basic.main, Basic.prepare, os_Exit. rewrite Hpp.
    destruct (Basic.argChangeLog inv); [apply avoids_print|].
    destruct (Basic.argVersion inv); [apply avoids_print|].
    apply avoids_bind; [avoids_steps|]. intros [path name]. apply basic_generate_avoids.
  - destruct (packagePath_relative_some (Extended.GOPATH inv) _ fuel Hr Hlen) as [r Hpp].
    unfold Extended.main, Extended.prepare, os_Exit. rewrite Hpp.
    destruct (Extended.argChanges inv); [apply avoids_print|].
    destruct (Extended.argVersion inv); [apply avoids_print|].
    apply avoids_bind; [avoids_steps|]. intros [path name].
    destruct (extended_steps_avoid inv path name OutOfFuel) as (Hs & Hl & Hd); [auto|].
    apply avoids_bind; [exact Hs|intros _].
    apply avoids_bind; [exact Hl|intros _].
    apply avoids_bind; [exact Hd|intros _]. apply avoids_print.
Qed.

(** X19.  Exit code 1 is the code of a missing identifier and of nothing
    else: a run of either variant that is to generate files ends with code 1
    exactly when no argument is left after the flags. *)
Theorem exit_1_means_no_identifier (fuel : nat) (w : W) :
  (forall inv : Basic.Invocation,
      Basic.argChangeLog inv = false -> Basic.argVersion inv = false ->
      (outcome (Basic.main fuel inv (start w)) = Exited 1 <-> Basic.flag_Args inv = [])) /\
  (forall inv : Extended.Invocation,
      Extended.argChanges inv = false -> Extended.argVersion inv = false ->
      (outcome (Extended.main fuel inv (start w)) = Exited 1
       <-> Extended.flag_Args inv = [])).
Proof.
  split; intros inv Hc Hv.
  - unfold Basic.main, Basic.prepare, os_Exit. rewrite Hc, Hv.
    destruct (Basic.flag_Args inv) as [|a0 rest] eqn:Ea.
    + split; reflexivity.
    + split; [|discriminate]. intros H. exfalso. revert H.
      apply avoids_outcome; [|discriminate].
      change (Nat.eqb (length (a0 :: rest)) 0) with false. cbv iota.
      apply avoids_bind; [avoids_steps|]. intros [path name]. apply basic_generate_avoids.
  - unfold Extended.main, Extended.prepare, os_Exit. rewrite Hc, Hv.
    destruct (Extended.flag_Args inv) as [|a0 rest] eqn:Ea.
    + split; reflexivity.
    + split; [|discriminate]. intros H. exfalso. revert H.
      apply avoids_outcome; [|discriminate].
      change (Nat.eqb (length (a0 :: rest)) 0) with false. cbv iota.
      apply avoids_bind; [avoids_steps|]. intros [path name].
      destruct (extended_steps_avoid inv path name (Exited 1)) as (Hs & Hl & Hd); [auto|].
      apply avoids_bind; [exact Hs|intros _].
      apply avoids_bind; [exact Hl|intros _].
      apply avoids_bind; [exact Hd|intros _]. apply avoids_print.
Qed.

End Termination2.

Lemma rooted_identifier_never_ends_witness :
  Basic.main 1000
    (Basic.mkInvocation false false "2020 Oct 10" "0.1.0" false ["/srv/tool"] "/home/u/go")
    (start emptyDisk) = (inr OutOfFuel, start emptyDisk) /\
  Extended.main 1000
    (Extended.mkInvocation false false "2020 Oct 10" "0.1.0" true "MIT" "u" false
       ["/srv/tool"] "/home/u/go")
    (start emptyDisk) = (inr OutOfFuel, start emptyDisk).
Proof.
  destruct (@rooted_identifier_never_ends Disk diskPlatform 1000 emptyDisk) as [Hb Hx].
  split.
  - exact (Hb (Basic.mkInvocation false false "2020 Oct 10" "0.1.0" false ["/srv/tool"]
                 "/home/u/go") eq_refl eq_refl eq_refl).
  - exact (Hx (Extended.mkInvocation false false "2020 Oct 10" "0.1.0" true "MIT" "u" false
                 ["/srv/tool"] "/home/u/go") eq_refl eq_refl eq_refl).
Defined.

Lemma relative_identifier_run_ends_witness :
  outcome (Basic.main 22 (scenarioBasic false false) (start diskWithSource)) <> OutOfFuel /\
  outcome (Extended.main 22 (scenarioExtended false true "MIT" false) (start emptyDisk))
  <> OutOfFuel.
Proof.
  destruct (@relative_identifier_run_ends Disk diskPlatform 22 diskWithSource) as [Hb _].
  destruct (@relative_identifier_run_ends Disk diskPlatform 22 emptyDisk) as [_ Hx].
  split; [apply (Hb (scenarioBasic false false)); [reflexivity|simpl; lia]
         |apply (Hx (scenarioExtended false true "MIT" false)); [reflexivity|simpl; lia]].
Defined.

Lemma exit_1_means_no_identifier_witness :
  (outcome (Basic.main 22
              (Basic.mkInvocation false false "2020 Oct 10" "0.1.0" false [] "/home/u/go")
              (start emptyDisk)) = Exited 1 <-> @nil string = []) /\
  (outcome (Extended.main 22 (scenarioExtended false true "MIT" false) (start emptyDisk))
   = Exited 1 <-> ["example.com/acme/tool"] = []).
Proof.
  destruct (@exit_1_means_no_identifier Disk diskPlatform 22 emptyDisk) as [Hb Hx].
  split.
  - exact (Hb (Basic.mkInvocation false false "2020 Oct 10" "0.1.0" false [] "/home/u/go")
             eq_refl eq_refl).
  - exact (Hx (scenarioExtended false true "MIT" false) eq_refl eq_refl).
Defined.
(** ** What a run writes *)

Section Writes.
Context {W : Type} {platform : Platform W}.

Ltac writes_steps wr :=
  repeat first
    [ apply confined_ret
    | apply confined_halt
    | apply confined_print; exact I
    | apply confined_MkdirAll; intros; exact I
    | apply confined_execCmd; intros; exact I
    | apply confined_fileExists; intros; exact I
    | apply confined_WriteFile; intros; wr
    | match goal with
      | |- confined _ (match ?x with _ => _ end) => destruct x eqn:?
      | |- confined _ (if ?b then _ else _) => destruct b
      end
    | match goal with
      | |- confined _ (bind _ _) => apply confined_bind; [|intros]
      end ].

Lemma basic_generate_writes (inv : Basic.Invocation) (path name : string) :
  confined (basicWrites inv path name) (Basic.generate inv path name).
Proof.
  unfold Basic.generate, os_Exit.
  writes_steps ltac:(cbv beta iota delta [basicWrites]; split; reflexivity).
Qed.

Lemma extended_steps_write (inv : Extended.Invocation) (path name : string) :
  confined (extendedWrites inv path name) (Extended.sourceStep inv path name) /\
  confined (extendedWrites inv path name) (Extended.licenseStep inv path name) /\
  confined (extendedWrites inv path name) (Extended.readmeStep inv path name).
Proof.
  repeat split.
  - unfold Extended.sourceStep, os_Exit.
    writes_steps ltac:(cbv beta iota delta [extendedWrites extendedText];
                       left; split; reflexivity).
  - unfold Extended.licenseStep, os_Exit.
    writes_steps ltac:(cbv beta iota delta [extendedWrites extendedText];
                       right; left; split;
                       [reflexivity|eexists; split; [eassumption|reflexivity]]).
  - unfold Extended.readmeStep, os_Exit.
    writes_steps ltac:(cbv beta iota delta [extendedWrites extendedText];
                       right; right; split; reflexivity).
Qed.

Lemma basic_prepare_events (fuel : nat) (inv : Basic.Invocation) (path name : string)
      (P : Event -> Prop) :
  packagePath fuel (Basic.GOPATH inv) (Basic.flag_Arg inv 0) = Some (path, name) ->
  (forall text, P (Printed text)) -> (forall p perm err, P (MadeDir p perm err)) ->
  forall s, exists evs,
    trace (snd (Basic.prepare fuel inv s)) = (trace s ++ evs)%list /\
    Forall P evs /\
    forall a, fst (Basic.prepare fuel inv s) = inl a -> a = (path, name).
Proof.
  intros Hpp Hp Hm [w tr]. unfold Basic.prepare.
  destruct (Basic.flag_Args inv) as [|a0 rest]; run_steps.
  - eexists. split; [reflexivity|]. split; [repeat constructor; apply Hp|discriminate].
  - rewrite Hpp. run_steps.
    destruct (os_MkdirAll path os_ModePerm w) as [[e|] w1]; run_steps.
    + eexists. split; [rewrite <- app_assoc; reflexivity|].
      split; [repeat constructor; auto|discriminate].
    + eexists. split; [reflexivity|].
      split; [repeat constructor; auto|]. intros a E. congruence.
Qed.

Lemma extended_prepare_events (fuel : nat) (inv : Extended.Invocation) (path name : string)
      (P : Event -> Prop) :
  packagePath fuel (Extended.GOPATH inv) (Extended.flag_Arg inv 0) = Some (path, name) ->
  (forall text, P (Printed text)) -> (forall p perm err, P (MadeDir p perm err)) ->
  forall s, exists evs,
    trace (snd (Extended.prepare fuel inv s)) = (trace s ++ evs)%list /\
    Forall P evs /\
    forall a, fst (Extended.prepare fuel inv s) = inl a -> a = (path, name).
Proof.
  intros Hpp Hp Hm [w tr]. unfold Extended.prepare.
  destruct (Extended.flag_Args inv) as [|a0 rest]; run_steps.
  - eexists. split; [reflexivity|]. split; [repeat constructor; apply Hp|discriminate].
  - rewrite Hpp. run_steps.
    destruct (os_MkdirAll path os_ModePerm w) as [[e|] w1]; run_steps.
    + eexists. split; [rewrite <- app_assoc; reflexivity|].
      split; [repeat constructor; auto|discriminate].
    + eexists. split; [reflexivity|].
      split; [repeat constructor; auto|]. intros a E. congruence.
Qed.

(** X16.  What a run writes does not depend on what it finds on the disk.
    Whatever the flags and the answers of the operating system, a write of
    the basic variant is the write of [name.go] in the destination, with the
    text of the source template rendered with the short name, the date and
    the version; a write of the extended variant is that of [name.go], of
    [LICENSE] or of [README.md], each with the text of its own template
    rendered with the identifier, the short name, the date, the version and
    the user, the license template being the one found for the identifier of
    the license. *)
Theorem written_text_is_rendered_template (fuel : nat) (path name : string) (w : W) :
  (forall inv : Basic.Invocation,
      packagePath fuel (Basic.GOPATH inv) (Basic.flag_Arg inv 0) = Some (path, name) ->
      Forall (basicWrites inv path name) (trace (snd (Basic.main fuel inv (start w))))) /\
  (forall inv : Extended.Invocation,
      packagePath fuel (Extended.GOPATH inv) (Extended.flag_Arg inv 0) = Some (path, name) ->
      Forall (extendedWrites inv path name)
        (trace (snd (Extended.main fuel inv (start w))))).
Proof.
  split; intros inv Hpp.
  - unfold Basic.main.
    destruct (Basic.argChangeLog inv); [repeat constructor|].
    destruct (Basic.argVersion inv); [repeat constructor|].
    unfold bind at 1.
    destruct (basic_prepare_events fuel inv path name (basicWrites inv path name) Hpp
                (fun _ => I) (fun _ _ _ => I) (start w)) as (e1 & E1 & H1 & Hret).
    destruct (Basic.prepare fuel inv (start w)) as [[a|stop] s1]; cbn [fst snd] in *.
    + rewrite (Hret a eq_refl).
      destruct (basic_generate_writes inv path name s1) as (e2 & E2 & H2).
      rewrite E2, E1. simpl. apply Forall_app. split; assumption.
    + rewrite E1. exact H1.
  - unfold Extended.main.
    destruct (Extended.argChanges inv); [repeat constructor|].
    destruct (Extended.argVersion inv); [repeat constructor|].
    unfold bind at 1.
    destruct (extended_prepare_events fuel inv path name (extendedWrites inv path name) Hpp
                (fun _ => I) (fun _ _ _ => I) (start w)) as (e1 & E1 & H1 & Hret).
    destruct (Extended.prepare fuel inv (start w)) as [[a|stop] s1]; cbn [fst snd] in *.
    + rewrite (Hret a eq_refl).
      destruct (extended_steps_write inv path name) as (Hs & Hl & Hr).
      assert (Hrest : confined (extendedWrites inv path name)
                (bind (Extended.sourceStep inv path name) (fun _ =>
                 bind (Extended.licenseStep inv path name) (fun _ =>
                 bind (Extended.readmeStep inv path name) (fun _ =>
                 fmt_Print ("mkgo: successfully created "
                            ++ fmt_quote (Extended.flag_Arg inv 0) ++ ": " ++ path ++ nl)))))).
      { apply confined_bind; [exact Hs|intros _].
        apply confined_bind; [exact Hl|intros _].
        apply confined_bind; [exact Hr|intros _].
        apply confined_print. exact I. }
      destruct (Hrest s1) as (e2 & E2 & H2).
      rewrite E2, E1. simpl. apply Forall_app. split; assumption.
    + rewrite E1. exact H1.
Qed.

End Writes.

Lemma written_text_is_rendered_template_witness :
  Forall (basicWrites (scenarioBasic false true) toolDir "tool")
    (trace (snd (Basic.main 22 (scenarioBasic false true) (start diskWithSource)))) /\
  Forall (extendedWrites (scenarioExtended false true "MIT" false) toolDir "tool")
    (trace (snd (Extended.main 22 (scenarioExtended false true "MIT" false)
                   (start emptyDisk)))).
Proof.
  destruct (@written_text_is_rendered_template Disk diskPlatform 22 toolDir "tool"
              diskWithSource) as [Hb _].
  destruct (@written_text_is_rendered_template Disk diskPlatform 22 toolDir "tool"
              emptyDisk) as [_ Hx].
  split; [exact (Hb (scenarioBasic false true) eq_refl)
         |exact (Hx (scenarioExtended false true "MIT" false) eq_refl)].
Defined.
(** ** Lines without placeholder, and the templates of the program *)

Lemma replaceFrom_absent (old new s : string) :
  contains old s = false -> replaceFrom old new 0 s = s.
Proof.
  induction s as [|c s IH]; intros H; [reflexivity|].
  cbn [contains] in H. apply orb_false_iff in H. destruct H as [Hp Hc].
  cbn [replaceFrom]. rewrite Hp, (IH Hc). reflexivity.
Qed.

Lemma strings_ReplaceAll_absent (s : string) (t : Token) (v : string) :
  noSentinel s = true -> strings_ReplaceAll s (sentinel t) v = s.
Proof.
  intros H. rewrite strings_ReplaceAll_sentinel.
  apply replaceFrom_absent. apply noSentinel_contains. exact H.
Qed.

(** X17.  [insert] leaves alone every line that holds no sentinel, whatever
    the values are, also values that hold sentinels themselves: a template
    of such lines comes back as it is, in both variants. *)
Theorem insert_keeps_plain_lines (tmpl : Template) (path name date version user : string) :
  Forall (fun s => noSentinel s = true) tmpl ->
  Basic.insert tmpl name date version = tmpl /\
  Extended.insert tmpl path name date version user = tmpl.
Proof.
  intros H. unfold Basic.insert, Extended.insert.
  change "__IMPORT__" with (sentinel IMPORT).
  change "__NAME__" with (sentinel NAME). change "__DATE__" with (sentinel DATE).
  change "__VERSION__" with (sentinel VERSION). change "__USER__" with (sentinel USER).
  split.
  - induction H as [|s rest Hs Hrest IH]; [reflexivity|].
    cbn [map]. rewrite IH. rewrite !(strings_ReplaceAll_absent s) by exact Hs. reflexivity.
  - induction H as [|s rest Hs Hrest IH]; [reflexivity|].
    cbn [map]. rewrite IH. rewrite !(strings_ReplaceAll_absent s) by exact Hs. reflexivity.
Qed.

Lemma insert_keeps_plain_lines_witness :
  Basic.insert ["package main"; EmptyString; "func main() {}"] "__DATE__" "d" "v"
  = ["package main"; EmptyString; "func main() {}"] /\
  Extended.insert ["package main"; EmptyString; "func main() {}"] "p" "__DATE__" "d" "v" "u"
  = ["package main"; EmptyString; "func main() {}"].
Proof.
  apply (insert_keeps_plain_lines ["package main"; EmptyString; "func main() {}"]
           "p" "__DATE__" "d" "v" "u").
  repeat constructor.
Defined.

Lemma basic_insert_render (lines : list Line) (name date version : string) :
  forallb delimited lines = true ->
  noSentinel name = true -> noSentinel date = true -> noSentinel version = true ->
  Basic.insert (map lineText lines) name date version
  = render (basicContext name date version) lines.
Proof.
  intros Hd Hn Hda Hv. unfold Basic.insert, render. rewrite map_map. apply map_ext_in.
  intros L HL. rewrite forallb_forall in Hd. apply basic_insert_line; auto.
Qed.

Lemma extended_insert_render (lines : list Line) (path name date version user : string) :
  forallb delimited lines = true ->
  noSentinel path = true -> noSentinel name = true -> noSentinel date = true ->
  noSentinel version = true -> noSentinel user = true ->
  Extended.insert (map lineText lines) path name date version user
  = render (extendedContext path name date version user) lines.
Proof.
  intros Hd Hp Hn Hda Hv Hu. unfold Extended.insert, render. rewrite map_map.
  apply map_ext_in. intros L HL. rewrite forallb_forall in Hd.
  apply extended_insert_line; auto.
Qed.

(** Rendering makes no placeholder. *)
Lemma holeFree_kept (ctx : Context) (t : Token) (L : Line) :
  holeFree t L = true -> holeFree t (renderLine ctx L) = true.
Proof.
  unfold holeFree. cbn [renderLine fields]. rewrite !forallb_forall.
  intros H fl Hin. apply in_map_iff in Hin. destruct Hin as ([f l] & <- & Hin).
  specialize (H _ Hin). cbn [fst] in *.
  destruct f as [t'|v]; [|reflexivity]. simpl. destruct (ctx t'); [reflexivity|exact H].
Qed.

Lemma render_no_sentinel_left (ctx : Context) (t : Token) (lines : list Line) :
  forallb delimited lines = true ->
  (forall t' v, ctx t' = Some v -> noSentinel v = true) ->
  ctx t <> None \/ forallb (holeFree t) lines = true ->
  contains (sentinel t) (Template_String (render ctx lines)) = false.
Proof.
  intros Hd Hctx Ht. apply contains_joined. unfold render.
  rewrite Forall_forall. intros s Hin. apply in_map_iff in Hin.
  destruct Hin as (L & <- & HL).
  rewrite forallb_forall in Hd.
  apply contains_line.
  - apply delimited_render; [exact Hctx|]. apply Hd. exact HL.
  - destruct Ht as [Ht|Ht].
    + apply holeFree_render. exact Ht.
    + apply holeFree_kept. rewrite forallb_forall in Ht. apply Ht. exact HL.
Qed.

(** X18.  No placeholder is left in what the program generates.  When the
    identifier, the short name, the date, the version and the user hold no
    sentinel, the text made of each template of the program (the source of
    the basic variant; the source, the MIT license and the readme of the
    extended one) holds no sentinel of any token. *)
Theorem generated_text_holds_no_sentinel (path name date version user : string)
        (t : Token) :
  noSentinel path = true -> noSentinel name = true -> noSentinel date = true ->
  noSentinel version = true -> noSentinel user = true ->
  contains (sentinel t) (Template_String (Basic.insert Basic.template name date version))
  = false /\
  contains (sentinel t)
    (Template_String (Extended.insert Extended.template path name date version user))
  = false /\
  contains (sentinel t)
    (Template_String (Extended.insert Extended.licenseMIT path name date version user))
  = false /\
  contains (sentinel t)
    (Template_String (Extended.insert Extended.readme path name date version user))
  = false.
Proof.
  intros Hp Hn Hda Hv Hu.
  destruct compiled_templates_delimited
    as (Hd1 & He1 & Hd2 & He2 & Hd3 & He3 & Hd4 & He4).
  assert (Hb : forall t' v, basicContext name date version t' = Some v ->
                            noSentinel v = true)
    by (intros t' v; destruct t'; simpl; congruence).
  assert (Hx : forall t' v, extendedContext path name date version user t' = Some v ->
                            noSentinel v = true)
    by (intros t' v; destruct t'; simpl; congruence).
  repeat split.
  - rewrite <- He1. rewrite basic_insert_render by assumption.
    apply render_no_sentinel_left; [exact Hd1|exact Hb|].
    destruct t; [right; vm_compute; reflexivity|left; discriminate|left; discriminate
                |left; discriminate|right; vm_compute; reflexivity].
  - rewrite <- He2. rewrite extended_insert_render by assumption.
    apply render_no_sentinel_left; [exact Hd2|exact Hx|]. left. destruct t; discriminate.
  - rewrite <- He3. rewrite extended_insert_render by assumption.
    apply render_no_sentinel_left; [exact Hd3|exact Hx|]. left. destruct t; discriminate.
  - rewrite <- He4. rewrite extended_insert_render by assumption.
    apply render_no_sentinel_left; [exact Hd4|exact Hx|]. left. destruct t; discriminate.
Qed.

Lemma generated_text_holds_no_sentinel_witness :
  contains "__NAME__"
    (Template_String (Basic.insert Basic.template "tool" "2020 Oct 10" "0.1.0")) = false /\
  contains "__NAME__"
    (Template_String
       (Extended.insert Extended.template "example.com/acme/tool" "tool" "2020 Oct 10"
          "0.1.0" "u")) = false /\
  contains "__NAME__"
    (Template_String
       (Extended.insert Extended.licenseMIT "example.com/acme/tool" "tool" "2020 Oct 10"
          "0.1.0" "u")) = false /\
  contains "__NAME__"
    (Template_String
       (Extended.insert Extended.readme "example.com/acme/tool" "tool" "2020 Oct 10"
          "0.1.0" "u")) = false.
Proof.
  exact (generated_text_holds_no_sentinel "example.com/acme/tool" "tool" "2020 Oct 10"
           "0.1.0" "u" NAME eq_refl eq_refl eq_refl eq_refl eq_refl).
Defined.
(** ** More on [fileExists] and on the runs of the extended variant *)

Section FileExistsReturns.
Context {W : Type} {platform : Platform W}.

(** X20.  What the pair that [fileExists] returns means.  The call checks
    the path once and changes nothing; [exists] is false exactly for a
    not-exist error, so that any other outcome of the check counts as
    existing; and [isDir] is true only when the check found a directory,
    which then exists. *)
Theorem fileExists_returns (path : string) (s s' : State W) (e d : bool) :
  fileExists path s = (inl (e, d), s') ->
  s' = mkState (world s) (trace s ++ [Statted path (os_Stat path (world s))]) /\
  e = negb (os_IsNotExist (snd (os_Stat path (world s)))) /\
  (d = true ->
   e = true /\ fst (os_Stat path (world s)) = Some (mkFileInfo true)).
Proof.
  destruct s as [w tr]. run_steps.
  destruct (os_Stat path w) as [stat err].
  destruct err as [err|]; [destruct (notExist err)|]; destruct stat as [[isDir]|];
    intros H; inversion H; subst; clear H;
    (split; [reflexivity|split; [reflexivity|]]);
    intros Hd; first [discriminate Hd | subst; split; reflexivity].
Qed.

End FileExistsReturns.

Lemma fileExists_returns_witness :
  snd (fileExists (toolDir ++ "/tool.go") (start diskWithSource))
  = mkState diskWithSource [Statted (toolDir ++ "/tool.go") (statFound false)] /\
  true = negb (os_IsNotExist (snd (diskStat (toolDir ++ "/tool.go") diskWithSource))) /\
  (false = true ->
   true = true /\
   fst (diskStat (toolDir ++ "/tool.go") diskWithSource) = Some (mkFileInfo true)).
Proof.
  exact (fileExists_returns (toolDir ++ "/tool.go") (start diskWithSource)
           (snd (fileExists (toolDir ++ "/tool.go") (start diskWithSource)))
           true false eq_refl).
Defined.

Lemma extended_existing_source_kept_witness :
  Extended.main 22 (scenarioExtended false true "MIT" false) (start diskWithSource)
  = (inr (Exited 7),
     mkState diskWithSource
       [ MadeDir toolDir os_ModePerm None;
         Statted (toolDir ++ "/tool.go") (statFound false);
         Printed ("error: file exists (use -f to overwrite): "
                  ++ toolDir ++ "/tool.go" ++ nl) ]).
Proof.
  apply (extended_existing_source_kept 22 (scenarioExtended false true "MIT" false)
           diskWithSource diskWithSource toolDir "tool"); reflexivity || discriminate.
Defined.

Lemma extended_tools_follow_write_witness :
  outcome (Extended.main 22 (scenarioExtended false true "MIT" false)
             (start (diskFailing ["go"])))
  = Exited 6 /\
  last (trace (snd (Extended.main 22 (scenarioExtended false true "MIT" false)
                      (start (diskFailing ["go"])))))
       (Printed EmptyString)
  = Printed ("go: failed" ++ nl).
Proof.
  destruct (extended_tools_follow_write 22 (scenarioExtended false true "MIT" false)
              (diskFailing ["go"])) as [_ Hpin].
  edestruct (Hpin toolDir "tool") as [_ H6];
    [reflexivity|reflexivity|discriminate|reflexivity|reflexivity|reflexivity
    |left; reflexivity|reflexivity|reflexivity|].
  rewrite (H6 eq_refl ("go: failed" ++ nl) (Some (mkError false "exit status 1")) _ eq_refl)
    by discriminate.
  split; reflexivity.
Defined.
(** ** Without the force flag nothing is overwritten *)

Lemma unforced_app (a b : list Event) :
  (forall prev, unforced prev a) -> (forall prev, unforced prev b) ->
  forall prev, unforced prev (a ++ b).
Proof.
  intros Ha Hb prev. specialize (Ha prev). revert prev Ha.
  induction a as [|e a IH]; intros prev Ha; [apply Hb|].
  cbn [unforced app] in *. destruct Ha as [He Ha]. split; [exact He|].
  apply IH. exact Ha.
Qed.

Lemma unforced_split (tr : list Event) :
  forall prev pre p data perm err post,
    unforced prev tr -> tr = (pre ++ Wrote p data perm err :: post)%list ->
    match pre with
    | [] => exists res, prev = Some (Statted p res) /\ os_IsNotExist (snd res) = true
    | _ :: _ => exists pre' res,
        pre = (pre' ++ [Statted p res])%list /\ os_IsNotExist (snd res) = true
    end.
Proof.
  induction tr as [|e tr IH]; intros prev pre p data perm err post H E.
  - destruct pre; discriminate.
  - destruct pre as [|e0 pre0]; cbn [app] in E; injection E as -> ->.
    + cbn [unforced] in H. destruct H as [H _].
      destruct prev as [[| |q res| |]|]; try contradiction.
      destruct H as [-> Hres]. exists res. split; [reflexivity|exact Hres].
    + cbn [unforced] in H. destruct H as [_ H].
      specialize (IH (Some e0) pre0 p data perm err post H eq_refl).
      destruct pre0 as [|e1 pre1].
      * destruct IH as (res & Eres & Hres). injection Eres as ->.
        exists [], res. split; [reflexivity|exact Hres].
      * destruct IH as (pre' & res & Epre & Hres).
        exists (e0 :: pre'), res. split; [cbn [app]; rewrite Epre; reflexivity|exact Hres].
Qed.

Section Careful.
Context {W : Type} {platform : Platform W}.

Lemma careful_bind {A B : Type} (m : Run W A) (k : A -> Run W B) :
  careful m -> (forall a, careful (k a)) -> careful (bind m k).
Proof.
  intros Hm Hk s. unfold bind. destruct (Hm s) as (e1 & E1 & H1).
  destruct (m s) as [[a|stop] s1]; cbn [snd] in E1.
  - destruct (Hk a s1) as (e2 & E2 & H2). exists (e1 ++ e2)%list.
    split; [rewrite E2, E1, app_assoc; reflexivity|apply unforced_app; assumption].
  - exists e1. split; assumption.
Qed.

Lemma careful_print (text : string) : careful (W := W) (fmt_Print text).
Proof. intros s. exists [Printed text]. split; [reflexivity|]. intros prev. cbn. auto. Qed.

Ltac careful_case :=
  eexists; split;
  [first [symmetry; apply app_nil_r|repeat rewrite <- app_assoc; reflexivity]
  |intros prev; cbn; repeat split; assumption].

Lemma basic_prepare_careful (fuel : nat) (inv : Basic.Invocation) :
  careful (Basic.prepare fuel inv).
Proof.
  intros [w tr]. unfold Basic.prepare.
  destruct (Basic.flag_Args inv) as [|a0 rest]; run_steps; [careful_case|].
  destruct (packagePath fuel (Basic.GOPATH inv) (Basic.flag_Arg inv 0))
    as [[p n]|]; run_steps; [|careful_case].
  destruct (os_MkdirAll p os_ModePerm w) as [[e|] w1]; run_steps; careful_case.
Qed.

Lemma extended_prepare_careful (fuel : nat) (inv : Extended.Invocation) :
  careful (Extended.prepare fuel inv).
Proof.
  intros [w tr]. unfold Extended.prepare.
  destruct (Extended.flag_Args inv) as [|a0 rest]; run_steps; [careful_case|].
  destruct (packagePath fuel (Extended.GOPATH inv) (Extended.flag_Arg inv 0))
    as [[p n]|]; run_steps; [|careful_case].
  destruct (os_MkdirAll p os_ModePerm w) as [[e|] w1]; run_steps; careful_case.
Qed.

Lemma basic_generate_careful (inv : Basic.Invocation) (path name : string) :
  Basic.argOverwrite inv = false -> careful (Basic.generate inv path name).
Proof.
  intros Hf [w tr]. unfold Basic.generate. rewrite Hf. run_steps.
  set (src := filepath_Join _).
  set (data := Template_String _).
  destruct (os_Stat src w) as [stat err].
  destruct err as [e|]; [destruct (notExist e) eqn:Ene|]; destruct stat as [[[|]]|];
    run_steps; try (careful_case; fail).
  all: destruct (ioutil_WriteFile src data mode0664 w) as [[e'|] w2]; run_steps;
    try (careful_case; fail).
  all: destruct (exec_CombinedOutput path "goimports" ["-w"; name ++ ".go"] w2)
    as [[out1 [e1|]] w3]; run_steps; try (careful_case; fail).
  all: destruct (exec_CombinedOutput path "go" ["mod"; "init"] w3)
    as [[out2 [e2|]] w4]; run_steps; careful_case.
Qed.

Lemma extended_sourceStep_careful (inv : Extended.Invocation) (path name : string) :
  Extended.argOverwrite inv = false -> careful (Extended.sourceStep inv path name).
Proof.
  intros Hf [w tr]. unfold Extended.sourceStep. rewrite Hf. run_steps.
  set (src := filepath_Join _).
  set (data := Template_String _).
  destruct (os_Stat src w) as [stat err].
  destruct err as [e|]; [destruct (notExist e) eqn:Ene|]; destruct stat as [[[|]]|];
    run_steps; try (careful_case; fail).
  all: destruct (ioutil_WriteFile src data mode0664 w) as [[e'|] w2]; run_steps;
    try (careful_case; fail).
  all: destruct (exec_CombinedOutput path "goimports" ["-w"; name ++ ".go"] w2)
    as [[out1 [e1|]] w3]; run_steps; try (careful_case; fail).
  all: destruct (exec_CombinedOutput path "go" ["mod"; "init"] w3)
    as [[out2 [e2|]] w4]; run_steps; careful_case.
Qed.

Lemma extended_licenseStep_careful (inv : Extended.Invocation) (path name : string) :
  Extended.argOverwrite inv = false -> careful (Extended.licenseStep inv path name).
Proof.
  intros Hf [w tr]. unfold Extended.licenseStep. rewrite Hf.
  destruct (Extended.mapLookup Extended.licenseTemplate (Extended.argLicense inv))
    as [license|]; run_steps; [|careful_case].
  set (lic := filepath_Join _).
  set (data := Template_String _).
  destruct (os_Stat lic w) as [stat err].
  destruct err as [e|]; [destruct (notExist e) eqn:Ene|]; destruct stat as [[[|]]|];
    run_steps; try (careful_case; fail).
  all: destruct (ioutil_WriteFile lic data mode0664 w) as [[e'|] w2]; run_steps;
    careful_case.
Qed.

Lemma extended_readmeStep_careful (inv : Extended.Invocation) (path name : string) :
  Extended.argOverwrite inv = false -> careful (Extended.readmeStep inv path name).
Proof.
  intros Hf [w tr]. unfold Extended.readmeStep. rewrite Hf. run_steps.
  set (rd := filepath_Join _).
  set (data := Template_String _).
  destruct (os_Stat rd w) as [stat err].
  destruct err as [e|]; [destruct (notExist e) eqn:Ene|]; destruct stat as [[[|]]|];
    run_steps; try (careful_case; fail).
  all: destruct (ioutil_WriteFile rd data mode0664 w) as [[e'|] w2]; run_steps;
    careful_case.
Qed.

Lemma careful_start {A : Type} (m : Run W A) (w : W)
      (pre post : list Event) (p data : string) (perm : nat) (err : option error) :
  careful m ->
  trace (snd (m (start w))) = (pre ++ Wrote p data perm err :: post)%list ->
  exists pre' res,
    pre = (pre' ++ [Statted p res])%list /\ os_IsNotExist (snd res) = true.
Proof.
  intros Hm E. destruct (Hm (start w)) as (evs & Etr & Hun).
  simpl in Etr. rewrite Etr in E.
  pose proof (unforced_split evs None pre p data perm err post (Hun None) E) as H.
  destruct pre as [|e0 pre0]; [|exact H].
  destruct H as (res & Hres & _). discriminate Hres.
Qed.

(** X23.  Without the force flag the program overwrites nothing: in every
    run of either variant, whatever the other flags and the answers of the
    operating system, the call right before a write is the check of the very
    path written, and that check answered with a not-exist error. *)
Theorem no_force_no_overwrite (fuel : nat) (w : W)
        (pre post : list Event) (p data : string) (perm : nat) (err : option error) :
  (forall inv : Basic.Invocation,
      Basic.argOverwrite inv = false ->
      trace (snd (Basic.main fuel inv (start w)))
      = (pre ++ Wrote p data perm err :: post)%list ->
      exists pre' res,
        pre = (pre' ++ [Statted p res])%list /\ os_IsNotExist (snd res) = true) /\
  (forall inv : Extended.Invocation,
      Extended.argOverwrite inv = false ->
      trace (snd (Extended.main fuel inv (start w)))
      = (pre ++ Wrote p data perm err :: post)%list ->
      exists pre' res,
        pre = (pre' ++ [Statted p res])%list /\ os_IsNotExist (snd res) = true).
Proof.
  split; intros inv Hf; apply careful_start.
  - unfold Basic.main.
    destruct (Basic.argChangeLog inv); [apply careful_print|].
    destruct (Basic.argVersion inv); [apply careful_print|].
    apply careful_bind; [apply basic_prepare_careful|]. intros [path name].
    apply basic_generate_careful. exact Hf.
  - unfold Extended.main.
    destruct (Extended.argChanges inv); [apply careful_print|].
    destruct (Extended.argVersion inv); [apply careful_print|].
    apply careful_bind; [apply extended_prepare_careful|]. intros [path name].
    apply careful_bind; [apply extended_sourceStep_careful; exact Hf|intros _].
    apply careful_bind; [apply extended_licenseStep_careful; exact Hf|intros _].
    apply careful_bind; [apply extended_readmeStep_careful; exact Hf|intros _].
    apply careful_print.
Qed.

End Careful.

Lemma no_force_no_overwrite_witness :
  exists pre' res,
    [ MadeDir toolDir os_ModePerm None;
      Statted (toolDir ++ "/tool.go")
        (statFailed (mkError true ("stat " ++ toolDir ++ "/tool.go"
                                   ++ ": no such file or directory"))) ]
    = (pre' ++ [Statted (toolDir ++ "/tool.go") res])%list /\
    os_IsNotExist (snd res) = true.
Proof.
  destruct (@no_force_no_overwrite Disk diskPlatform 22 emptyDisk
              [ MadeDir toolDir os_ModePerm None;
                Statted (toolDir ++ "/tool.go")
                  (statFailed (mkError true ("stat " ++ toolDir ++ "/tool.go"
                                             ++ ": no such file or directory"))) ]
              (skipn 3 (trace (snd (Basic.main 22 (scenarioBasic false false)
                                      (start emptyDisk)))))
              (toolDir ++ "/tool.go")
              (Template_String (Basic.insert Basic.template "tool" "2020 Oct 10" "0.1.0"))
              mode0664 None) as [Hb _].
  exact (Hb (scenarioBasic false false) eq_refl eq_refl).
Defined.
